(** * multiprot: the Ranch and Pulchra wrappers

    A shallow embedding of [multiprot/new_ranch_6.py] and
    [multiprot/pulchra.py].  Python values are modelled by Rocq data:
    [str] by [string], lists by [list], dictionaries by [gmap] (or by an
    association list where the iteration order matters), exceptions by an
    outcome type.  The structure class [biskit.PDBModel] the wrappers
    are written against is modelled in module [B] as an atom array with the
    residue and chain start indices biskit keeps next to it. *)

From Stdlib Require Import ZArith Ascii String.
From stdpp Require Import base option list strings gmap pretty stringmap.

Local Open Scope string_scope.
Local Open Scope list_scope.
Local Open Scope nat_scope.

(** ** Python exceptions and results *)

Inductive exn : Set :=
  | TypeError | IndexError | KeyError | ValueError
  | AttributeError | AssertionError | PDBError | OSError.

Global Instance exn_eq_dec : EqDecision exn.
Proof. solve_decision. Defined.

Inductive outcome (A : Type) : Type :=
  | Ok (a : A)
  | Raise (e : exn).
Arguments Ok {A} a.
Arguments Raise {A} e.

Global Instance outcome_ret : MRet outcome := fun A a => Ok a.
Global Instance outcome_bind : MBind outcome := fun A B f r =>
  match r with
  | Ok a => f a
  | Raise e => Raise e
  end.
Global Instance outcome_fmap : FMap outcome := fun A B f r =>
  match r with
  | Ok a => Ok (f a)
  | Raise e => Raise e
  end.

(** [o] or else raise [e]. *)
Definition or_raise {A} (e : exn) (o : option A) : outcome A :=
  match o with
  | Some a => Ok a
  | None => Raise e
  end.

(** A list comprehension whose body may raise: the first exception wins. *)
Fixpoint mapR {A B} (f : A → outcome B) (l : list A) : outcome (list B) :=
  match l with
  | [] => Ok []
  | x :: l' => y ← f x; ys ← mapR f l'; Ok (y :: ys)
  end.

Definition is_Ok {A} (r : outcome A) : Prop := ∃ a, r = Ok a.

(** ** Python strings *)

Module Py.

Definition chars (s : string) : list ascii := list_ascii_of_string s.
Definition str (l : list ascii) : string := string_of_list_ascii l.

(** [len(s)] *)
Definition len (s : string) : nat := String.length s.

(** [s[a:b]] for non-negative [a] and [b]. *)
Definition slice (s : string) (a b : nat) : string :=
  str (take (b - a) (drop a (chars s))).

(** [s[a:]] for non-negative [a]. *)
Definition slice_from (s : string) (a : nat) : string :=
  str (drop a (chars s)).

(** [s[-n:]] for positive [n]. *)
Definition last_n (s : string) (n : nat) : string :=
  str (drop (len s - n) (chars s)).

(** [s * n] *)
Fixpoint repeat (s : string) (n : nat) : string :=
  match n with
  | 0 => ""
  | S n' => s +:+ repeat s n'
  end.

(** Does [p] start [l]? *)
Fixpoint starts (p l : list ascii) : bool :=
  match p, l with
  | [], _ => true
  | _ :: _, [] => false
  | a :: p', b :: l' => bool_decide (a = b) && starts p' l'
  end.

(** [p in s]: substring test. *)
Fixpoint contains_chars (p l : list ascii) : bool :=
  starts p l ||
  match l with
  | [] => false
  | _ :: l' => contains_chars p l'
  end.
Definition contains (p s : string) : bool := contains_chars (chars p) (chars s).

(** [fmt % args] for a format whose only directives are [%s] and [%%];
    [None] stands for the [TypeError] Python raises when the number of
    arguments does not fit (or for a directive outside this fragment). *)
Fixpoint format_chars (fmt : list ascii) (args : list string) : option string :=
  match fmt with
  | [] => match args with [] => Some "" | _ :: _ => None end
  | c :: fmt' =>
      if bool_decide (c = "%"%char) then
        match fmt' with
        | [] => None
        | d :: fmt'' =>
            if bool_decide (d = "s"%char) then
              match args with
              | [] => None
              | a :: args' => (λ r, a +:+ r) <$> format_chars fmt'' args'
              end
            else if bool_decide (d = "%"%char) then
              String "%"%char <$> format_chars fmt'' args
            else None
        end
      else String c <$> format_chars fmt' args
  end.
Definition format (fmt : string) (args : list string) : outcome string :=
  or_raise TypeError (format_chars (chars fmt) args).

End Py.

(** ** The [re] module, on literal patterns

    The patterns the wrappers search for are residue sequences, words of
    one-letter codes.  Such a word holds no operator of regular
    expressions, and searching for it is searching for the word itself:
    this is what [search] and [finditer] below do.  They are the functions
    of [re] on the patterns [literal] accepts, and say nothing about a
    pattern with an operator in it. *)

Module re.

(** The characters that are operators in a pattern. *)
Definition special : list ascii := Py.chars ".^$*+?{}[]\|()".

(** A pattern without operators: it matches the word it is, nothing else. *)
Definition literal (p : string) : bool :=
  forallb (λ c, bool_decide (c ∉ special)) (Py.chars p).

(** [re.search(p, s)] for a literal [p], as the truth value the callers
    test. *)
Definition search (p s : string) : bool := Py.contains p s.

(** Start positions of the matches [re.finditer(p, s)] yields for a literal
    [p]: found left to right, each search resuming where the previous match ended, so the
    matches never overlap. *)
Fixpoint finditer_go (p l : list ascii) (pos skip : nat) {struct l} : list nat :=
  match skip with
  | S k =>
      match l with
      | [] => []
      | _ :: l' => finditer_go p l' (S pos) k
      end
  | 0 =>
      if Py.starts p l then
        pos :: match l with
               | [] => []
               | _ :: l' => finditer_go p l' (S pos) (length p - 1)
               end
      else
        match l with
        | [] => []
        | _ :: l' => finditer_go p l' (S pos) 0
        end
  end.
Definition finditer (p s : string) : list nat :=
  finditer_go (Py.chars p) (Py.chars s) 0 0.

End re.

(** ** biskit's PDBModel *)

Module B.

(** One row of the atom profiles.  [residue_code] is the one-letter code
    [molUtils.singleAA] gives for the atom's residue name;
    [residue_number] is the number of its residue, as the PDB file has it;
    [xyz] is the coordinate row, in the thousandths of an angstrom a PDB
    file holds.  Serial numbers are labels no method below reads; they are
    left out. *)
Record Atom : Set := mkAtom {
  residue_code : ascii;
  residue_number : Z;
  chain_id : string;
  xyz : Z * Z * Z
}.

Global Instance Atom_eq_dec : EqDecision Atom.
Proof. solve_decision. Defined.

(** A model: the atom array, the index of the first atom of every residue
    and of every chain, and the file the model comes from, when it has
    one. *)
Record PDBModel : Set := mkModel {
  atoms : list Atom;
  _resIndex : list nat;
  _chainIndex : list nat;
  source : option string
}.

Global Instance PDBModel_eq_dec : EqDecision PDBModel.
Proof. solve_decision. Defined.

(** [B.PDBModel()] *)
Definition empty : PDBModel := mkModel [] [] [] None.

Definition lenAtoms (m : PDBModel) : nat := length (atoms m).
Definition resIndex (m : PDBModel) : list nat := _resIndex m.
Definition chainIndex (m : PDBModel) : list nat := _chainIndex m.
Definition lenResidues (m : PDBModel) : nat := length (resIndex m).
Definition lenChains (m : PDBModel) : nat := length (chainIndex m).

(** [bool(m)]: a PDBModel has [__len__], the number of atoms. *)
Definition truthy (m : PDBModel) : bool := bool_decide (lenAtoms m ≠ 0).

(** [index2map(index, len_i)]: for every atom the number of the segment
    (residue or chain) it lies in. *)
Fixpoint index2map_go (k : nat) (index : list nat) (len_i : nat) : list nat :=
  match index with
  | [] => []
  | a :: rest =>
      replicate (default len_i (head rest) - a) k ++ index2map_go (S k) rest len_i
  end.
Definition index2map (index : list nat) (len_i : nat) : list nat :=
  index2map_go 0 index len_i.

(** [map2index(imap)]: the positions where the segment number changes. *)
Fixpoint map2index_go (pos : nat) (imap : list nat) : list nat :=
  match imap with
  | a :: (b :: _) as rest =>
      if decide (a = b) then map2index_go (S pos) rest
      else S pos :: map2index_go (S pos) rest
  | _ => []
  end.
Definition map2index (imap : list nat) : list nat :=
  match imap with
  | [] => []
  | _ :: _ => 0 :: map2index_go 0 imap
  end.

Definition resMap (m : PDBModel) : list nat := index2map (resIndex m) (lenAtoms m).
Definition chainMap (m : PDBModel) : list nat := index2map (chainIndex m) (lenAtoms m).

(** [numpy.take(l, i)] *)
Definition np_take {A} (l : list A) (i : list nat) : outcome (list A) :=
  mapR (λ k, or_raise IndexError (l !! k)) i.

(** [m.take(i)]: the atoms at positions [i]; residue and chain borders are
    rescued from the maps of [m]. *)
Definition take (m : PDBModel) (i : list nat) : outcome PDBModel :=
  ats ← np_take (atoms m) i;
  new_resmap ← np_take (resMap m) i;
  new_chainmap ← np_take (chainMap m) i;
  Ok (mkModel ats (map2index new_resmap) (map2index new_chainmap) (source m)).

(** [extendIndex(i, index, len_i)]: the atom positions of the residues (or
    chains) [i], in the order of [i].  The check of the positions takes
    [max(i)], which raises [ValueError] when [i] is empty. *)
Definition segment (index : list nat) (len_i k : nat) : outcome (list nat) :=
  a ← or_raise PDBError (index !! k);
  Ok (seq a (default len_i (index !! S k) - a)).
Definition segments (i index : list nat) (len_i : nat) : outcome (list nat) :=
  parts ← mapR (segment index len_i) i; Ok (List.concat parts).
Definition extendIndex (i index : list nat) (len_i : nat) : outcome (list nat) :=
  match i with
  | [] => Raise ValueError
  | _ :: _ => segments i index len_i
  end.

Definition res2atomIndices (m : PDBModel) (i : list nat) : outcome (list nat) :=
  extendIndex i (resIndex m) (lenAtoms m).
Definition chain2atomIndices (m : PDBModel) (i : list nat) : outcome (list nat) :=
  extendIndex i (chainIndex m) (lenAtoms m).

Definition takeResidues (m : PDBModel) (i : list nat) : outcome PDBModel :=
  res2atomIndices m i ≫= take m.
Definition takeChains (m : PDBModel) (chains : list nat) : outcome PDBModel :=
  chain2atomIndices m chains ≫= take m.

(** [m.atom2chainIndices(indices)]: the chains of the given atoms, each run
    of one chain reported once. *)
Definition atom2chainIndices (m : PDBModel) (indices : list nat) : outcome (list nat) :=
  new_map ← np_take (chainMap m) indices;
  np_take new_map (map2index new_map).

(** [m.concat(other)]: [other] appended as new residues and chains. *)
Definition concat (m other : PDBModel) : PDBModel :=
  mkModel (atoms m ++ atoms other)
          (resIndex m ++ map (λ k, k + lenAtoms m) (resIndex other))
          (chainIndex m ++ map (λ k, k + lenAtoms m) (chainIndex other))
          None.

(** [m.sequence()]: the code of the first atom of every residue. *)
Definition sequence (m : PDBModel) : string :=
  Py.str (omap (λ k, residue_code <$> atoms m !! k) (resIndex m)).

(** [m.maskFrom('chain_id', cid)] followed by [N.nonzero(...)[0]]. *)
Definition maskFrom_chain_id (m : PDBModel) (cid : string) : list bool :=
  map (λ a, bool_decide (chain_id a = cid)) (atoms m).
Fixpoint nonzero_go (pos : nat) (mask : list bool) : list nat :=
  match mask with
  | [] => []
  | b :: mask' => (if b then [pos] else []) ++ nonzero_go (S pos) mask'
  end.
Definition nonzero (mask : list bool) : list nat := nonzero_go 0 mask.

(** [m.remove(what)] for a list of atom positions; in place: the value is
    the new state of [m]. *)
Definition remove (m : PDBModel) (what : list nat) : outcome PDBModel :=
  if bool_decide (Forall (λ k, k < lenAtoms m) what) then
    take m (filter (λ k, k ∉ what) (seq 0 (lenAtoms m)))
  else Raise IndexError.

(** [m.mergeChains(c1)]: the border between chain [c1] and the next one is
    dropped and the atoms of the next chain take the chain id of [c1];
    atoms and coordinates stay.  In place. *)
Definition set_chain_id (cid : string) (a : Atom) : Atom :=
  mkAtom (residue_code a) (residue_number a) cid (xyz a).
Definition mergeChains (m : PDBModel) (c1 : nat) : outcome PDBModel :=
  i_start ← or_raise AssertionError (chainIndex m !! c1);
  i_scar ← or_raise AssertionError (chainIndex m !! S c1);
  first ← or_raise IndexError (atoms m !! i_start);
  let i_next := default (lenAtoms m) (chainIndex m !! S (S c1)) in
  Ok (mkModel
        (imap (λ k a, if bool_decide (i_scar ≤ k < i_next)
                      then set_chain_id (chain_id first) a else a) (atoms m))
        (resIndex m) (delete (S c1) (chainIndex m)) (source m)).

(** [m.renumberResidues()]: the residues are numbered 1, 2, ... in their
    order, every atom taking the number of its residue.  In place. *)
Definition set_residue_number (n : Z) (a : Atom) : Atom :=
  mkAtom (residue_code a) n (chain_id a) (xyz a).
Definition renumberResidues (m : PDBModel) : PDBModel :=
  mkModel (imap (λ k a, match resMap m !! k with
                        | Some r => set_residue_number (Z.of_nat r + 1) a
                        | None => a
                        end) (atoms m))
          (resIndex m) (chainIndex m) (source m).

(** [m.addChainId()]: the chains are named A, B, ... in order; it raises
    when the letters run out. *)
Definition letters : list string :=
  map (λ c, String c "") (Py.chars "ABCDEFGHIJKLMNOPQRSTUVWXYZ").
Definition addChainId (m : PDBModel) : outcome PDBModel :=
  ats ← mapR (λ '(a, c), cid ← or_raise PDBError (letters !! c);
                          Ok (set_chain_id cid a))
             (zip (atoms m) (chainMap m));
  Ok (mkModel ats (resIndex m) (chainIndex m) (source m)).

(** [m['serial_number'] = N0.arange(1, len(m)+1)] rewrites the serial
    numbers, which are not part of this model of the atoms. *)
Definition set_serial_number (m : PDBModel) : PDBModel := m.

(** [N.all(a == b)] on two blocks of coordinate rows: row by row when the
    blocks have as many rows, one row against all when a block has a
    single row (broadcasting), and false when the shapes do not fit. *)
Definition np_all_eq (a b : list (Z * Z * Z)) : bool :=
  if decide (length a = length b) then bool_decide (a = b)
  else match a, b with
       | [x], _ => forallb (λ y, bool_decide (x = y)) b
       | _, [y] => forallb (λ x, bool_decide (x = y)) a
       | _, _ => false
       end.

(** [m.xyz[low:high+1]] *)
Definition xyz_slice (m : PDBModel) (low high : nat) : list (Z * Z * Z) :=
  map xyz (list.take (S high - low) (drop low (atoms m))).

(** Well-formed index: strictly increasing positions below [n], the first
    one 0 when there is an atom at all. *)
Fixpoint increasing_from (lo : nat) (index : list nat) (n : nat) : bool :=
  match index with
  | [] => true
  | a :: rest => bool_decide (lo ≤ a < n) && increasing_from (S a) rest n
  end.
Definition wf_index (index : list nat) (n : nat) : bool :=
  match index with
  | [] => bool_decide (n = 0)
  | a :: rest => bool_decide (a = 0) && increasing_from 0 index n
  end.

(** The invariant of a model: the residue index and the chain index are
    well formed. *)
Definition wf (m : PDBModel) : bool :=
  wf_index (resIndex m) (lenAtoms m) && wf_index (chainIndex m) (lenAtoms m).

End B.

(** ** Methods that work on their argument in place

    [inplace A] is a computation over one mutable PDBModel (the object the
    caller passed): it yields the state of that object afterwards, and a
    value or the exception that stopped it. *)

Definition inplace (A : Type) : Type := B.PDBModel → B.PDBModel * outcome A.

Global Instance inplace_ret : MRet inplace := fun A a m => (m, Ok a).
Global Instance inplace_bind : MBind inplace := fun A B f c m =>
  match c m with
  | (m', Ok a) => f a m'
  | (m', Raise e) => (m', Raise e)
  end.

(** A method that reads the object. *)
Definition reading {A} (f : B.PDBModel → outcome A) : inplace A :=
  fun m => (m, f m).
(** A method that changes the object; when it raises the object is as before. *)
Definition changing (f : B.PDBModel → outcome B.PDBModel) : inplace unit :=
  fun m => match f m with
           | Ok m' => (m', Ok ())
           | Raise e => (m, Raise e)
           end.
(** A [for] loop over [l]. *)
Fixpoint for_each {A} (l : list A) (body : A → inplace unit) : inplace unit :=
  match l with
  | [] => mret ()
  | x :: l' => body x ≫= λ _, for_each l' body
  end.

(** [sorted(l, key=itemgetter(0), reverse=True)]: stable, largest key first. *)
Fixpoint insert_desc (x : nat * nat) (l : list (nat * nat)) : list (nat * nat) :=
  match l with
  | [] => [x]
  | y :: l' => if decide (y.1 ≤ x.1) then x :: l else y :: insert_desc x l'
  end.
Definition sorted_desc (l : list (nat * nat)) : list (nat * nat) :=
  foldr insert_desc [] l.

(** [l.remove(x)]: the first occurrence goes; [ValueError] when there is none. *)
Fixpoint list_remove (x : nat) (l : list nat) : outcome (list nat) :=
  match l with
  | [] => Raise ValueError
  | y :: l' => if decide (y = x) then Ok l' else cons y <$> list_remove x l'
  end.

(** ** The file system, [tempfile], [os] and [biskit.tools] *)

Inductive node : Set :=
  | Dir
  | TextFile (content : string)
  | PdbFile (m : B.PDBModel).

Global Instance node_eq_dec : EqDecision node.
Proof. solve_decision. Defined.

Abbreviation FS := (gmap string node).

(** Is [p] the path [root] or a path below it? *)
Definition under (root p : string) : bool :=
  bool_decide (p = root) || String.prefix (root +:+ "/") p.

(** [tempfile.mkdtemp('', prefix, dir)]: a directory that did not exist is
    created in [dir], its name starting with [prefix]. *)
Definition mkdtemp (prefix dir : string) (fs : FS) : string * FS :=
  let path := fresh_string (dir +:+ "/" +:+ prefix) fs in
  (path, <[path := Dir]> fs).

(** [t.tryRemove(f, tree=True)]: the whole tree goes, errors are ignored. *)
Definition tryRemove_tree (f : string) (fs : FS) : FS :=
  filter (λ kv, ¬ under f kv.1) fs.

(** [t.tryRemove(f)]: a file goes; a directory stays. *)
Definition tryRemove (f : string) (fs : FS) : FS :=
  match fs !! f with
  | Some Dir | None => fs
  | Some _ => delete f fs
  end.

(** [os.listdir(d)]: the names of the entries of [d], in no particular
    order; [OSError] when [d] is not a directory that exists. *)
Definition entry_name (d p : string) : option string :=
  let dl := Py.chars (d +:+ "/") in
  let pl := Py.chars p in
  if Py.starts dl pl then
    let name := drop (length dl) pl in
    if bool_decide (name ≠ [] ∧ "/"%char ∉ name) then Some (Py.str name) else None
  else None.
Definition listdir (d : string) (fs : FS) : outcome (list string) :=
  match fs !! d with
  | Some Dir => Ok (omap (λ kv, entry_name d kv.1) (map_to_list fs))
  | _ => Raise OSError
  end.

(** The directory a path lies in: the path up to its last [/]; the empty
    string when the path has no [/], or only the one it starts with. *)
Fixpoint parent_chars (l : list ascii) : option (list ascii) :=
  match l with
  | [] => None
  | c :: l' =>
      match parent_chars l' with
      | Some d => Some (c :: d)
      | None => if bool_decide (c = "/"%char) then Some [] else None
      end
  end.
Definition parent_dir (p : string) : string :=
  Py.str (default [] (parent_chars (Py.chars p))).

(** Is [d] a directory?  The root and the working directory, which the
    empty string stands for, are there without being recorded. *)
Definition is_dir (d : string) (fs : FS) : bool :=
  bool_decide (d = "") || bool_decide (fs !! d = Some Dir).

(** A file is opened for writing and written: [OSError] when the directory
    it lies in does not exist, or when the path is a directory. *)
Definition write_file (p : string) (content : node) (fs : FS) : outcome FS :=
  if is_dir (parent_dir p) fs && negb (bool_decide (fs !! p = Some Dir))
  then Ok (<[p := content]> fs)
  else Raise OSError.

(** [os.path.join(a, b)] *)
Definition path_join (a b : string) : string :=
  if String.prefix "/" b then b
  else if bool_decide (a = "") || bool_decide (Py.last_n a 1 = "/") then a +:+ b
  else a +:+ "/" +:+ b.

(** [B.PDBModel(path)], read: the model the file holds, with the file as
    its source. *)
Definition read_pdb (path : string) (fs : FS) : outcome B.PDBModel :=
  match fs !! path with
  | Some (PdbFile m) =>
      Ok (B.mkModel (B.atoms m) (B.resIndex m) (B.chainIndex m) (Some path))
  | _ => Raise PDBError
  end.

(** [m.validSource()]: the source file, when it is on disk. *)
Definition validSource (m : B.PDBModel) (fs : FS) : option string :=
  match B.source m with
  | Some p => if bool_decide (is_Some (fs !! p)) then Some p else None
  | None => None
  end.

(** ** Python values of the attributes [error] and [output] *)

Inductive pyval : Set :=
  | PyNone
  | PyBool (b : bool)
  | PyStr (s : string).

(** [bool(v)] *)
Definition py_bool (v : pyval) : bool :=
  match v with
  | PyNone => false
  | PyBool b => b
  | PyStr s => bool_decide (s ≠ "")
  end.

(** [str(v)] *)
Definition py_str (v : pyval) : string :=
  match v with
  | PyNone => "None"
  | PyBool true => "True"
  | PyBool false => "False"
  | PyStr s => s
  end.

(** [a or b] *)
Definition py_or (a b : pyval) : pyval := if py_bool a then a else b.

(** ** The base class: what [biskit.exe.Executor] keeps and cleans up *)

Module Executor.

Record t : Type := mk {
  name : string;
  tempdir : string;
  cwd : option string;
  debug : bool;
  args : string;
  f_in : option string;
  f_out : option string;
  f_err : option string;
  keep_out : bool;
  keep_inp : bool;
  error : pyval;
  output : pyval
}.

(** [Executor.__init__(self, name, tempdir=..., cwd=..., args=..., debug=...)]
    with the defaults of the other parameters. *)
Definition __init__ (name tempdir : string) (cwd : option string)
    (args : string) (debug : bool) : t :=
  mk name tempdir cwd debug args None None None false false PyNone PyNone.

Definition set_args (e : t) (a : string) : t :=
  mk (name e) (tempdir e) (cwd e) (debug e) a (f_in e) (f_out e) (f_err e)
     (keep_out e) (keep_inp e) (error e) (output e).

Definition remove_opt (f : option string) (fs : FS) : FS :=
  match f with
  | Some p => tryRemove p fs
  | None => fs
  end.

(** [Executor.cleanup(self)]: the input, output and error files go, unless
    they are to be kept or [debug] is set. *)
Definition cleanup (e : t) (fs : FS) : FS :=
  let fs := if negb (keep_out e) && negb (debug e) then remove_opt (f_out e) fs else fs in
  let fs := if negb (keep_inp e) && negb (debug e) then remove_opt (f_in e) fs else fs in
  if negb (debug e) then remove_opt (f_err e) fs else fs.

End Executor.

(** ** Ranch *)

Module Ranch.

Import B.

(** [Ranch.embed(dom, to_embed)] *)
Definition embed (dom to_embed : PDBModel) : outcome PDBModel :=
  first ← res2atomIndices dom [0; 1] ≫= take dom;
  last ← res2atomIndices dom (seq 2 (lenResidues dom - 2)) ≫= take dom;
  Ok (concat (concat first to_embed) last).

(** The loop over the matches in [extract_fixed]: the first match whose
    first residue lies where the first residue of [m] lies takes its chain
    out of [chains_to_take] and ends the loop. *)
Fixpoint try_matches (m full : PDBModel) (lowm highm : nat)
    (matches chains_to_take : list nat) : outcome (list nat) :=
  match matches with
  | [] => Ok chains_to_take
  | index :: matches' =>
      first_res_full ← res2atomIndices full [index];
      lowfull ← or_raise IndexError (head first_res_full);
      highfull ← or_raise IndexError (list.last first_res_full);
      if np_all_eq (xyz_slice m lowm highm) (xyz_slice full lowfull highfull)
      then
        chain_ind ← atom2chainIndices full first_res_full;
        c ← or_raise IndexError (head chain_ind);
        list_remove c chains_to_take
      else try_matches m full lowm highm matches' chains_to_take
  end.

(** The body of the loop over the chains of [dom] in [extract_fixed]. *)
Definition locate (full m : PDBModel) (chains_to_take : list nat) : outcome (list nat) :=
  let start := Py.slice (sequence m) 0 10 in
  if re.search start (sequence full) then
    let matches := re.finditer start (sequence full) in
    first_res_m ← res2atomIndices m [0];
    lowm ← or_raise IndexError (head first_res_m);
    highm ← or_raise IndexError (list.last first_res_m);
    try_matches m full lowm highm matches chains_to_take
  else Ok chains_to_take.

Fixpoint locate_all (full : PDBModel) (doms : list PDBModel)
    (chains_to_take : list nat) : outcome (list nat) :=
  match doms with
  | [] => Ok chains_to_take
  | m :: doms' => locate full m chains_to_take ≫= locate_all full doms'
  end.

(** [Ranch.extract_fixed(dom, full)] *)
Definition extract_fixed (dom full : PDBModel) : outcome PDBModel :=
  let chains_to_take := seq 0 (lenChains full) in
  doms ← mapR (λ i, takeChains dom [i]) (seq 0 (lenChains dom));
  chains_to_take ← locate_all full doms chains_to_take;
  takeChains full chains_to_take.

(** The first loop of [extract_embedded]: every entry of the dictionary is
    checked against the sequence of [full] and its residues are copied
    to the end of [r]. *)
Fixpoint collect (full : PDBModel) (items : list (PDBModel * nat))
    (r : PDBModel) (emb_ind : list (nat * nat))
    : outcome (PDBModel * list (nat * nat)) :=
  match items with
  | [] => Ok (r, emb_ind)
  | (dom, i_start) :: items' =>
      let i_end := i_start + Py.len (sequence dom) in
      if decide (Py.slice (sequence full) i_start i_end = sequence dom) then
        part ← takeResidues full (seq i_start (i_end - i_start));
        collect full items' (concat r part) (emb_ind ++ [(i_start, i_end)])
      else Raise TypeError
  end.

(** The body of the second loop: the atoms of one embedded domain go. *)
Definition cut (span : nat * nat) : inplace unit :=
  atomi_start ← reading (λ full, or_raise IndexError (resIndex full !! span.1));
  atomi_end ← reading (λ full, or_raise IndexError (resIndex full !! span.2));
  changing (λ full, remove full (seq atomi_start (atomi_end - atomi_start))).

(** [Ranch.extract_embedded(full, embedded)]: the state in which it leaves
    the object [full], and the model it returns.  The dictionary is the
    list of its items in insertion order. *)
Definition extract_embedded (embedded : list (PDBModel * nat)) : inplace PDBModel :=
  '(r, emb_ind) ← reading (λ full, collect full embedded empty []);
  let emb_ind := sorted_desc emb_ind in
  for_each emb_ind cut ;;
  n ← reading (λ full, Ok (lenChains full));
  for_each (seq 0 (n - 1)) (λ _, changing (λ full, mergeChains full 0)) ;;
  changing (λ full, Ok (renumberResidues full)) ;;
  reading (λ full, set_serial_number <$> addChainId (concat full r)).

(** The loop over the matches in [extract_symmetric]. *)
Definition symunit_at (full : PDBModel) (symseq : string)
    (embedded : list (PDBModel * nat)) (istart : nat) : outcome PDBModel :=
  let iend := istart + Py.len symseq in
  symunit ← takeResidues full (seq istart (iend - istart));
  (extract_embedded embedded symunit).2.

(** [Ranch.extract_symmetric(full, symseq, embedded)] *)
Definition extract_symmetric (full : PDBModel) (symseq : string)
    (embedded : list (PDBModel * nat)) : outcome PDBModel :=
  if re.search symseq (sequence full) then
    let matches := re.finditer symseq (sequence full) in
    symunits ← mapR (symunit_at full symseq embedded) matches;
    r0 ← or_raise IndexError (head symunits);
    let r := foldl concat r0 (tail symunits) in
    set_serial_number <$> addChainId r
  else Raise TypeError.

(** *** The object *)

(** A positional argument of the constructor: a linker sequence, a model
    (an object, known by its identity [ref]), or anything else. *)
Inductive element : Set :=
  | EStr (s : string)
  | EModel (ref : nat) (m : PDBModel)
  | EOther.

(** A value of the [chains] dictionary: one chain id, or a list (or tuple)
    of chain ids. *)
Inductive chain_entry : Set :=
  | ChainId (cid : string)
  | ChainList (cids : list string).

(** The attributes of a Ranch object; [exe] holds the inherited ones.
    [chains] is keyed by the identity of the model; [embedded], whose keys
    are models made during setup, is the list of its items in insertion
    order. *)
Record t : Type := mk {
  dir_models : string;
  f_seq : string;
  domains : list element;
  chains : gmap nat chain_entry;
  sequence : string;
  symmetry : string;
  symtemplate : option (nat * PDBModel);
  doms_in : list PDBModel;
  pdbs_in : list string;
  embedded : list (PDBModel * nat);
  overall_sym : string;
  fixed : list string;
  multich : list string;
  symunit : option PDBModel;
  symseq : option string;
  result : option (list PDBModel);
  exe : Executor.t
}.

(** [self.sequence += s; self.doms_in.append(m)] *)
Definition add_sequence (self : t) (s : string) : t :=
  mk (dir_models self) (f_seq self) (domains self) (chains self)
     (sequence self +:+ s) (symmetry self) (symtemplate self) (doms_in self)
     (pdbs_in self) (embedded self) (overall_sym self) (fixed self)
     (multich self) (symunit self) (symseq self) (result self) (exe self).
Definition add_dom (self : t) (m : PDBModel) : t :=
  mk (dir_models self) (f_seq self) (domains self) (chains self)
     (sequence self) (symmetry self) (symtemplate self) (doms_in self ++ [m])
     (pdbs_in self) (embedded self) (overall_sym self) (fixed self)
     (multich self) (symunit self) (symseq self) (result self) (exe self).
(** [self.embedded[dom] = pos], for a model [dom] that is not a key yet. *)
Definition add_embedded (self : t) (dom : PDBModel) (pos : nat) : t :=
  mk (dir_models self) (f_seq self) (domains self) (chains self)
     (sequence self) (symmetry self) (symtemplate self) (doms_in self)
     (pdbs_in self) (embedded self ++ [(dom, pos)]) (overall_sym self)
     (fixed self) (multich self) (symunit self) (symseq self) (result self)
     (exe self).
Definition set_symseq (self : t) (s : string) : t :=
  mk (dir_models self) (f_seq self) (domains self) (chains self)
     (sequence self) (symmetry self) (symtemplate self) (doms_in self)
     (pdbs_in self) (embedded self) (overall_sym self) (fixed self)
     (multich self) (symunit self) (Some s) (result self) (exe self).
Definition add_pdb (self : t) (p : string) : t :=
  mk (dir_models self) (f_seq self) (domains self) (chains self)
     (sequence self) (symmetry self) (symtemplate self) (doms_in self)
     (pdbs_in self ++ [p]) (embedded self) (overall_sym self) (fixed self)
     (multich self) (symunit self) (symseq self) (result self) (exe self).
Definition set_args (self : t) (a : string) : t :=
  mk (dir_models self) (f_seq self) (domains self) (chains self)
     (sequence self) (symmetry self) (symtemplate self) (doms_in self)
     (pdbs_in self) (embedded self) (overall_sym self) (fixed self)
     (multich self) (symunit self) (symseq self) (result self)
     (Executor.set_args (exe self) a).
Definition set_result (self : t) (r : list PDBModel) : t :=
  mk (dir_models self) (f_seq self) (domains self) (chains self)
     (sequence self) (symmetry self) (symtemplate self) (doms_in self)
     (pdbs_in self) (embedded self) (overall_sym self) (fixed self)
     (multich self) (symunit self) (symseq self) (Some r) (exe self).

(** [bool(self.symtemplate)] *)
Definition symtemplate_truthy (st : option (nat * PDBModel)) : bool :=
  match st with
  | Some (_, m) => truthy m
  | None => false
  end.

(** *** [_setup] *)

(** Steps 8 and 9 of the diagram: the chain named [cid] of [element]
    becomes the host, the other chains are embedded into it. *)
Definition embed_chain (self : t) (element : PDBModel) (cid : string) : outcome t :=
  let mask_chain := maskFrom_chain_id element cid in
  let i_mask_chain := nonzero mask_chain in
  chain_inds ← atom2chainIndices element i_mask_chain;
  chain_ind ← or_raise IndexError (head chain_inds);
  m ← takeChains element [chain_ind];
  to_embed ← extract_fixed m element;
  m_emb ← embed m to_embed;
  let self := add_embedded self to_embed (Py.len (sequence self) + 2) in
  let self := add_sequence self (B.sequence m_emb) in
  Ok (add_dom self m_emb).

(** The loop of [_setup] from position [i] of the models on. *)
Fixpoint setup_loop (self : t) (i : nat) (elements : list element) : outcome t :=
  match elements with
  | [] => Ok self
  | EStr s :: rest => setup_loop (add_sequence self s) i rest
  | EModel ref m :: rest =>
      flag ← or_raise IndexError (multich self !! i);
      if decide (flag = "yes") then
        su ← or_raise AttributeError (symunit self);
        setup_loop (add_dom (add_sequence self (B.sequence su)) m) (S i) rest
      else
        simple ← (if decide (lenChains m = 1) then Ok true
                  else f ← or_raise IndexError (fixed self !! i);
                       Ok (bool_decide (f = "yes")));
        if simple : bool then
          setup_loop (add_dom (add_sequence self (B.sequence m)) m) (S i) rest
        else
          entry ← or_raise KeyError (chains self !! ref);
          match entry with
          | ChainList cids =>
              cid ← or_raise IndexError (head cids);
              embed_chain self m cid
          | ChainId cid =>
              self ← embed_chain self m cid;
              setup_loop self (S i) rest
          end
  | EOther :: _ => Raise TypeError
  end.

Definition _setup (self : t) : outcome t :=
  self ← setup_loop self 0 (domains self);
  Ok (if symtemplate_truthy (symtemplate self)
      then set_symseq self (sequence self) else self).

(** *** [__init__] *)

Definition overall_symmetry : gmap string string :=
  {[ "mixed" := "m"; "symmetry" := "s"; "asymmetry" := "a" ]}.

Definition is_model (e : element) : bool :=
  match e with EModel _ _ => true | _ => false end.
Definition is_symtemplate (st : option (nat * PDBModel)) (e : element) : bool :=
  match e, st with
  | EModel ref _, Some (ref', _) => bool_decide (ref = ref')
  | _, _ => false
  end.

(** A list argument that is given and not empty. *)
Definition given (l : option (list string)) : option (list string) :=
  match l with
  | Some (_ :: _) => l
  | _ => None
  end.

(** The constructor, with the positional arguments as the list [domains]
    and the keyword arguments after them; [tmp] is [t.tempDir()]. *)
Definition __init__ (tmp : string) (domains : list element)
    (chains : gmap nat chain_entry) (symmetry : string)
    (symtemplate : option (nat * PDBModel)) (symunit : option PDBModel)
    (overall_sym : string) (fixed multich : option (list string))
    (debug : bool) (fs : FS) : FS * outcome t :=
  let '(tempdir, fs) := mkdtemp "ranch_" tmp fs in
  let '(dir_models, fs) := mkdtemp "models_" tempdir fs in
  let f_seq := tempdir +:+ "/sequence.seq" in
  (fs,
   code ← or_raise KeyError (overall_symmetry !! overall_sym);
   let fixed :=
     match given fixed with
     | Some l => l
     | None => map (λ _, "no") (filter is_model domains)
     end in
   let multich :=
     match given multich with
     | Some l => l
     | None => map (λ e, if is_symtemplate symtemplate e then "yes" else "no")
                   (filter is_model domains)
     end in
   symunit ←
     (if symtemplate_truthy symtemplate then
        match symunit with
        | Some su => if truthy su then Ok (Some su)
                     else Some <$> takeChains (from_option snd empty symtemplate) [0]
        | None => Some <$> takeChains (from_option snd empty symtemplate) [0]
        end
      else Ok None);
   self ← _setup (mk dir_models f_seq domains chains "" symmetry symtemplate
                     [] [] [] code fixed multich symunit None None
                     (Executor.__init__ "ranch" tempdir (Some tempdir) "" debug));
   Ok self).

(** *** [prepare] *)

(** The name of the pdb file of the [i]-th input model. *)
Definition pdb_name (tempdir : string) (i : nat) (m : PDBModel) (fs : FS) : string :=
  tempdir +:+ "/" +:+ pretty i +:+ "_" +:+
  match validSource m fs with
  | None => ".pdb"
  | Some src => Py.last_n src 8
  end.

(** The loop that writes the pdb files, from position [i] on: the name is
    appended to [pdbs_in], then the file is written; the loop ends at the
    first file that cannot be written. *)
Fixpoint write_pdbs (self : t) (i : nat) (doms : list PDBModel) (fs : FS)
    : FS * outcome t :=
  match doms with
  | [] => (fs, Ok self)
  | m :: doms' =>
      let name := pdb_name (Executor.tempdir (exe self)) i m fs in
      let self := add_pdb self name in
      match write_file name (PdbFile m) fs with
      | Ok fs => write_pdbs self (S i) doms' fs
      | Raise e => (fs, Raise e)
      end
  end.

(** The argument string, once the files are written. *)
Definition make_args (self : t) : outcome t :=
  let args := f_seq self +:+ " -q=10 -i" in
  a ← Py.format " -s=%s -y=%s" [symmetry self; overall_sym self];
  let args := args +:+ a in
  a ← Py.format (Py.repeat " -x=%s" (length (pdbs_in self))) (pdbs_in self);
  let args := args +:+ a in
  a ← Py.format (Py.repeat " -f=%s" (length (fixed self))) (fixed self);
  let args := args +:+ a in
  a ← Py.format (Py.repeat " -o=%s" (length (multich self))) (multich self);
  let args := args +:+ a in
  a ← Py.format " -w=%s" [dir_models self];
  let args := args +:+ a in
  Ok (set_args self args).

(** [prepare]; [Executor.prepare] does nothing. *)
Definition prepare (self : t) (fs : FS) : FS * outcome t :=
  match write_pdbs self 0 (doms_in self) fs with
  | (fs, Raise e) => (fs, Raise e)
  | (fs, Ok self) =>
      match write_file (f_seq self) (TextFile (sequence self)) fs with
      | Raise e => (fs, Raise e)
      | Ok fs => (fs, make_args self)
      end
  end.

(** *** [isFailed], [finish], [cleanup] *)

Definition isFailed (self : t) : pyval :=
  py_or (Executor.error (exe self))
        (PyBool (Py.contains "Problems" (py_str (Executor.output (exe self))))).

Definition finish (self : t) (fs : FS) : outcome t :=
  files ← listdir (dir_models self) fs;
  let m_paths := map (λ f, dir_models self +:+ "/" +:+ f) files in
  if symtemplate_truthy (symtemplate self) then
    r ← mapR (λ m, full ← read_pdb m fs;
                    symseq ← or_raise AttributeError (symseq self);
                    extract_symmetric full symseq (embedded self)) m_paths;
    Ok (set_result self r)
  else
    r ← mapR (λ m, full ← read_pdb m fs;
                    (extract_embedded (embedded self) full).2) m_paths;
    Ok (set_result self r).

Definition cleanup (self : t) (fs : FS) : FS :=
  let fs := if negb (Executor.debug (exe self))
            then tryRemove_tree (Executor.tempdir (exe self)) fs else fs in
  Executor.cleanup (exe self) fs.

End Ranch.

(** ** Pulchra *)

Module Pulchra.

Record t : Type := mk {
  model : B.PDBModel;
  rb_path : string;
  configpath : list string;
  result : option B.PDBModel;
  exe : Executor.t
}.

(** [s[:-3]] *)
Definition drop_last3 (s : string) : string := Py.slice s 0 (Py.len s - 3).

(** [Pulchra(model, debug=...)]; [tmp] is [T.tempDir()] and [here] the
    directory of the module.  The model is written into the directory that
    has just been made. *)
Definition __init__ (tmp here : string) (model : B.PDBModel) (debug : bool)
    (fs : FS) : FS * t :=
  let '(tempdir, fs) := mkdtemp "pulchra_" tmp fs in
  let pdb_path := path_join tempdir "model.pdb" in
  let rb_path := drop_last3 pdb_path +:+ "rebuilt.pdb" in
  let fs := <[pdb_path := PdbFile model]> fs in
  let configpath := [path_join here "exeConfig/"] in
  (fs, mk model rb_path configpath None
          (Executor.__init__ "pulchra" tempdir None pdb_path debug)).

Definition finish (self : t) (fs : FS) : outcome t :=
  rebuilt ← read_pdb (rb_path self) fs;
  let rebuilt := B.renumberResidues rebuilt in
  Ok (mk (model self) (rb_path self) (configpath self) (Some rebuilt) (exe self)).

Definition cleanup (self : t) (fs : FS) : FS :=
  if negb (Executor.debug (exe self))
  then tryRemove_tree (Executor.tempdir (exe self)) fs else fs.

End Pulchra.

Import B.

(** The attributes the loop of [_setup] reads and never writes. *)
Definition config (self : Ranch.t) :=
  (Ranch.dir_models self, Ranch.f_seq self, Ranch.domains self,
   Ranch.chains self, Ranch.symmetry self, Ranch.symtemplate self,
   Ranch.pdbs_in self, Ranch.overall_sym self, Ranch.fixed self,
   Ranch.multich self, Ranch.symunit self, Ranch.result self, Ranch.exe self).

(** ** Indices seen as segment lengths *)

(** The start positions of consecutive segments of the given lengths, the
    first one at [p]. *)
Fixpoint starts (p : nat) (lens : list nat) : list nat :=
  match lens with
  | [] => []
  | l :: lens' => p :: starts (p + l) lens'
  end.

(** A map made of runs: each pair is a value and the length of its run. *)
Fixpoint vblocks (vl : list (nat * nat)) : list nat :=
  match vl with
  | [] => []
  | (v, l) :: vl' => replicate l v ++ vblocks vl'
  end.

(** Segments numbered from [k] on. *)
Fixpoint numbered (k : nat) (lens : list nat) : list (nat * nat) :=
  match lens with
  | [] => []
  | l :: lens' => (k, l) :: numbered (S k) lens'
  end.

(** The segment lengths an index over [n] atoms stands for. *)
Fixpoint lens_of (index : list nat) (n : nat) : list nat :=
  match index with
  | [] => []
  | a :: rest => (default n (head rest) - a) :: lens_of rest n
  end.

(** Neighbouring runs have different values. *)
Fixpoint adj_ne (vl : list (nat * nat)) : Prop :=
  match vl with
  | (v, _) :: ((v', _) :: _) as rest => v ≠ v' ∧ adj_ne rest
  | _ => True
  end.

(** The residue and chain lengths [rl] and [cl] describe the model [m]. *)
Definition shape (m : PDBModel) (rl cl : list nat) : Prop :=
  Forall (λ l, 0 < l) rl ∧ Forall (λ l, 0 < l) cl ∧
  resIndex m = starts 0 rl ∧ chainIndex m = starts 0 cl ∧
  sum_list rl = lenAtoms m ∧ sum_list cl = lenAtoms m.

(** The residue codes read at the positions [index] of an atom array. *)
Definition codes (ats : list Atom) (index : list nat) : list ascii :=
  omap (λ k, residue_code <$> ats !! k) index.

(** An entry of the [embedded] dictionary that does not fit [full]: the
    letters of [full] at the recorded position are not the sequence of the
    domain. *)
Definition misplaced (full : PDBModel) (item : PDBModel * nat) : Prop :=
  Py.slice (sequence full) item.2 (item.2 + Py.len (sequence item.1))
  ≠ sequence item.1.

(** The coordinates of the atoms of residue [k]. *)
Definition residue_xyz (m : PDBModel) (k : nat) : list (Z * Z * Z) :=
  match resIndex m !! k with
  | Some a =>
      let b := default (lenAtoms m) (resIndex m !! S k) in
      map xyz (list.take (b - a) (drop a (atoms m)))
  | None => []
  end.

(** The chain [m] is found in [full] at residue [index]: the first ten
    letters of its sequence stand there, and the first residue of [m] and
    the residue of [full] compare equal in the way [extract_fixed] compares
    them. *)
Definition found_at (full m : PDBModel) (index : nat) : Prop :=
  let start := Py.slice (sequence m) 0 10 in
  Py.slice (sequence full) index (index + Py.len start) = start ∧
  np_all_eq (residue_xyz m 0) (residue_xyz full index) = true.

(** The model with the given atoms, residue lengths and chain lengths. *)
Definition build (ats : list Atom) (rl cl : list nat) (src : option string) : PDBModel :=
  mkModel ats (starts 0 rl) (starts 0 cl) src.

(** One flag [opt] per value, in the order of the list. *)
Definition flags (opt : string) (values : list string) : string :=
  foldr (λ v acc, opt +:+ v +:+ acc) "" values.

(** The decimal digits. *)
Definition is_digit (c : ascii) : Prop :=
  c ∈ Py.chars "0123456789".

(** ** Small models and objects to run the definitions on *)

Definition ex_atom (c : ascii) (cid : string) (x : Z) : Atom :=
  mkAtom c 0 cid (x, 0, 0)%Z.

(** A host of one chain and four residues, sequence ACDE. *)
Definition ex_dom : PDBModel :=
  mkModel [ex_atom "A" "A" 1; ex_atom "A" "A" 2; ex_atom "C" "A" 3;
           ex_atom "D" "A" 4; ex_atom "D" "A" 5; ex_atom "E" "A" 6]
          [0; 2; 3; 5] [0] (Some "/data/dom.pdb").

(** A model of two chains, sequence GHK. *)
Definition ex_emb : PDBModel :=
  mkModel [ex_atom "G" "B" 11; ex_atom "G" "B" 12; ex_atom "H" "B" 13;
           ex_atom "K" "C" 14]
          [0; 2; 3] [0; 3] None.

(** A model of 26 chains of one atom each. *)
Definition ex_emb26 : PDBModel :=
  mkModel (map (λ k, ex_atom "G" "A" (Z.of_nat k)) (seq 0 26))
          (seq 0 26) (seq 0 26) None.

(** A model of two chains A and B, sequences ACD and GH. *)
Definition ex_pair : PDBModel :=
  mkModel [ex_atom "A" "A" 1; ex_atom "C" "A" 2; ex_atom "D" "A" 3;
           ex_atom "G" "B" 4; ex_atom "H" "B" 5]
          [0; 1; 2; 3; 4] [0; 3] None.

(** A Ranch object before [_setup]: a linker, the paired model with a list
    as its [chains] entry, and an argument that is neither a string nor a
    model. *)
Definition ex_self : Ranch.t :=
  Ranch.mk "/tmp/ranch_/models_" "/tmp/ranch_/sequence.seq"
           [Ranch.EStr "GG"; Ranch.EModel 0 ex_pair; Ranch.EOther]
           {[ 0 := Ranch.ChainList ["A"] ]} "" "p1" None [] [] [] "m"
           ["no"] ["no"] None None None
           (Executor.__init__ "ranch" "/tmp/ranch_" (Some "/tmp/ranch_") "" false).

(** The object the loop of [_setup] makes of [ex_self] and the paired model. *)
Definition ex_self_after : Ranch.t :=
  match Ranch.setup_loop ex_self 0 [Ranch.EModel 0 ex_pair] with
  | Ok self => self
  | Raise _ => ex_self
  end.

(** ** What the arguments of the constructor add during setup *)

(** A linker, or a model of one chain: [_setup] takes it as it is. *)
Definition plain (e : Ranch.element) : Prop :=
  match e with
  | Ranch.EStr _ => True
  | Ranch.EModel _ m => lenChains m = 1
  | Ranch.EOther => False
  end.

(** The linkers and the sequences of the models, joined in order. *)
Fixpoint linked_sequence (elements : list Ranch.element) : string :=
  match elements with
  | [] => ""
  | Ranch.EStr s :: rest => s +:+ linked_sequence rest
  | Ranch.EModel _ m :: rest => sequence m +:+ linked_sequence rest
  | Ranch.EOther :: rest => linked_sequence rest
  end.

(** The models among the arguments, in order. *)
Fixpoint models_of (elements : list Ranch.element) : list PDBModel :=
  match elements with
  | [] => []
  | Ranch.EModel _ m :: rest => m :: models_of rest
  | _ :: rest => models_of rest
  end.

(** The three values [overall_sym] may take. *)
Definition overall_sym_keys : list string := ["mixed"; "symmetry"; "asymmetry"].
(** Arguments of the constructor: a linker, a model of one chain, a linker. *)
Definition ex_domains : list Ranch.element :=
  [Ranch.EStr "GG"; Ranch.EModel 0 ex_dom; Ranch.EStr "S"].

(** ** The positions [_setup] records *)

(** An entry of [embedded] fits the sequence [s]: the letters of [s] from
    the recorded position on, as many as the domain has, are the sequence
    of the domain. *)
Definition fits (s : string) (item : PDBModel * nat) : Prop :=
  Py.slice s item.2 (item.2 + Py.len (sequence item.1)) = sequence item.1.
(** The object the constructor makes of a linker and the paired model, the
    chain A of the pair being the one that is part of the chain to build. *)
Definition ex_paired : Ranch.t :=
  match (Ranch.__init__ "/tmp" [Ranch.EStr "GG"; Ranch.EModel 0 ex_pair]
                        {[ 0 := Ranch.ChainId "A" ]} "p1" None None "mixed"
                        None None false ∅).2 with
  | Ok self => self
  | Raise _ => ex_self
  end.

(** A model of a single residue. *)
Definition ex_one : PDBModel :=
  mkModel [ex_atom "G" "A" 1; ex_atom "G" "A" 2] [0] [0] None.

(** ** Calls to run the file system on *)

(** A constructor call that fails: [overall_sym] is not a key. *)
Definition ex_failed : FS * outcome Ranch.t :=
  Ranch.__init__ "/tmp" [] ∅ "p1" None None "none" None None false ∅.

(** A constructor call that succeeds, and [prepare] after it. *)
Definition ex_call : FS * outcome Ranch.t :=
  Ranch.__init__ "/tmp" [Ranch.EStr "GG"; Ranch.EModel 0 ex_dom; Ranch.EStr "S"]
                 ∅ "p1" None None "mixed" None None false ∅.
Definition ex_made : Ranch.t :=
  match ex_call.2 with Ok self => self | Raise _ => ex_self end.
Definition ex_prepared : FS * outcome Ranch.t := Ranch.prepare ex_made ex_call.1.
Definition ex_ready : Ranch.t :=
  match ex_prepared.2 with Ok self => self | Raise _ => ex_self end.

(** A Pulchra call. *)
Definition ex_pulchra : FS * Pulchra.t :=
  Pulchra.__init__ "/tmp" "/opt/multiprot" ex_dom false ∅.

(** A symmetric model of one chain: the unit GH twice. *)
Definition ex_sym : PDBModel :=
  mkModel [ex_atom "G" "A" 1; ex_atom "H" "A" 2; ex_atom "G" "A" 3; ex_atom "H" "A" 4]
          [0; 1; 2; 3] [0] None.

(** Three chains with the same sequence GH, each atom in a place of its
    own. *)
Definition ex_trimer_atoms : list Atom :=
  [ex_atom "G" "A" 1; ex_atom "H" "A" 2; ex_atom "G" "B" 3; ex_atom "H" "B" 4;
   ex_atom "G" "C" 5; ex_atom "H" "C" 6].
(** The three chains as one model, and its middle chain. *)
Definition ex_trimer : PDBModel :=
  build ex_trimer_atoms ([1; 1] ++ [1; 1] ++ [1; 1])
        ([2] ++ [sum_list [1; 1]] ++ [2]) None.
Definition ex_middle : PDBModel :=
  build [ex_atom "G" "B" 3; ex_atom "H" "B" 4] [1; 1] [2] None.

(** Three chains, the middle one of three residues: sequences GH, GHK and
    GH, each atom in a place of its own. *)
Definition ex_complex_atoms : list Atom :=
  [ex_atom "G" "A" 1; ex_atom "H" "A" 2; ex_atom "G" "B" 3; ex_atom "H" "B" 4;
   ex_atom "K" "B" 5; ex_atom "G" "C" 6; ex_atom "H" "C" 7].
(** The three chains as one model, and its middle chain. *)
Definition ex_complex : PDBModel :=
  build ex_complex_atoms ([1; 1] ++ [1; 1; 1] ++ [1; 1])
        ([2] ++ [sum_list [1; 1; 1]] ++ [2]) None.
Definition ex_host : PDBModel :=
  build [ex_atom "G" "B" 3; ex_atom "H" "B" 4; ex_atom "K" "B" 5] [1; 1; 1] [3] None.

(** ** What [finish] finds and makes *)

(** [f] is the name of an entry of the directory [d]. *)
Definition entry_of (d : string) (fs : FS) (f : string) : Prop :=
  f ≠ "" ∧ ("/"%char ∉ Py.chars f) ∧ is_Some (fs !! (d +:+ "/" +:+ f)).

(** [rs] holds one model per entry of the directory [d], each of them what
    [extract] makes of the model read from the entry. *)
Definition one_per_entry (d : string) (fs : FS)
    (extract : PDBModel → outcome PDBModel) (rs : list PDBModel) : Prop :=
  ∃ files, NoDup files ∧ (∀ f, f ∈ files ↔ entry_of d fs f) ∧
    Forall2 (λ f r, ∃ full, read_pdb (d +:+ "/" +:+ f) fs = Ok full ∧
                            extract full = Ok r) files rs.

(** The attributes of a Ranch object other than [result]. *)
Definition but_result (self : Ranch.t) :=
  (Ranch.dir_models self, Ranch.f_seq self, Ranch.domains self,
   Ranch.chains self, Ranch.sequence self, Ranch.symmetry self,
   Ranch.symtemplate self, Ranch.doms_in self, Ranch.pdbs_in self,
   Ranch.embedded self, Ranch.overall_sym self, Ranch.fixed self,
   Ranch.multich self, Ranch.symunit self, Ranch.symseq self, Ranch.exe self).

(** The residue numbers of the atoms of residue [k]. *)
Definition residue_numbers (m : PDBModel) (k : nat) : list Z :=
  match resIndex m !! k with
  | Some a =>
      let b := default (lenAtoms m) (resIndex m !! S k) in
      map residue_number (list.take (b - a) (drop a (atoms m)))
  | None => []
  end.

(** [r] is [m] with new residue numbers: the same residues, chains, codes,
    chain ids and coordinates, and the atoms of residue [k], counted from
    0, carry the number [k + 1]. *)
Definition renumbered (m r : PDBModel) : Prop :=
  resIndex r = resIndex m ∧ chainIndex r = chainIndex m ∧
  map residue_code (atoms r) = map residue_code (atoms m) ∧
  map chain_id (atoms r) = map chain_id (atoms m) ∧
  map xyz (atoms r) = map xyz (atoms m) ∧
  ∀ k, k < lenResidues m →
    residue_numbers r k ≠ [] ∧
    Forall (λ n, n = (Z.of_nat k + 1)%Z) (residue_numbers r k).

(** Models directories to run [finish] on: two result files in the
    directory of [ex_made]; and the rebuilt file of [ex_pulchra]. *)
Definition ex_results : FS :=
  <[Ranch.dir_models ex_made +:+ "/1.pdb" := PdbFile ex_emb]>
    (<[Ranch.dir_models ex_made +:+ "/2.pdb" := PdbFile ex_dom]> ex_call.1).
Definition ex_rebuilt : FS :=
  <[Pulchra.rb_path ex_pulchra.2 := PdbFile ex_dom]> ex_pulchra.1.

(** A symmetric call: the unit GH is the symtemplate; and a result file
    that holds the unit twice, as one chain. *)
Definition ex_unit : PDBModel :=
  mkModel [ex_atom "G" "A" 1; ex_atom "H" "A" 2] [0; 1] [0] None.
Definition ex_call_sym : FS * outcome Ranch.t :=
  Ranch.__init__ "/tmp" [Ranch.EModel 7 ex_unit] ∅ "p2" (Some (7, ex_unit)) None
                 "symmetry" None None false ∅.
Definition ex_made_sym : Ranch.t :=
  match ex_call_sym.2 with Ok self => self | Raise _ => ex_self end.
Definition ex_results_sym : FS :=
  <[Ranch.dir_models ex_made_sym +:+ "/1.pdb" := PdbFile ex_sym]> ex_call_sym.1.

(** ** Where [prepare] writes *)


(** ** Source files on disk *)




(** ** The chains [extract_fixed] takes out *)

(** The chain the residue [k] of [m] lies in. *)
Definition chain_of_residue (m : PDBModel) (k : nat) : option nat :=
  resIndex m !! k ≫= λ a, chainMap m !! a.

(** [extract_fixed] accepts the match at the residue [index] of [full] for
    the chain [m]: the first residue of [m] and that residue compare
    equal. *)
Definition accepted (full m : PDBModel) (index : nat) : Prop :=
  np_all_eq (residue_xyz m 0) (residue_xyz full index) = true.

Global Instance accepted_dec full m index : Decision (accepted full m index).
Proof. unfold accepted. apply _. Defined.

(** The chain [m] is located at the residue [index] of [full]: among the
    matches of the first ten letters of [m] in the sequence of [full], in
    the order the search yields them, [index] is the first one accepted. *)
Definition located (full m : PDBModel) (index : nat) : Prop :=
  ∃ before after,
    re.finditer (Py.slice (sequence m) 0 10) (sequence full)
    = before ++ index :: after ∧
    Forall (λ j, ¬ accepted full m j) before ∧ accepted full m index.

(** The chain [m] is located in the chain [c] of [full]. *)
Definition located_in (full m : PDBModel) (c : nat) : Prop :=
  ∃ index, located full m index ∧ chain_of_residue full index = Some c.

(** The chain [c] of [full] is matched: a chain of [dom] is located in
    it. *)
Definition matched (dom full : PDBModel) (c : nat) : Prop :=
  ∃ i m, takeChains dom [i] = Ok m ∧ located_in full m c.

(** * Properties *)

(** ** Strings as lists of characters *)

Lemma chars_str l : Py.chars (Py.str l) = l.
Proof. apply list_ascii_of_string_of_list_ascii. Qed.

Lemma str_chars s : Py.str (Py.chars s) = s.
Proof. apply string_of_list_ascii_of_string. Qed.

Lemma chars_app a b : Py.chars (a +:+ b) = Py.chars a ++ Py.chars b.
Proof.
  unfold Py.chars. induction a as [|c a IH]; [done|].
  change (String c a +:+ b) with (String c (a +:+ b)). cbn. by rewrite IH.
Qed.

Lemma str_app l k : Py.str (l ++ k) = Py.str l +:+ Py.str k.
Proof.
  unfold Py.str. induction l as [|c l IH]; [done|].
  cbn [app string_of_list_ascii]. rewrite IH. done.
Qed.

Lemma chars_inj a b : Py.chars a = Py.chars b → a = b.
Proof. intros H. by rewrite <- (str_chars a), <- (str_chars b), H. Qed.

Lemma len_chars s : Py.len s = length (Py.chars s).
Proof.
  unfold Py.len, Py.chars. induction s as [|c s IH]; [done|]. cbn. by rewrite IH.
Qed.

Lemma str_app_assoc (a b c : string) : (a +:+ b) +:+ c = a +:+ (b +:+ c).
Proof.
  induction a as [|x a IH]; [done|].
  change (String x a +:+ b) with (String x (a +:+ b)).
  change (String x (a +:+ b) +:+ c) with (String x ((a +:+ b) +:+ c)).
  by rewrite IH.
Qed.

Lemma str_app_nil_r (a : string) : a +:+ "" = a.
Proof.
  induction a as [|x a IH]; [done|].
  change (String x a +:+ "") with (String x (a +:+ "")). by rewrite IH.
Qed.

Lemma starts_spec p l : Py.starts p l = true ↔ ∃ r, l = p ++ r.
Proof.
  revert l. induction p as [|a p IH]; intros l; cbn.
  - split; [eauto | done].
  - destruct l as [|b l].
    + split; [done | intros [r Hr]; discriminate].
    + rewrite andb_true_iff, bool_decide_eq_true, IH. split.
      * intros [-> [r ->]]. eauto.
      * intros [r Hr]. injection Hr as -> ->. eauto.
Qed.

Lemma contains_chars_spec p l :
  Py.contains_chars p l = true ↔ ∃ a b, l = a ++ p ++ b.
Proof.
  induction l as [|c l IH].
  - cbn. rewrite orb_false_r, starts_spec. split.
    + intros [r Hr]. exists [], r. done.
    + intros (a & b & Hab). symmetry in Hab.
      apply app_eq_nil in Hab as [-> Hab]. eauto.
  - cbn [Py.contains_chars]. rewrite orb_true_iff, starts_spec, IH. split.
    + intros [[r Hr] | (a & b & Hab)].
      * exists [], r. done.
      * exists (c :: a), b. by rewrite Hab.
    + intros (a & b & Hab). destruct a as [|x a].
      * left. eauto.
      * right. injection Hab as -> ->. eauto.
Qed.

Lemma contains_spec p s :
  Py.contains p s = true ↔ ∃ a b, s = a +:+ p +:+ b.
Proof.
  unfold Py.contains. rewrite contains_chars_spec. split.
  - intros (a & b & Hab). exists (Py.str a), (Py.str b).
    apply chars_inj. by rewrite !chars_app, !chars_str.
  - intros (a & b & ->). exists (Py.chars a), (Py.chars b).
    by rewrite !chars_app.
Qed.

(** C3.  [isFailed] is true exactly when the error attribute of the base
    class is true or the word Problems occurs in [str(self.output)]; when
    neither holds it returns [False]. *)
Theorem Ranch_isFailed_spec (self : Ranch.t) :
  let error := Executor.error (Ranch.exe self) in
  let output := Executor.output (Ranch.exe self) in
  let occurs := ∃ a b, py_str output = a +:+ "Problems" +:+ b in
  (py_bool (Ranch.isFailed self) = true ↔ py_bool error = true ∨ occurs) ∧
  (py_bool error = false → ¬ occurs → Ranch.isFailed self = PyBool false).
Proof.
  cbn zeta. unfold Ranch.isFailed, py_or. split.
  - destruct (py_bool (Executor.error _)) eqn:He.
    + split; [by left | done].
    + cbn. rewrite contains_spec. split; [by right | by intros [? | ?]].
  - intros -> Hno. f_equal. apply not_true_is_false.
    by rewrite contains_spec.
Qed.

(** ** The setup loop leaves the configuration alone *)


Lemma embed_chain_config self m cid self' :
  Ranch.embed_chain self m cid = Ok self' → config self' = config self.
Proof.
  unfold Ranch.embed_chain. intros H.
  repeat match type of H with
         | (mbind _ ?c) = Ok _ => destruct c; cbn in H; [|discriminate]
         end.
  by injection H as <-.
Qed.

Lemma setup_loop_config elements : ∀ self i self',
  Ranch.setup_loop self i elements = Ok self' → config self' = config self.
Proof.
  induction elements as [|e rest IH]; intros self i self' H; cbn in H.
  - by injection H as <-.
  - destruct e as [s | ref m |]; [| |discriminate].
    + by apply IH in H.
    + destruct (Ranch.multich self !! i) as [flag|]; cbn in H; [|discriminate].
      destruct (decide (flag = "yes")).
      { destruct (Ranch.symunit self); cbn in H; [|discriminate]. by apply IH in H. }
      destruct (decide (B.lenChains m = 1)); cbn in H.
      { by apply IH in H. }
      destruct (Ranch.fixed self !! i) as [f|]; cbn in H; [|discriminate].
      destruct (bool_decide (f = "yes")).
      { by apply IH in H. }
      destruct (Ranch.chains self !! ref) as [[cid|cids]|]; cbn in H; [| |discriminate].
      * destruct (Ranch.embed_chain self m cid) as [s1|] eqn:E; cbn in H; [|discriminate].
        apply IH in H. apply embed_chain_config in E. congruence.
      * destruct (head cids); cbn in H; [|discriminate].
        by apply embed_chain_config in H.
Qed.

Lemma setup_config self self' :
  Ranch._setup self = Ok self' → config self' = config self.
Proof.
  unfold Ranch._setup. intros H.
  destruct (Ranch.setup_loop self 0 (Ranch.domains self)) as [s1|] eqn:E;
    cbn in H; [|discriminate].
  apply setup_loop_config in E. injection H as <-.
  by destruct (Ranch.symtemplate_truthy _).
Qed.

Lemma overall_symmetry_lookup s :
  Ranch.overall_symmetry !! s =
    if decide (s = "mixed") then Some "m"
    else if decide (s = "symmetry") then Some "s"
    else if decide (s = "asymmetry") then Some "a"
    else None.
Proof.
  unfold Ranch.overall_symmetry.
  rewrite !lookup_insert, lookup_singleton.
  repeat case_decide; congruence.
Qed.

(** C10.  The constructor looks [overall_sym] up in a table with the three
    keys mixed, symmetry and asymmetry, and stores the code m, s or a; any
    other value ends the constructor with [KeyError], whatever the domains
    are; the three keys themselves are accepted, as a call without domains
    shows. *)
Theorem Ranch_init_overall_sym tmp domains chains symmetry symtemplate symunit
    overall_sym fixed multich debug (fs : FS) :
  let r := Ranch.__init__ tmp domains chains symmetry symtemplate symunit
                          overall_sym fixed multich debug fs in
  (∀ self, r.2 = Ok self →
     (overall_sym, Ranch.overall_sym self)
       ∈ [("mixed", "m"); ("symmetry", "s"); ("asymmetry", "a")]) ∧
  (overall_sym ∉ ["mixed"; "symmetry"; "asymmetry"] → r.2 = Raise KeyError) ∧
  (overall_sym ∈ ["mixed"; "symmetry"; "asymmetry"] →
     is_Ok (Ranch.__init__ tmp [] chains symmetry None None
                           overall_sym fixed multich debug fs).2).
Proof.
  cbn zeta. unfold Ranch.__init__.
  destruct (mkdtemp "ranch_" tmp fs) as [tempdir fs1].
  destruct (mkdtemp "models_" tempdir fs1) as [dir_models fs2].
  cbn [snd]. rewrite overall_symmetry_lookup. split; [|split].
  - intros self H.
    assert (∃ code, Ranch.overall_sym self = code ∧
              (overall_sym, code)
                ∈ [("mixed", "m"); ("symmetry", "s"); ("asymmetry", "a")])
      as (code & <- & Hin); [|done].
    repeat case_decide; subst; cbn in H; try discriminate;
      (match type of H with
       | (mbind _ ?c) = Ok _ => destruct c; cbn in H; [|discriminate]
       end;
       match type of H with
       | (mbind _ ?c) = Ok _ => destruct c eqn:E; cbn in H; [|discriminate]
       end;
       injection H as <-; apply setup_config in E;
       unfold config in E; cbn in E; simplify_eq;
       eexists; split; [done|set_solver]).
  - intros Hnot. repeat case_decide; subst; try (exfalso; set_solver). done.
  - intros Hin. unfold is_Ok.
    repeat case_decide; subst; cbn; try (eexists; done).
    exfalso. set_solver.
Qed.

(** ** The break in the setup loop *)

Lemma setup_loop_break pre : ∀ (self : Ranch.t) i0 ref m cids post flag f,
  Ranch.multich self !! (i0 + length (filter Ranch.is_model pre)) = Some flag →
  flag ≠ "yes" →
  B.lenChains m ≠ 1 →
  Ranch.fixed self !! (i0 + length (filter Ranch.is_model pre)) = Some f →
  f ≠ "yes" →
  Ranch.chains self !! ref = Some (Ranch.ChainList cids) →
  Ranch.setup_loop self i0 (pre ++ Ranch.EModel ref m :: post)
  = Ranch.setup_loop self i0 (pre ++ [Ranch.EModel ref m]).
Proof.
  induction pre as [|e pre IH]; intros self i0 ref m cids post flag f Hm Hflag Hn Hf Hfix Hc.
  - cbn in Hm, Hf. rewrite Nat.add_0_r in Hm, Hf.
    cbn. rewrite Hm, Hf, Hc. cbn.
    rewrite !decide_False by done. cbn.
    rewrite bool_decide_eq_false_2 by done. cbn.
    by destruct (head cids).
  - destruct e as [s | ref' m' |]; [| |done].
    + cbn. by eapply IH.
    + rewrite filter_cons_True in Hm, Hf by done.
      cbn [length] in Hm, Hf. rewrite <- Nat.add_succ_comm in Hm, Hf.
      cbn [app Ranch.setup_loop].
      destruct (Ranch.multich self !! i0) as [flag'|]; cbn; [|done].
      destruct (decide (flag' = "yes")).
      { destruct (Ranch.symunit self); cbn; [|done]. by eapply IH. }
      destruct (decide (B.lenChains m' = 1)); cbn.
      { by eapply IH. }
      destruct (Ranch.fixed self !! i0) as [f'|]; cbn; [|done].
      destruct (bool_decide (f' = "yes")).
      { by eapply IH. }
      destruct (Ranch.chains self !! ref') as [[cid|cids']|]; cbn; [| |done].
      * destruct (Ranch.embed_chain self m' cid) as [s1|] eqn:E; cbn; [|done].
        apply embed_chain_config in E. unfold config in E.
        injection E as E1 E2 E3 E4 E5 E6 E7 E8 E9 E10 E11 E12 E13.
        apply (IH s1 (S i0) ref m cids post flag f); congruence.
      * done.
Qed.

(** C9.  A model that is paired (flag other than yes in [multich], the flag
    the constructor gives to a model that is not the symtemplate), has more
    than one chain, is not marked fixed, and whose [chains] entry is a list
    ends the loop of [_setup]: the elements after it play no part, the
    object is the one the loop gives when the list stops at that model. *)
Theorem Ranch_setup_break (self : Ranch.t) pre ref m cids post flag f :
  let i := length (filter Ranch.is_model pre) in
  Ranch.domains self = pre ++ Ranch.EModel ref m :: post →
  Ranch.multich self !! i = Some flag → flag ≠ "yes" →
  1 < B.lenChains m →
  Ranch.fixed self !! i = Some f → f ≠ "yes" →
  Ranch.chains self !! ref = Some (Ranch.ChainList cids) →
  Ranch._setup self =
    (self' ← Ranch.setup_loop self 0 (pre ++ [Ranch.EModel ref m]);
     Ok (if Ranch.symtemplate_truthy (Ranch.symtemplate self')
         then Ranch.set_symseq self' (Ranch.sequence self') else self')).
Proof.
  cbn zeta. intros Hd Hm Hflag Hn Hf Hfix Hc. unfold Ranch._setup.
  rewrite Hd. erewrite setup_loop_break; [done | done.. | | done | done | done].
  lia.
Qed.


(** ** The outcome monad *)

Lemma mapR_app {A B} (f : A → outcome B) l1 l2 :
  mapR f (l1 ++ l2) = (x ← mapR f l1; y ← mapR f l2; Ok (x ++ y)).
Proof.
  induction l1 as [|a l1 IH]; cbn.
  - by destruct (mapR f l2).
  - destruct (f a); cbn; [|done]. rewrite IH.
    destruct (mapR f l1); cbn; [|done]. by destruct (mapR f l2).
Qed.

Lemma mapR_Ok {A B} (f : A → outcome B) (g : A → B) l :
  Forall (λ x, f x = Ok (g x)) l → mapR f l = Ok (map g l).
Proof.
  induction 1 as [|x l Hx _ IH]; cbn; [done|]. by rewrite Hx, IH.
Qed.

Lemma mapR_length {A B} (f : A → outcome B) l r :
  mapR f l = Ok r → length r = length l.
Proof.
  revert r. induction l as [|x l IH]; intros r H; cbn in H.
  - by injection H as <-.
  - destruct (f x); cbn in H; [|done].
    destruct (mapR f l) as [ys|]; cbn in H; [|done].
    injection H as <-. cbn. f_equal. by apply IH.
Qed.

Lemma bind_Raise {A B} (c : outcome A) (f : A → outcome B) e :
  c ≫= f = Raise e → c = Raise e ∨ ∃ a, c = Ok a ∧ f a = Raise e.
Proof.
  destruct c as [a|e']; cbn; intros H; [right; eauto | left].
  by injection H as ->.
Qed.

Lemma bind_Ok {A B} (c : outcome A) (f : A → outcome B) b :
  c ≫= f = Ok b → ∃ a, c = Ok a ∧ f a = Ok b.
Proof. destruct c as [a|e']; cbn; intros H; [eauto | done]. Qed.

Lemma mapR_Raise {A B} (f : A → outcome B) l e :
  mapR f l = Raise e → ∃ x, x ∈ l ∧ f x = Raise e.
Proof.
  induction l as [|x l IH]; cbn; [done|]. intros H.
  apply bind_Raise in H as [H | (y & _ & H)].
  - exists x. split; [left | done].
  - apply bind_Raise in H as [H | (ys & _ & H)]; [|done].
    destruct (IH H) as (z & Hz & Hfz). exists z. split; [by right | done].
Qed.

(** ** [numpy.take] *)

Lemma np_take_seq {A} (l : list A) a k :
  a + k ≤ length l → np_take l (seq a k) = Ok (list.take k (drop a l)).
Proof.
  revert a l. induction k as [|k IH]; intros a l Hle; cbn.
  - by rewrite take_0.
  - destruct (lookup_lt_is_Some_2 l a) as [x Hx]; [lia|].
    unfold np_take in IH. rewrite Hx. cbn. rewrite IH by lia. cbn.
    f_equal. rewrite (drop_S l x a Hx). done.
Qed.

Lemma np_take_all {A} (l : list A) : np_take l (seq 0 (length l)) = Ok l.
Proof. rewrite np_take_seq by lia. by rewrite drop_0, firstn_all. Qed.

Lemma np_take_app {A} (l : list A) i1 i2 :
  np_take l (i1 ++ i2) = (x ← np_take l i1; y ← np_take l i2; Ok (x ++ y)).
Proof. apply mapR_app. Qed.

Lemma np_take_length {A} (l : list A) i r :
  np_take l i = Ok r → length r = length i.
Proof. apply mapR_length. Qed.

Lemma np_take_Ok {A} (l : list A) i :
  Forall (λ k, k < length l) i → is_Ok (np_take l i).
Proof.
  induction 1 as [|k i Hk _ [r IH]]; cbn.
  - by eexists.
  - destruct (lookup_lt_is_Some_2 l k Hk) as [x Hx].
    unfold np_take in IH. rewrite Hx. cbn. rewrite IH. by eexists.
Qed.

Lemma np_take_not_TypeError {A} (l : list A) i : np_take l i ≠ Raise TypeError.
Proof.
  intros H. apply mapR_Raise in H as (k & _ & H). by destruct (l !! k).
Qed.

(** ** Segment lengths *)

Lemma starts_app p l1 l2 :
  starts p (l1 ++ l2) = starts p l1 ++ starts (p + sum_list l1) l2.
Proof.
  revert p. induction l1 as [|l l1 IH]; intros p; cbn.
  - by rewrite Nat.add_0_r.
  - rewrite IH. do 3 f_equal. lia.
Qed.

Lemma starts_shift p q lens : starts (p + q) lens = map (λ k, k + q) (starts p lens).
Proof.
  revert p. induction lens as [|l lens IH]; intros p; cbn; [done|].
  f_equal. rewrite <- IH. f_equal. lia.
Qed.

Lemma length_starts p lens : length (starts p lens) = length lens.
Proof. revert p. induction lens as [|l lens IH]; intros p; cbn; [done|]. by rewrite IH. Qed.

Lemma lookup_starts p lens i :
  i < length lens → starts p lens !! i = Some (p + sum_list (list.take i lens)).
Proof.
  revert p i. induction lens as [|l lens IH]; intros p i Hi; cbn in *; [lia|].
  destruct i as [|i]; cbn.
  - f_equal. lia.
  - rewrite IH by lia. f_equal. lia.
Qed.

Lemma lookup_starts_ge p lens i : length lens ≤ i → starts p lens !! i = None.
Proof. intros. apply lookup_ge_None. by rewrite length_starts. Qed.

Lemma starts_lt p lens :
  Forall (λ l, 0 < l) lens → Forall (λ k, k < p + sum_list lens) (starts p lens).
Proof.
  revert p. induction lens as [|l lens IH]; intros p Hpos; cbn; [done|].
  apply Forall_cons in Hpos as [Hl Hpos]. constructor; [lia|].
  eapply Forall_impl; [by apply IH|]. cbn. intros; lia.
Qed.

Lemma vblocks_app vl1 vl2 : vblocks (vl1 ++ vl2) = vblocks vl1 ++ vblocks vl2.
Proof.
  induction vl1 as [|[v l] vl1 IH]; cbn; [done|]. by rewrite IH, app_assoc.
Qed.

Lemma numbered_app k l1 l2 :
  numbered k (l1 ++ l2) = numbered k l1 ++ numbered (k + length l1) l2.
Proof.
  revert k. induction l1 as [|l l1 IH]; intros k; cbn.
  - by rewrite Nat.add_0_r.
  - rewrite IH. do 3 f_equal. lia.
Qed.

Lemma numbered_snd k lens : map snd (numbered k lens) = lens.
Proof. revert k. induction lens as [|l lens IH]; intros k; cbn; [done|]. by rewrite IH. Qed.

Lemma length_vblocks vl : length (vblocks vl) = sum_list (map snd vl).
Proof.
  induction vl as [|[v l] vl IH]; cbn; [done|].
  by rewrite length_app, length_replicate, IH.
Qed.

Lemma length_vblocks_numbered k lens :
  length (vblocks (numbered k lens)) = sum_list lens.
Proof. by rewrite length_vblocks, numbered_snd. Qed.

Lemma index2map_go_lens k index n :
  index2map_go k index n = vblocks (numbered k (lens_of index n)).
Proof.
  revert k. induction index as [|a rest IH]; intros k; cbn; [done|].
  by rewrite IH.
Qed.

Lemma lens_of_starts p lens :
  lens_of (starts p lens) (p + sum_list lens) = lens.
Proof.
  revert p. induction lens as [|l lens IH]; intros p; [done|].
  change (sum_list (l :: lens)) with (l + sum_list lens).
  cbn [starts lens_of]. f_equal.
  - destruct lens; cbn; lia.
  - rewrite Nat.add_assoc. apply IH.
Qed.

Lemma index2map_starts lens :
  index2map (starts 0 lens) (sum_list lens) = vblocks (numbered 0 lens).
Proof.
  unfold index2map. rewrite index2map_go_lens.
  do 2 f_equal. apply (lens_of_starts 0 lens).
Qed.

(** ** [map2index] on a map made of runs *)

Lemma map2index_go_ne pos a b rest :
  a ≠ b → map2index_go pos (a :: b :: rest) = S pos :: map2index_go (S pos) (b :: rest).
Proof. intros. simpl. by rewrite decide_False. Qed.

Lemma map2index_go_eq pos a rest :
  map2index_go pos (a :: a :: rest) = map2index_go (S pos) (a :: rest).
Proof. simpl. by rewrite decide_True. Qed.

Lemma map2index_go_vblocks vl : ∀ pos v l,
  0 < l → Forall (λ x : nat * nat, 0 < x.2) vl → adj_ne ((v, l) :: vl) →
  map2index_go pos (replicate l v ++ vblocks vl) = starts (pos + l) (map snd vl).
Proof.
  induction vl as [|[v' l'] vl IH]; intros pos v l Hl Hpos Hadj.
  - cbn [vblocks map starts]. rewrite app_nil_r. clear Hadj Hpos.
    revert pos. induction l as [|l IHl]; intros pos; [lia|].
    destruct l as [|l]; [done|].
    cbn [replicate]. rewrite map2index_go_eq. apply (IHl ltac:(lia)).
  - apply Forall_cons in Hpos as [Hl' Hpos]. cbn in Hl'.
    destruct Hadj as [Hne Hadj].
    revert pos. induction l as [|l IHl]; intros pos; [lia|].
    destruct l as [|l].
    + destruct l' as [|l']; [lia|].
      cbn [replicate app vblocks map snd starts].
      rewrite map2index_go_ne by done. f_equal; [lia|].
      change (v' :: replicate l' v' ++ vblocks vl)
        with (replicate (S l') v' ++ vblocks vl).
      rewrite IH by (done || lia). f_equal. lia.
    + cbn [replicate app]. rewrite map2index_go_eq.
      change (v :: replicate l v ++ vblocks ((v', l') :: vl))
        with (replicate (S l) v ++ vblocks ((v', l') :: vl)).
      rewrite (IHl ltac:(lia)). f_equal. lia.
Qed.

Lemma map2index_vblocks vl :
  Forall (λ x : nat * nat, 0 < x.2) vl → adj_ne vl →
  map2index (vblocks vl) = starts 0 (map snd vl).
Proof.
  destruct vl as [|[v l] vl]; [done|]. intros Hpos Hadj.
  apply Forall_cons in Hpos as [Hl Hpos]. cbn in Hl.
  destruct l as [|l]; [lia|].
  cbn [vblocks replicate app map2index map snd starts]. f_equal.
  change (v :: replicate l v ++ vblocks vl) with (replicate (S l) v ++ vblocks vl).
  by rewrite map2index_go_vblocks by (done || lia).
Qed.

Lemma numbered_pos k lens :
  Forall (λ l, 0 < l) lens → Forall (λ x : nat * nat, 0 < x.2) (numbered k lens).
Proof.
  intros H. revert k. induction H as [|l lens Hl _ IH]; intros k; cbn; [done|].
  constructor; [done|]. apply IH.
Qed.

Lemma adj_ne_numbered k lens : adj_ne (numbered k lens).
Proof.
  revert k. induction lens as [|l lens IH]; intros k; [done|].
  destruct lens as [|l' lens]; [done|].
  split; [lia|]. apply (IH (S k)).
Qed.

(** Two numbered pieces, the second starting at a number the first has not
    reached. *)
Lemma adj_ne_gap k l1 k' l2 :
  k + length l1 ≤ k' → adj_ne (numbered k l1 ++ numbered k' l2).
Proof.
  revert k. induction l1 as [|l l1 IH]; intros k Hk.
  - apply adj_ne_numbered.
  - destruct l1 as [|l' l1].
    + destruct l2 as [|l' l2]; [done|]. split; [cbn in *; lia|].
      apply (adj_ne_numbered k' (l' :: l2)).
    + split; [lia|]. apply (IH (S k)). cbn in *. lia.
Qed.

Lemma map2index_numbered k lens :
  Forall (λ l, 0 < l) lens → map2index (vblocks (numbered k lens)) = starts 0 lens.
Proof.
  intros H. rewrite map2index_vblocks, numbered_snd;
    auto using numbered_pos, adj_ne_numbered.
Qed.

Lemma map2index_gap k l1 k' l2 :
  Forall (λ l, 0 < l) l1 → Forall (λ l, 0 < l) l2 → k + length l1 ≤ k' →
  map2index (vblocks (numbered k l1) ++ vblocks (numbered k' l2))
  = starts 0 (l1 ++ l2).
Proof.
  intros H1 H2 Hk. rewrite <- vblocks_app, map2index_vblocks.
  - by rewrite map_app, !numbered_snd.
  - apply Forall_app; auto using numbered_pos.
  - by apply adj_ne_gap.
Qed.

(** A piece cut out along segment borders. *)
Lemma vblocks_slice k l1 l2 l3 :
  list.take (sum_list l2) (drop (sum_list l1) (vblocks (numbered k (l1 ++ l2 ++ l3))))
  = vblocks (numbered (k + length l1) l2).
Proof.
  rewrite !numbered_app, !vblocks_app.
  rewrite drop_app_length' by (symmetry; apply length_vblocks_numbered).
  by rewrite take_app_length' by (symmetry; apply length_vblocks_numbered).
Qed.

(** ** Well-formed indices *)

Lemma increasing_lens rest : ∀ lo a n,
  increasing_from lo (a :: rest) n = true →
  Forall (λ l, 0 < l) (lens_of (a :: rest) n) ∧
  starts a (lens_of (a :: rest) n) = a :: rest ∧
  a + sum_list (lens_of (a :: rest) n) = n.
Proof.
  induction rest as [|b rest IH]; intros lo a n H.
  - cbn in H. rewrite andb_true_r, bool_decide_eq_true in H.
    cbn. repeat split; [|lia]. constructor; [lia|done].
  - cbn [increasing_from] in H. apply andb_true_iff in H as [Ha H].
    apply bool_decide_eq_true in Ha.
    pose proof H as Hb. cbn [increasing_from] in Hb.
    apply andb_true_iff in Hb as [Hb _]. apply bool_decide_eq_true in Hb.
    destruct (IH _ _ _ H) as (Hpos & Hst & Hsum).
    change (lens_of (a :: b :: rest) n) with ((b - a) :: lens_of (b :: rest) n).
    repeat split.
    + constructor; [lia|done].
    + cbn [starts]. f_equal. replace (a + (b - a)) with b by lia. done.
    + change (sum_list ((b - a) :: lens_of (b :: rest) n))
        with ((b - a) + sum_list (lens_of (b :: rest) n)). lia.
Qed.

Lemma wf_index_lens index n :
  wf_index index n = true →
  Forall (λ l, 0 < l) (lens_of index n) ∧
  index = starts 0 (lens_of index n) ∧
  sum_list (lens_of index n) = n.
Proof.
  destruct index as [|a rest]; cbn [wf_index].
  - rewrite bool_decide_eq_true. intros ->. done.
  - rewrite andb_true_iff, bool_decide_eq_true. intros [-> H].
    destruct (increasing_lens _ _ _ _ H) as (Hpos & Hst & Hsum).
    repeat split; [done|by rewrite Hst|]. exact Hsum.
Qed.

Lemma increasing_starts lens : ∀ lo p,
  Forall (λ l, 0 < l) lens → lo ≤ p →
  increasing_from lo (starts p lens) (p + sum_list lens) = true.
Proof.
  induction lens as [|l lens IH]; intros lo p Hpos Hlo; [done|].
  apply Forall_cons in Hpos as [Hl Hpos].
  change (sum_list (l :: lens)) with (l + sum_list lens).
  cbn [starts increasing_from]. apply andb_true_iff. split.
  - apply bool_decide_eq_true. lia.
  - rewrite Nat.add_assoc. apply IH; [done|lia].
Qed.

Lemma wf_index_starts lens :
  Forall (λ l, 0 < l) lens → wf_index (starts 0 lens) (sum_list lens) = true.
Proof.
  intros Hpos. destruct lens as [|l lens]; [done|].
  cbn [starts wf_index]. apply andb_true_iff. split; [done|].
  apply (increasing_starts (l :: lens) 0 0); [done|lia].
Qed.

Lemma wf_shape m :
  wf m = true ↔ ∃ rl cl, shape m rl cl.
Proof.
  unfold wf, shape. rewrite andb_true_iff. split.
  - intros [Hr Hc].
    apply wf_index_lens in Hr as (? & ? & ?).
    apply wf_index_lens in Hc as (? & ? & ?). eauto 10.
  - intros (rl & cl & Hr & Hc & -> & -> & <- & Hs). split.
    + by apply wf_index_starts.
    + rewrite <- Hs. by apply wf_index_starts.
Qed.

(** ** Residues and chains to atoms *)

Lemma sum_list_take_S (lens : list nat) k l :
  lens !! k = Some l →
  sum_list (list.take (S k) lens) = sum_list (list.take k lens) + l.
Proof.
  intros H. rewrite (take_S_r _ _ _ H), sum_list_with_app. cbn. lia.
Qed.

Lemma sum_list_take_all (lens : list nat) k :
  length lens ≤ k → sum_list (list.take k lens) = sum_list lens.
Proof. intros. rewrite take_ge; [done|lia]. Qed.

Lemma segment_starts lens k l :
  lens !! k = Some l →
  segment (starts 0 lens) (sum_list lens) k = Ok (seq (sum_list (list.take k lens)) l).
Proof.
  intros H. pose proof (lookup_lt_Some _ _ _ H) as Hk.
  unfold segment. rewrite (lookup_starts 0 lens k Hk). cbn. do 2 f_equal.
  destruct (decide (S k < length lens)) as [Hlt|Hge].
  - rewrite (lookup_starts 0 lens (S k) Hlt). cbn. rewrite (sum_list_take_S _ _ _ H). lia.
  - rewrite lookup_starts_ge by lia. cbn.
    rewrite <- (sum_list_take_all lens (S k)) by lia.
    rewrite (sum_list_take_S _ _ _ H). lia.
Qed.

Lemma segments_seq lens k : ∀ a,
  a + k ≤ length lens →
  segments (seq a k) (starts 0 lens) (sum_list lens)
  = Ok (seq (sum_list (list.take a lens)) (sum_list (list.take k (drop a lens)))).
Proof.
  unfold segments.
  induction k as [|k IH]; intros a Hle; [done|].
  destruct (lookup_lt_is_Some_2 lens a) as [l Hl]; [lia|].
  cbn [seq mapR]. rewrite (segment_starts _ _ _ Hl). cbn.
  specialize (IH (S a) ltac:(lia)).
  destruct (mapR _ (seq (S a) k)) as [parts|]; cbn in IH |- *; [|done].
  injection IH as IH. rewrite IH. f_equal.
  rewrite (drop_S _ _ _ Hl). cbn [list.take].
  change (sum_list (l :: list.take k (drop (S a) lens)))
    with (l + sum_list (list.take k (drop (S a) lens))).
  rewrite seq_app. f_equal. f_equal.
  rewrite (sum_list_take_S _ _ _ Hl). done.
Qed.

Lemma extendIndex_seq lens k a :
  0 < k → a + k ≤ length lens →
  extendIndex (seq a k) (starts 0 lens) (sum_list lens)
  = Ok (seq (sum_list (list.take a lens)) (sum_list (list.take k (drop a lens)))).
Proof.
  intros Hk Hle. rewrite <- (segments_seq lens k a Hle).
  unfold extendIndex. destruct k; [lia | done].
Qed.

Lemma extendIndex_middle l1 l2 l3 :
  l2 ≠ [] →
  extendIndex (seq (length l1) (length l2)) (starts 0 (l1 ++ l2 ++ l3))
              (sum_list (l1 ++ l2 ++ l3))
  = Ok (seq (sum_list l1) (sum_list l2)).
Proof.
  intros Hne.
  rewrite extendIndex_seq
    by (rewrite ?length_app; destruct l2; [done | cbn [length]; lia]).
  rewrite take_app_length, drop_app_length, take_app_length. done.
Qed.

Lemma extendIndex_all lens :
  lens ≠ [] →
  extendIndex (seq 0 (length lens)) (starts 0 lens) (sum_list lens)
  = Ok (seq 0 (sum_list lens)).
Proof.
  intros Hne.
  rewrite (extendIndex_seq lens (length lens) 0)
    by (destruct lens; [done | cbn [length]; lia]).
  by rewrite drop_0, firstn_all, take_0.
Qed.

Lemma extendIndex_not_TypeError i index n : extendIndex i index n ≠ Raise TypeError.
Proof.
  unfold extendIndex, segments. intros H. destruct i as [|k0 i]; [done|].
  apply bind_Raise in H as [H | (parts & _ & H)]; [|done].
  apply mapR_Raise in H as (k & _ & H). unfold segment in H.
  by destruct (index !! k).
Qed.

(** ** [take] *)

Lemma shape_resMap m rl cl : shape m rl cl → resMap m = vblocks (numbered 0 rl).
Proof.
  intros (_ & _ & Hr & _ & Hs & _). unfold resMap.
  rewrite Hr, <- Hs. apply index2map_starts.
Qed.

Lemma shape_chainMap m rl cl : shape m rl cl → chainMap m = vblocks (numbered 0 cl).
Proof.
  intros (_ & _ & _ & Hc & _ & Hs). unfold chainMap.
  rewrite Hc, <- Hs. apply index2map_starts.
Qed.

Lemma take_two_ranges m rl cl p q p' q' :
  shape m rl cl → p + q ≤ lenAtoms m → p' + q' ≤ lenAtoms m →
  take m (seq p q ++ seq p' q') =
    Ok (mkModel
          (list.take q (drop p (atoms m)) ++ list.take q' (drop p' (atoms m)))
          (map2index (list.take q (drop p (vblocks (numbered 0 rl))) ++
                      list.take q' (drop p' (vblocks (numbered 0 rl)))))
          (map2index (list.take q (drop p (vblocks (numbered 0 cl))) ++
                      list.take q' (drop p' (vblocks (numbered 0 cl)))))
          (source m)).
Proof.
  intros Hs Hp Hp'. unfold take.
  rewrite (shape_resMap _ _ _ Hs), (shape_chainMap _ _ _ Hs).
  destruct Hs as (_ & _ & _ & _ & Hr & Hc). unfold lenAtoms in *.
  rewrite !np_take_app, !np_take_seq
    by (rewrite ?length_vblocks_numbered; lia).
  done.
Qed.

Lemma take_range m rl cl p q :
  shape m rl cl → p + q ≤ lenAtoms m →
  take m (seq p q) =
    Ok (mkModel (list.take q (drop p (atoms m)))
                (map2index (list.take q (drop p (vblocks (numbered 0 rl)))))
                (map2index (list.take q (drop p (vblocks (numbered 0 cl)))))
                (source m)).
Proof.
  intros Hs Hp.
  pose proof (take_two_ranges m rl cl p q 0 0 Hs Hp ltac:(lia)) as H.
  cbn [seq] in H. by rewrite !take_0, !app_nil_r in H.
Qed.

Lemma take_not_TypeError m i : take m i ≠ Raise TypeError.
Proof.
  unfold take. intros H.
  apply bind_Raise in H as [H | (? & _ & H)]; [by apply np_take_not_TypeError in H|].
  apply bind_Raise in H as [H | (? & _ & H)]; [by apply np_take_not_TypeError in H|].
  apply bind_Raise in H as [H | (? & _ & H)]; [by apply np_take_not_TypeError in H|].
  done.
Qed.

(** Taking every chain gives the model back. *)
Lemma takeChains_all m :
  wf m = true → 0 < lenChains m → takeChains m (seq 0 (lenChains m)) = Ok m.
Proof.
  intros Hwf Hpos. apply wf_shape in Hwf as (rl & cl & Hs).
  pose proof Hs as (Hpr & Hpc & Hr & Hc & Hsr & Hsc).
  unfold takeChains, chain2atomIndices, lenChains in *.
  rewrite Hc, length_starts in Hpos.
  rewrite Hc, length_starts, <- Hsc, extendIndex_all
    by (destruct cl; [cbn in Hpos; lia | done]).
  cbn.
  rewrite Hsc. rewrite (take_range m rl cl 0 (lenAtoms m) Hs) by lia.
  rewrite !drop_0. unfold lenAtoms in *.
  rewrite (take_ge (atoms m)) by done.
  rewrite !take_ge by (rewrite length_vblocks_numbered; lia).
  rewrite !map2index_numbered by done.
  rewrite <- Hr, <- Hc. by destruct m.
Qed.


(** ** Sequences *)

Lemma sequence_codes m : sequence m = Py.str (codes (atoms m) (resIndex m)).
Proof. done. Qed.

Lemma codes_app ats i1 i2 : codes ats (i1 ++ i2) = codes ats i1 ++ codes ats i2.
Proof. apply omap_app. Qed.

Lemma codes_app_l a b index :
  Forall (λ k, k < length a) index → codes (a ++ b) index = codes a index.
Proof.
  induction 1 as [|k index Hk _ IH]; [done|].
  unfold codes in *. cbn. by rewrite lookup_app_l, IH.
Qed.

Lemma codes_app_r a b index :
  codes (a ++ b) (map (λ k, k + length a) index) = codes b index.
Proof.
  induction index as [|k index IH]; [done|].
  unfold codes in *. cbn. rewrite lookup_app_r by lia.
  replace (k + length a - length a) with k by lia. by rewrite IH.
Qed.

Lemma codes_drop ats p lens :
  codes (drop p ats) (starts 0 lens) = codes ats (starts p lens).
Proof.
  change (starts p lens) with (starts (0 + p) lens).
  rewrite (starts_shift 0 p lens).
  induction (starts 0 lens) as [|k index IH]; [done|].
  unfold codes in *. cbn. rewrite lookup_drop, (Nat.add_comm p k). by rewrite IH.
Qed.

Lemma codes_take ats q index :
  Forall (λ k, k < q) index → codes (list.take q ats) index = codes ats index.
Proof.
  induction 1 as [|k index Hk _ IH]; [done|].
  unfold codes in *. cbn. by rewrite lookup_take_lt, IH.
Qed.

Lemma length_codes ats index :
  Forall (λ k, k < length ats) index → length (codes ats index) = length index.
Proof.
  induction 1 as [|k index Hk _ IH]; [done|].
  unfold codes in *. cbn.
  destruct (lookup_lt_is_Some_2 ats k Hk) as [x ->]. cbn. by rewrite IH.
Qed.

Lemma sequence_concat a b :
  Forall (λ k, k < lenAtoms a) (resIndex a) →
  sequence (concat a b) = sequence a +:+ sequence b.
Proof.
  intros H. rewrite !sequence_codes. cbn [concat atoms resIndex _resIndex].
  rewrite codes_app, str_app. f_equal.
  - by rewrite codes_app_l.
  - by rewrite codes_app_r.
Qed.

Lemma shape_resIndex_lt m rl cl :
  shape m rl cl → Forall (λ k, k < lenAtoms m) (resIndex m).
Proof.
  intros (Hpos & _ & -> & _ & <- & _). by apply (starts_lt 0).
Qed.

Lemma len_sequence m : wf m = true → Py.len (sequence m) = lenResidues m.
Proof.
  intros Hwf. apply wf_shape in Hwf as (rl & cl & Hs).
  rewrite sequence_codes, len_chars, chars_str, length_codes; [done|].
  by eapply shape_resIndex_lt.
Qed.

Lemma slice_str l a b : Py.slice (Py.str l) a b = Py.str (list.take (b - a) (drop a l)).
Proof. unfold Py.slice. by rewrite chars_str. Qed.

Lemma slice_from_str l a : Py.slice_from (Py.str l) a = Py.str (drop a l).
Proof. unfold Py.slice_from. by rewrite chars_str. Qed.

(** ** [embed] *)

(** The two pieces [embed] cuts a host of shape [r0 :: r1 :: rest] into. *)
Lemma embed_pieces dom emb r0 r1 rest cl :
  shape dom (r0 :: r1 :: rest) cl → rest ≠ [] →
  Ranch.embed dom emb =
    Ok (concat
          (concat
             (mkModel (list.take (r0 + r1) (atoms dom)) [0; r0]
                      (map2index (list.take (r0 + r1) (vblocks (numbered 0 cl))))
                      (source dom))
             emb)
          (mkModel (drop (r0 + r1) (atoms dom)) (starts 0 rest)
                   (map2index (drop (r0 + r1) (vblocks (numbered 0 cl))))
                   (source dom))).
Proof.
  intros Hs Hrest. pose proof Hs as (Hpr & Hpc & Hr & Hc & Hsr & Hsc).
  change (sum_list (r0 :: r1 :: rest)) with (r0 + (r1 + sum_list rest)) in Hsr.
  unfold Ranch.embed, res2atomIndices, lenResidues.
  rewrite Hr, length_starts, <- Hsr.
  pose proof (extendIndex_middle [] [r0; r1] rest ltac:(done)) as H1.
  pose proof (extendIndex_middle [r0; r1] rest [] Hrest) as H2.
  rewrite app_nil_r in H2.
  cbn [length app sum_list sum_list_with seq id] in H1, H2.
  change (sum_list_with id rest) with (sum_list rest) in H1, H2.
  cbn [length Nat.sub]. rewrite Nat.sub_0_r.
  cbn [length] in H1. rewrite H1, H2. cbn [mbind outcome_bind].
  rewrite (take_range dom _ cl 0 (r0 + (r1 + 0)) Hs) by lia.
  rewrite (take_range dom _ cl (r0 + (r1 + 0)) (sum_list rest) Hs) by lia.
  cbn [mbind outcome_bind]. rewrite !drop_0, Nat.add_0_r.
  pose proof (vblocks_slice 0 [] [r0; r1] rest) as V1.
  pose proof (vblocks_slice 0 [r0; r1] rest []) as V2.
  rewrite app_nil_r in V2.
  cbn [length app sum_list sum_list_with id Nat.add] in V1, V2.
  change (sum_list_with id rest) with (sum_list rest) in V2.
  rewrite drop_0, !Nat.add_0_r in V1. rewrite Nat.add_0_r in V2.
  rewrite V1, V2.
  rewrite !map2index_numbered
    by (by repeat (apply Forall_cons in Hpr as [? Hpr]); repeat constructor).
  assert (∀ A (l : list A), length l = r0 + (r1 + sum_list rest) →
            list.take (sum_list rest) (drop (r0 + r1) l) = drop (r0 + r1) l) as Hd.
  { intros A l Hl. apply take_ge. rewrite length_drop. lia. }
  rewrite (Hd _ (atoms dom)) by (unfold lenAtoms in *; lia).
  rewrite (Hd _ (vblocks (numbered 0 cl)))
    by (rewrite length_vblocks_numbered; lia).
  done.
Qed.

Lemma concat_resIndex_lt a b :
  Forall (λ k, k < lenAtoms a) (resIndex a) →
  Forall (λ k, k < lenAtoms b) (resIndex b) →
  Forall (λ k, k < lenAtoms (concat a b)) (resIndex (concat a b)).
Proof.
  intros Ha Hb. unfold lenAtoms, resIndex in *. cbn. rewrite length_app.
  apply Forall_app. split.
  - eapply Forall_impl; [done|]. cbn. intros; lia.
  - apply Forall_map. eapply Forall_impl; [done|]. unfold lenAtoms. cbn. intros; lia.
Qed.

Lemma embed_sequence dom emb :
  wf dom = true → wf emb = true → 3 ≤ lenResidues dom →
  ∃ full, Ranch.embed dom emb = Ok full ∧
    sequence full = Py.slice (sequence dom) 0 2 +:+ sequence emb +:+
                    Py.slice_from (sequence dom) 2.
Proof.
  intros Hd He Hlen.
  apply wf_shape in Hd as (rl & cl & Hs).
  apply wf_shape in He as (rl' & cl' & Hs').
  pose proof Hs as (Hpr & Hpc & Hr & Hc & Hsr & Hsc).
  unfold lenResidues in Hlen. rewrite Hr, length_starts in Hlen.
  destruct rl as [|r0 [|r1 rest]]; cbn in Hlen; [lia..|].
  assert (rest ≠ []) as Hrest by (destruct rest; [cbn in Hlen; lia | done]).
  apply Forall_cons in Hpr as [H0 Hpr]. apply Forall_cons in Hpr as [H1 Hpr].
  change (sum_list (r0 :: r1 :: rest)) with (r0 + (r1 + sum_list rest)) in Hsr.
  eexists. split; [by eapply embed_pieces|].
  set (first := mkModel (list.take (r0 + r1) (atoms dom)) _ _ _).
  set (last := mkModel (drop (r0 + r1) (atoms dom)) _ _ _).
  assert (Forall (λ k, k < lenAtoms first) (resIndex first)) as Hf.
  { unfold lenAtoms, resIndex in *. cbn. rewrite length_take.
    repeat constructor; lia. }
  rewrite !sequence_concat;
    [| done | apply concat_resIndex_lt; [done | by eapply shape_resIndex_lt]].
  rewrite str_app_assoc.
  assert (sequence first = Py.str (codes (atoms dom) [0; r0])) as ->.
  { rewrite sequence_codes. cbn [first atoms resIndex _resIndex].
    rewrite codes_take; [done|]. repeat constructor; lia. }
  assert (sequence last = Py.str (codes (atoms dom) (starts (r0 + r1) rest))) as ->.
  { rewrite sequence_codes. cbn [last atoms resIndex _resIndex].
    by rewrite codes_drop. }
  rewrite (sequence_codes dom), Hr.
  change (starts 0 (r0 :: r1 :: rest))
    with ([0; r0] ++ starts (r0 + r1) rest).
  rewrite codes_app, slice_str, slice_from_str.
  assert (length (codes (atoms dom) [0; r0]) = 2) as Hl2.
  { rewrite length_codes; [done|]. unfold lenAtoms in *.
    repeat constructor; lia. }
  rewrite drop_0, Nat.sub_0_r.
  rewrite take_app_length' by done. rewrite drop_app_length' by done.
  done.
Qed.

Lemma embed_chain_spec self element cid self' :
  Ranch.embed_chain self element cid = Ok self' →
  ∃ m to_embed m_emb,
    Ranch.extract_fixed m element = Ok to_embed ∧
    Ranch.embed m to_embed = Ok m_emb ∧
    Ranch.embedded self' =
      Ranch.embedded self ++ [(to_embed, Py.len (Ranch.sequence self) + 2)] ∧
    Ranch.sequence self' = Ranch.sequence self +:+ sequence m_emb ∧
    Ranch.doms_in self' = Ranch.doms_in self ++ [m_emb].
Proof.
  unfold Ranch.embed_chain. intros H.
  apply bind_Ok in H as (chain_inds & _ & H).
  apply bind_Ok in H as (chain_ind & _ & H).
  apply bind_Ok in H as (m & _ & H).
  apply bind_Ok in H as (to_embed & Hx & H).
  apply bind_Ok in H as (m_emb & He & H).
  injection H as <-. exists m, to_embed, m_emb. done.
Qed.

(** C2.  [embed] puts the model to embed right after the first two
    residues of the host: the sequence of the result is the first two
    letters of the host, the sequence of the embedded model, and the rest
    of the host.  In [_setup], a paired model is recorded in [embedded] at
    the length of the sequence built so far plus 2, before the sequence of
    its embedding is appended. *)
Theorem Ranch_embed_sequence :
  (∀ dom to_embed,
     wf dom = true → wf to_embed = true → 3 ≤ lenResidues dom →
     ∃ full, Ranch.embed dom to_embed = Ok full ∧
       sequence full = Py.slice (sequence dom) 0 2 +:+ sequence to_embed +:+
                       Py.slice_from (sequence dom) 2) ∧
  (∀ self i ref m flag f entry self',
     Ranch.multich self !! i = Some flag → flag ≠ "yes" →
     1 < lenChains m →
     Ranch.fixed self !! i = Some f → f ≠ "yes" →
     Ranch.chains self !! ref = Some entry →
     Ranch.setup_loop self i [Ranch.EModel ref m] = Ok self' →
     ∃ host to_embed m_emb,
       Ranch.extract_fixed host m = Ok to_embed ∧
       Ranch.embed host to_embed = Ok m_emb ∧
       Ranch.embedded self' =
         Ranch.embedded self ++ [(to_embed, Py.len (Ranch.sequence self) + 2)] ∧
       Ranch.sequence self' = Ranch.sequence self +:+ sequence m_emb).
Proof.
  split.
  - intros dom to_embed Hd He Hlen. by apply embed_sequence.
  - intros self i ref m flag f entry self' Hm Hflag Hn Hf Hfix Hc H.
    cbn in H. rewrite Hm, Hf, Hc in H. cbn in H.
    rewrite decide_False in H by done.
    rewrite decide_False in H by lia. cbn in H.
    rewrite bool_decide_eq_false_2 in H by done.
    assert (∃ cid, Ranch.embed_chain self m cid = Ok self') as [cid Hcid].
    { destruct entry as [cid | cids].
      - exists cid. by destruct (Ranch.embed_chain self m cid).
      - destruct (head cids) as [cid|]; [|done]. by exists cid. }
    apply embed_chain_spec in Hcid
      as (host & to_embed & m_emb & Hx & He & Hemb & Hseq & _).
    by exists host, to_embed, m_emb.
Qed.


(** ** Computations in place *)

Lemma inplace_bind_no_raise {A B} (c : inplace A) (f : A → inplace B) e :
  (∀ m, (c m).2 ≠ Raise e) → (∀ a m, (f a m).2 ≠ Raise e) →
  ∀ m, ((c ≫= f) m).2 ≠ Raise e.
Proof.
  intros Hc Hf m. unfold mbind, inplace_bind.
  specialize (Hc m). destruct (c m) as [m' [a|e']]; cbn in *; [apply Hf|].
  congruence.
Qed.

Lemma for_each_no_raise {A} (l : list A) (body : A → inplace unit) e :
  (∀ x m, (body x m).2 ≠ Raise e) → ∀ m, (for_each l body m).2 ≠ Raise e.
Proof.
  intros Hb. induction l as [|x l IH]; intros m; cbn; [done|].
  apply inplace_bind_no_raise; [apply Hb | intros _; apply IH].
Qed.

Lemma reading_snd {A} (f : PDBModel → outcome A) m : (reading f m).2 = f m.
Proof. done. Qed.

Lemma changing_no_raise (f : PDBModel → outcome PDBModel) e m :
  f m ≠ Raise e → (changing f m).2 ≠ Raise e.
Proof. unfold changing. destruct (f m); cbn; congruence. Qed.

(** ** [extract_embedded] and [TypeError] *)

Lemma sum_list_take_drop_le (lens : list nat) a k :
  sum_list (list.take a lens) + sum_list (list.take k (drop a lens)) ≤ sum_list lens.
Proof.
  rewrite <- (take_drop a lens) at 3. rewrite sum_list_with_app.
  rewrite <- (take_drop k (drop a lens)) at 2. rewrite sum_list_with_app.
  unfold sum_list. lia.
Qed.

Lemma takeResidues_range m a k :
  wf m = true → 0 < k → a + k ≤ lenResidues m → is_Ok (takeResidues m (seq a k)).
Proof.
  intros Hwf Hk Hle. apply wf_shape in Hwf as (rl & cl & Hs).
  pose proof Hs as (Hpr & Hpc & Hr & Hc & Hsr & Hsc).
  unfold lenResidues in Hle. rewrite Hr, length_starts in Hle.
  unfold takeResidues, res2atomIndices.
  rewrite Hr, <- Hsr, extendIndex_seq by done. cbn [mbind outcome_bind].
  erewrite take_range; [by eexists | done |].
  rewrite <- Hsr. apply sum_list_take_drop_le.
Qed.

(** No residue at all cannot be taken. *)
Lemma takeResidues_empty m : takeResidues m [] = Raise ValueError.
Proof. done. Qed.

Lemma takeResidues_not_TypeError m i : takeResidues m i ≠ Raise TypeError.
Proof.
  unfold takeResidues, res2atomIndices. intros H.
  apply bind_Raise in H as [H | (? & _ & H)].
  - by apply extendIndex_not_TypeError in H.
  - by apply take_not_TypeError in H.
Qed.

Lemma len_pos (s : string) : s ≠ "" → 0 < Py.len s.
Proof. destruct s; [done | cbn; lia]. Qed.

(** An entry that fits lies inside [full]. *)
Lemma fitting_in_range full dom i_start :
  wf full = true → sequence dom ≠ "" →
  Py.slice (sequence full) i_start (i_start + Py.len (sequence dom)) = sequence dom →
  is_Ok (takeResidues full
           (seq i_start (i_start + Py.len (sequence dom) - i_start))).
Proof.
  intros Hwf Hne Hfit. apply len_pos in Hne.
  replace (i_start + Py.len (sequence dom) - i_start)
    with (Py.len (sequence dom)) in * by lia.
  apply takeResidues_range; [done | done |].
  rewrite <- (len_sequence full Hwf).
  apply (f_equal Py.len) in Hfit.
  unfold Py.slice in Hfit at 1. rewrite !len_chars, chars_str in Hfit.
  rewrite length_take, length_drop in Hfit. rewrite !len_chars in *. lia.
Qed.

(** [collect] raises [TypeError] only at an entry that does not fit. *)
Lemma collect_TypeError_misplaced full items : ∀ r emb_ind,
  Ranch.collect full items r emb_ind = Raise TypeError →
  Exists (misplaced full) items.
Proof.
  induction items as [|[dom i_start] items IH]; intros r emb_ind H; [done|].
  cbn [Ranch.collect] in H. rewrite Exists_cons. unfold misplaced at 1. cbn [fst snd].
  destruct (decide (Py.slice _ _ _ = _)) as [Hfit | Hno]; [|by left].
  right. destruct (takeResidues full _) as [part|e] eqn:E; cbn in H.
  - by eapply IH.
  - injection H as ->. by apply takeResidues_not_TypeError in E.
Qed.

(** When every domain of the dictionary has a residue, it raises it at the
    first entry that does not fit. *)
Lemma collect_TypeError full items : ∀ r emb_ind,
  wf full = true → Forall (λ item, sequence item.1 ≠ "") items →
  (Ranch.collect full items r emb_ind = Raise TypeError
   ↔ Exists (misplaced full) items).
Proof.
  intros r emb_ind Hwf Hne. split; [apply collect_TypeError_misplaced|].
  revert r emb_ind.
  induction Hne as [|[dom i_start] items Hd _ IH]; intros r emb_ind H.
  - by apply Exists_nil in H.
  - cbn [Ranch.collect]. apply Exists_cons in H. unfold misplaced at 1 in H.
    cbn [fst snd] in *.
    destruct (decide (Py.slice _ _ _ = _)) as [Hfit | Hno]; [|done].
    destruct (fitting_in_range full dom i_start Hwf Hd Hfit) as [part ->].
    cbn [mbind outcome_bind]. apply IH. by destruct H.
Qed.

Lemma remove_not_TypeError m what : remove m what ≠ Raise TypeError.
Proof.
  unfold remove. case_bool_decide; [apply take_not_TypeError | done].
Qed.

Lemma mergeChains_not_TypeError m c : mergeChains m c ≠ Raise TypeError.
Proof.
  unfold mergeChains. intros H.
  destruct (chainIndex m !! c); cbn in H; [|done].
  destruct (chainIndex m !! S c); cbn in H; [|done].
  by destruct (atoms m !! _).
Qed.

Lemma addChainId_not_TypeError m : addChainId m ≠ Raise TypeError.
Proof.
  unfold addChainId. intros H.
  apply bind_Raise in H as [H | (? & _ & H)]; [|done].
  apply mapR_Raise in H as ([a c] & _ & H).
  by destruct (letters !! c).
Qed.

Lemma cut_not_TypeError span m : (Ranch.cut span m).2 ≠ Raise TypeError.
Proof.
  unfold Ranch.cut.
  apply inplace_bind_no_raise.
  { intros m'. rewrite reading_snd. by destruct (resIndex m' !! _). }
  intros a. apply inplace_bind_no_raise.
  { intros m'. rewrite reading_snd. by destruct (resIndex m' !! _). }
  intros b m'. apply changing_no_raise, remove_not_TypeError.
Qed.

(** C8.  For a dictionary whose domains all have a residue (a domain
    without one makes the call stop with the [ValueError] of an empty list
    of positions), [extract_embedded] raises [TypeError] exactly when some
    entry of the dictionary does not fit: the letters of [full] from the
    recorded position on, as many as the domain has, are not the sequence
    of the domain.  When it does, [full] is as it was: every entry is
    checked before the first atom is removed. *)
Theorem Ranch_extract_embedded_TypeError embedded full :
  wf full = true →
  Forall (λ item : PDBModel * nat, sequence item.1 ≠ "") embedded →
  ((Ranch.extract_embedded embedded full).2 = Raise TypeError
   ↔ Exists (misplaced full) embedded) ∧
  ((Ranch.extract_embedded embedded full).2 = Raise TypeError →
   (Ranch.extract_embedded embedded full).1 = full).
Proof.
  intros Hwf Hne. rewrite <- (collect_TypeError full embedded empty [] Hwf Hne).
  remember (Ranch.extract_embedded embedded full) as res eqn:Hres.
  unfold Ranch.extract_embedded in Hres.
  unfold mbind at 1, inplace_bind at 1, reading at 1 in Hres.
  destruct (Ranch.collect full embedded empty []) as [[r emb_ind]|e].
  - match type of Hres with
    | _ = ?c full => assert ((c full).2 ≠ Raise TypeError) as Hno
    end.
    { apply inplace_bind_no_raise.
      { apply for_each_no_raise, cut_not_TypeError. }
      intros _. apply inplace_bind_no_raise; [intros m; by rewrite reading_snd|].
      intros n. apply inplace_bind_no_raise.
      { apply for_each_no_raise. intros _ m.
        apply changing_no_raise, mergeChains_not_TypeError. }
      intros _. apply inplace_bind_no_raise.
      { intros m. by apply changing_no_raise. }
      intros _ m. rewrite reading_snd.
      pose proof (addChainId_not_TypeError (concat m r)).
      by destruct (addChainId (concat m r)). }
    rewrite <- Hres in Hno.
    split; [split; [intros H; by destruct Hno | done] | intros H; by destruct Hno].
  - subst res. cbn. split; [split; intros H; by injection H as -> | done].
Qed.


(** ** Matches of [re.finditer] *)

Lemma finditer_go_sound p l : ∀ pos skip index,
  index ∈ re.finditer_go p l pos skip →
  ∃ j, index = pos + j ∧ Py.starts p (drop j l) = true.
Proof.
  induction l as [|c l IH]; intros pos skip index Hin.
  - destruct skip; cbn in Hin; [|by apply elem_of_nil in Hin].
    destruct (Py.starts p []) eqn:Hs; [|by apply elem_of_nil in Hin].
    apply list_elem_of_singleton in Hin as ->. exists 0. by rewrite Nat.add_0_r.
  - assert (∀ skip', index ∈ re.finditer_go p l (S pos) skip' →
              ∃ j, index = pos + j ∧ Py.starts p (drop j (c :: l)) = true) as Hrec.
    { intros skip' H. apply IH in H as (j & -> & Hj).
      exists (S j). split; [lia | done]. }
    destruct skip; cbn [re.finditer_go] in Hin; [|by eapply Hrec].
    destruct (Py.starts p (c :: l)) eqn:Hs; [|by eapply Hrec].
    apply elem_of_cons in Hin as [-> | Hin]; [|by eapply Hrec].
    exists 0. by rewrite Nat.add_0_r.
Qed.

Lemma starts_take p l : Py.starts p l = true → list.take (length p) l = p.
Proof.
  intros (r & ->)%starts_spec. by rewrite take_app_length.
Qed.

Lemma finditer_sound p s index :
  index ∈ re.finditer p s →
  Py.slice s index (index + Py.len p) = p ∧ (p ≠ "" → index < Py.len s).
Proof.
  intros (j & -> & Hj)%finditer_go_sound. cbn [Nat.add]. split.
  - unfold Py.slice. replace (j + Py.len p - j) with (Py.len p) by lia.
    rewrite len_chars, (starts_take _ _ Hj). apply str_chars.
  - intros Hne. rewrite len_chars.
    destruct (decide (j < length (Py.chars s))) as [|Hge]; [done|].
    rewrite drop_ge in Hj by lia.
    destruct (Py.chars p) eqn:Hp; [|done].
    destruct Hne. apply chars_inj. by rewrite Hp.
Qed.

(** ** Models made by [take] *)

Lemma map2index_go_increasing imap : ∀ pos,
  increasing_from (S pos) (map2index_go pos imap) (pos + length imap) = true.
Proof.
  induction imap as [|a imap IH]; intros pos; [done|].
  destruct imap as [|b imap]; [done|].
  destruct (decide (a = b)) as [->|Hne].
  - rewrite map2index_go_eq.
    replace (pos + length (b :: b :: imap)) with (S pos + length (b :: imap))
      by (cbn; lia).
    specialize (IH (S pos)).
    destruct (map2index_go (S pos) (b :: imap)) as [|x rest]; [done|].
    cbn [increasing_from] in *. apply andb_true_iff in IH as [Hx IH].
    apply bool_decide_eq_true in Hx.
    apply andb_true_iff. split; [|done]. apply bool_decide_eq_true. lia.
  - rewrite map2index_go_ne by done. cbn [increasing_from].
    apply andb_true_iff. split.
    + apply bool_decide_eq_true. cbn. lia.
    + replace (pos + length (a :: b :: imap)) with (S pos + length (b :: imap))
        by (cbn; lia).
      apply IH.
Qed.

Lemma wf_index_map2index imap : wf_index (map2index imap) (length imap) = true.
Proof.
  destruct imap as [|a imap]; [done|].
  cbn [map2index wf_index increasing_from].
  pose proof (map2index_go_increasing (a :: imap) 0) as H.
  cbn [Nat.add] in H. rewrite H.
  rewrite bool_decide_eq_true_2 by done.
  rewrite bool_decide_eq_true_2 by (cbn; lia). done.
Qed.

Lemma take_wf m i m' : take m i = Ok m' → wf m' = true.
Proof.
  unfold take. intros H.
  apply bind_Ok in H as (ats & Ha & H).
  apply bind_Ok in H as (rm & Hr & H).
  apply bind_Ok in H as (cm & Hc & H).
  injection H as <-. unfold wf, lenAtoms, resIndex, chainIndex. cbn.
  apply np_take_length in Ha, Hr, Hc.
  apply andb_true_iff. split.
  - rewrite Ha, <- Hr. apply wf_index_map2index.
  - rewrite Ha, <- Hc. apply wf_index_map2index.
Qed.

Lemma take_lenAtoms m i m' : take m i = Ok m' → lenAtoms m' = length i.
Proof.
  unfold take. intros H.
  apply bind_Ok in H as (ats & Ha & H).
  apply bind_Ok in H as (rm & Hr & H).
  apply bind_Ok in H as (cm & Hc & H).
  injection H as <-. by apply np_take_length in Ha.
Qed.

(** ** One residue, one chain *)

Lemma res2atomIndices_one m rl cl k l :
  shape m rl cl → rl !! k = Some l →
  res2atomIndices m [k] = Ok (seq (sum_list (list.take k rl)) l).
Proof.
  intros (_ & _ & Hr & _ & Hs & _) Hk. unfold res2atomIndices, extendIndex, segments.
  rewrite Hr, <- Hs. cbn [mapR]. rewrite (segment_starts _ _ _ Hk). cbn.
  by rewrite app_nil_r.
Qed.

Lemma residue_xyz_shape m rl cl k l :
  shape m rl cl → rl !! k = Some l →
  residue_xyz m k
  = map xyz (list.take l (drop (sum_list (list.take k rl)) (atoms m))).
Proof.
  intros (_ & _ & Hr & _ & Hs & _) Hk.
  pose proof (lookup_lt_Some _ _ _ Hk) as Hlt.
  unfold residue_xyz. rewrite Hr, (lookup_starts 0 rl k Hlt). cbn [Nat.add].
  do 2 f_equal.
  destruct (decide (S k < length rl)) as [Hlt'|Hge].
  - rewrite (lookup_starts 0 rl (S k) Hlt'). cbn.
    rewrite (sum_list_take_S _ _ _ Hk). lia.
  - rewrite lookup_starts_ge by lia. cbn. rewrite <- Hs.
    rewrite <- (sum_list_take_all rl (S k)) by lia.
    rewrite (sum_list_take_S _ _ _ Hk). lia.
Qed.

Lemma head_seq a l : 0 < l → head (seq a l) = Some a.
Proof. by destruct l; [lia|]. Qed.

Lemma last_seq a l : 0 < l → list.last (seq a l) = Some (a + l - 1).
Proof.
  destruct l as [|l]; [lia|]. intros _.
  rewrite seq_S, last_snoc. f_equal. lia.
Qed.

Lemma xyz_slice_residue m rl cl k l :
  shape m rl cl → rl !! k = Some l → 0 < l →
  xyz_slice m (sum_list (list.take k rl)) (sum_list (list.take k rl) + l - 1)
  = residue_xyz m k.
Proof.
  intros Hs Hk Hl. rewrite (residue_xyz_shape _ _ _ _ _ Hs Hk).
  unfold xyz_slice. do 2 f_equal. lia.
Qed.

Lemma takeChains_one dom i :
  wf dom = true → i < lenChains dom →
  ∃ m, takeChains dom [i] = Ok m ∧ wf m = true ∧ 0 < lenAtoms m.
Proof.
  intros Hwf Hi. apply wf_shape in Hwf as (rl & cl & Hs).
  pose proof Hs as (Hpr & Hpc & Hr & Hc & Hsr & Hsc).
  unfold lenChains in Hi. rewrite Hc, length_starts in Hi.
  destruct (lookup_lt_is_Some_2 cl i Hi) as [l Hl].
  assert (0 < l) as Hpos.
  { rewrite Forall_forall in Hpc. apply Hpc. by eapply list_elem_of_lookup_2. }
  unfold takeChains, chain2atomIndices, extendIndex, segments.
  rewrite Hc, <- Hsc. cbn [mapR]. rewrite (segment_starts _ _ _ Hl).
  cbn. rewrite app_nil_r.
  destruct (take dom (seq (sum_list (list.take i cl)) l)) as [m|e] eqn:Ht.
  - exists m. split; [done|]. split; [by eapply take_wf|].
    apply take_lenAtoms in Ht. rewrite Ht, length_seq. done.
  - rewrite (take_range dom rl cl) in Ht; [done | done |].
    rewrite <- Hsc. pose proof (sum_list_take_drop_le cl i 1) as Hle.
    rewrite (drop_S _ _ _ Hl) in Hle. cbn in Hle. lia.
Qed.

Lemma chains_of_dom dom :
  wf dom = true →
  ∃ doms, mapR (λ i, takeChains dom [i]) (seq 0 (lenChains dom)) = Ok doms ∧
    Forall (λ m, (∃ i, takeChains dom [i] = Ok m) ∧ wf m = true ∧ 0 < lenAtoms m) doms.
Proof.
  intros Hwf.
  assert (∀ n a, a + n ≤ lenChains dom →
    ∃ doms, mapR (λ i, takeChains dom [i]) (seq a n) = Ok doms ∧
      Forall (λ m, (∃ i, takeChains dom [i] = Ok m) ∧ wf m = true ∧ 0 < lenAtoms m) doms)
    as H.
  { induction n as [|n IH]; intros a Ha.
    - exists []. by split.
    - destruct (takeChains_one dom a Hwf ltac:(lia)) as (m & Hm & Hw & Hl).
      destruct (IH (S a) ltac:(lia)) as (doms & Hd & Hall).
      exists (m :: doms). cbn [seq mapR]. rewrite Hm, Hd. split; [done|].
      constructor; [|done]. eauto. }
  apply (H _ 0). lia.
Qed.

(** ** [extract_fixed] when nothing is found *)

Lemma try_matches_none m full lowm highm matches chains :
  wf full = true →
  (∀ index, index ∈ matches →
     index < lenResidues full ∧
     np_all_eq (xyz_slice m lowm highm) (residue_xyz full index) = false) →
  Ranch.try_matches m full lowm highm matches chains = Ok chains.
Proof.
  intros Hwf. apply wf_shape in Hwf as (rl & cl & Hs).
  pose proof Hs as (Hpr & Hpc & Hr & Hc & Hsr & Hsc).
  induction matches as [|index matches IH]; intros Hall; [done|].
  destruct (Hall index ltac:(left)) as [Hlt Hne].
  unfold lenResidues in Hlt. rewrite Hr, length_starts in Hlt.
  destruct (lookup_lt_is_Some_2 rl index Hlt) as [l Hl].
  assert (0 < l) as Hpos.
  { rewrite Forall_forall in Hpr. apply Hpr. by eapply list_elem_of_lookup_2. }
  cbn [Ranch.try_matches].
  rewrite (res2atomIndices_one _ _ _ _ _ Hs Hl). cbn [mbind outcome_bind].
  rewrite head_seq, last_seq by done. cbn [or_raise mbind outcome_bind].
  rewrite (xyz_slice_residue _ _ _ _ _ Hs Hl Hpos), Hne.
  apply IH. intros i Hi. apply Hall. by right.
Qed.

Lemma slice_nonempty s : 0 < Py.len s → Py.slice s 0 10 ≠ "".
Proof.
  rewrite len_chars. unfold Py.slice. destruct (Py.chars s); cbn; [lia|done].
Qed.

Lemma locate_none full m chains :
  wf full = true → wf m = true → 0 < lenAtoms m →
  (∀ index, ¬ found_at full m index) →
  Ranch.locate full m chains = Ok chains.
Proof.
  intros Hwf Hwm Hlen Hno. unfold Ranch.locate.
  destruct (re.search _ _); [|done].
  apply wf_shape in Hwm as (rl & cl & Hs).
  pose proof Hs as (Hpr & Hpc & Hr & Hc & Hsr & Hsc).
  destruct rl as [|r0 rl]; [cbn in Hsr; lia|].
  apply Forall_cons in Hpr as [Hr0 Hpr].
  rewrite (res2atomIndices_one m _ cl 0 r0 Hs eq_refl).
  cbn [mbind outcome_bind list.take sum_list sum_list_with].
  rewrite head_seq, last_seq by done. cbn [or_raise mbind outcome_bind].
  apply try_matches_none; [done|]. intros index Hin.
  apply finditer_sound in Hin as [Hocc Hin].
  assert (wf m = true) as Hwm by (apply wf_shape; eauto).
  split.
  - rewrite <- (len_sequence full Hwf). apply Hin, slice_nonempty.
    rewrite (len_sequence m Hwm). unfold lenResidues.
    rewrite Hr, length_starts. cbn. lia.
  - pose proof (xyz_slice_residue m _ cl 0 r0 Hs eq_refl Hr0) as Hx.
    change (sum_list (list.take 0 (r0 :: rl))) with 0 in Hx. rewrite Hx.
    apply not_true_is_false. intros Heq. by apply (Hno index).
Qed.

Lemma locate_all_none full doms chains :
  wf full = true →
  Forall (λ m, wf m = true ∧ 0 < lenAtoms m ∧ ∀ index, ¬ found_at full m index) doms →
  Ranch.locate_all full doms chains = Ok chains.
Proof.
  intros Hwf. induction 1 as [|m doms (Hwm & Hl & Hno) _ IH]; [done|].
  cbn [Ranch.locate_all]. by rewrite locate_none.
Qed.

(** ** [extract_fixed] keeps chains of [full] *)

Lemma list_remove_sublist x l l' : list_remove x l = Ok l' → sublist l' l.
Proof.
  revert l'. induction l as [|y l IH]; intros l' H; cbn in H; [done|].
  destruct (decide (y = x)).
  - injection H as <-. by apply sublist_cons.
  - destruct (list_remove x l) as [l''|]; cbn in H; [|done].
    injection H as <-. apply sublist_skip. by apply IH.
Qed.

Lemma try_matches_sublist m full lowm highm matches chains chains' :
  Ranch.try_matches m full lowm highm matches chains = Ok chains' →
  sublist chains' chains.
Proof.
  induction matches as [|index matches IH]; cbn [Ranch.try_matches]; intros H.
  - by injection H as <-.
  - apply bind_Ok in H as (first_res_full & _ & H).
    apply bind_Ok in H as (lowfull & _ & H).
    apply bind_Ok in H as (highfull & _ & H).
    destruct (np_all_eq _ _); [|by apply IH].
    apply bind_Ok in H as (chain_ind & _ & H).
    apply bind_Ok in H as (c & _ & H).
    by eapply list_remove_sublist.
Qed.

Lemma locate_sublist full m chains chains' :
  Ranch.locate full m chains = Ok chains' → sublist chains' chains.
Proof.
  unfold Ranch.locate. destruct (re.search _ _); intros H.
  - apply bind_Ok in H as (first_res_m & _ & H).
    apply bind_Ok in H as (lowm & _ & H).
    apply bind_Ok in H as (highm & _ & H).
    by eapply try_matches_sublist.
  - by injection H as <-.
Qed.

Lemma locate_all_sublist full doms : ∀ chains chains',
  Ranch.locate_all full doms chains = Ok chains' → sublist chains' chains.
Proof.
  induction doms as [|m doms IH]; intros chains chains' H; cbn in H.
  - by injection H as <-.
  - apply bind_Ok in H as (chains1 & H1 & H).
    apply locate_sublist in H1. apply IH in H. by etrans.
Qed.

(** ** Models given by their segment lengths *)

Lemma shape_build m rl cl : shape m rl cl → m = build (atoms m) rl cl (source m).
Proof.
  intros (_ & _ & Hr & Hc & _). destruct m as [ats ri ci src].
  unfold resIndex, chainIndex in *. cbn in *. by subst.
Qed.

Lemma build_shape ats rl cl src :
  Forall (λ l, 0 < l) rl → Forall (λ l, 0 < l) cl →
  sum_list rl = length ats → sum_list cl = length ats →
  shape (build ats rl cl src) rl cl.
Proof. intros. by repeat split. Qed.

Lemma concat_build a1 rl1 cl1 s1 a2 rl2 cl2 s2 :
  sum_list rl1 = length a1 → sum_list cl1 = length a1 →
  concat (build a1 rl1 cl1 s1) (build a2 rl2 cl2 s2)
  = build (a1 ++ a2) (rl1 ++ rl2) (cl1 ++ cl2) None.
Proof.
  intros Hr Hc. unfold concat, build, lenAtoms, resIndex, chainIndex. cbn.
  rewrite !starts_app. cbn [Nat.add].
  rewrite <- (starts_shift 0 (length a1) rl2), <- (starts_shift 0 (length a1) cl2).
  cbn [Nat.add]. by rewrite Hr, Hc.
Qed.

Lemma concat_empty a rl cl s : concat empty (build a rl cl s) = build a rl cl None.
Proof. apply (concat_build [] [] [] None a rl cl s); done. Qed.

Lemma vblocks_one k n : vblocks (numbered k [n]) = replicate n k.
Proof. cbn. by rewrite app_nil_r. Qed.

(** A piece of a model cut out along residue and chain borders. *)
Lemma take_build_middle ats l1 l2 l3 c1 c2 c3 src :
  Forall (λ l, 0 < l) (l1 ++ l2 ++ l3) → Forall (λ l, 0 < l) (c1 ++ c2 ++ c3) →
  sum_list (l1 ++ l2 ++ l3) = length ats →
  sum_list c1 = sum_list l1 → sum_list c2 = sum_list l2 → sum_list c3 = sum_list l3 →
  take (build ats (l1 ++ l2 ++ l3) (c1 ++ c2 ++ c3) src)
       (seq (sum_list l1) (sum_list l2))
  = Ok (build (list.take (sum_list l2) (drop (sum_list l1) ats)) l2 c2 src).
Proof.
  intros Hpr Hpc Hs H1 H2 H3.
  assert (sum_list (c1 ++ c2 ++ c3) = length ats) as Hsc.
  { rewrite <- Hs, !sum_list_with_app. unfold sum_list in *. lia. }
  pose proof (build_shape ats _ _ src Hpr Hpc Hs Hsc) as Hsh.
  rewrite (take_range _ _ _ _ _ Hsh).
  2:{ unfold lenAtoms. cbn. rewrite <- Hs, !sum_list_with_app. lia. }
  cbn [atoms source build]. unfold build. f_equal. f_equal.
  - rewrite vblocks_slice. apply map2index_numbered.
    apply Forall_app in Hpr as [_ Hpr]. by apply Forall_app in Hpr as [Hpr _].
  - rewrite <- H1, <- H2, vblocks_slice. apply map2index_numbered.
    apply Forall_app in Hpc as [_ Hpc]. by apply Forall_app in Hpc as [Hpc _].
Qed.

(** What is left of a model when such a piece is cut out. *)
Lemma take_build_gap ats l1 l2 l3 c1 c2 c3 src :
  Forall (λ l, 0 < l) (l1 ++ l2 ++ l3) → Forall (λ l, 0 < l) (c1 ++ c2 ++ c3) →
  sum_list (l1 ++ l2 ++ l3) = length ats →
  sum_list c1 = sum_list l1 → sum_list c2 = sum_list l2 → sum_list c3 = sum_list l3 →
  take (build ats (l1 ++ l2 ++ l3) (c1 ++ c2 ++ c3) src)
       (seq 0 (sum_list l1) ++ seq (sum_list l1 + sum_list l2) (sum_list l3))
  = Ok (build (list.take (sum_list l1) ats ++ drop (sum_list l1 + sum_list l2) ats)
              (l1 ++ l3) (c1 ++ c3) src).
Proof.
  intros Hpr Hpc Hs H1 H2 H3.
  assert (sum_list (c1 ++ c2 ++ c3) = length ats) as Hsc.
  { rewrite <- Hs, !sum_list_with_app. unfold sum_list in *. lia. }
  pose proof (build_shape ats _ _ src Hpr Hpc Hs Hsc) as Hsh.
  assert (sum_list l1 + sum_list l2 + sum_list l3 = length ats) as Hlen.
  { rewrite <- Hs, !sum_list_with_app. unfold sum_list. lia. }
  rewrite (take_two_ranges _ _ _ _ _ _ _ Hsh)
    by (unfold lenAtoms; cbn; lia).
  cbn [atoms source build]. unfold build. rewrite !drop_0.
  assert (∀ k m1 m2 m3,
    list.take (sum_list m1) (vblocks (numbered k (m1 ++ m2 ++ m3))) ++
    list.take (sum_list m3)
      (drop (sum_list m1 + sum_list m2) (vblocks (numbered k (m1 ++ m2 ++ m3))))
    = vblocks (numbered k m1) ++
      vblocks (numbered (k + length m1 + length m2) m3)) as Hv.
  { intros k m1 m2 m3. f_equal.
    - pose proof (vblocks_slice k [] m1 (m2 ++ m3)) as V.
      cbn [app sum_list sum_list_with length] in V.
      by rewrite drop_0, Nat.add_0_r in V.
    - pose proof (vblocks_slice k (m1 ++ m2) m3 []) as V.
      rewrite app_nil_r, <- app_assoc, sum_list_with_app, length_app in V.
      by rewrite Nat.add_assoc in V. }
  f_equal. f_equal.
  - f_equal. apply take_ge. rewrite length_drop. lia.
  - rewrite Hv. apply map2index_gap; [| |lia].
    + by apply Forall_app in Hpr as [Hpr _].
    + apply Forall_app in Hpr as [_ Hpr]. by apply Forall_app in Hpr as [_ Hpr].
  - rewrite <- H1, <- H2, <- H3, Hv. apply map2index_gap; [| |lia].
    + by apply Forall_app in Hpc as [Hpc _].
    + apply Forall_app in Hpc as [_ Hpc]. by apply Forall_app in Hpc as [_ Hpc].
Qed.

(** The positions left when a range is taken out. *)
Lemma filter_not_in_seq a e b :
  filter (λ k, k ∉ seq a e) (seq 0 (a + e + b)) = seq 0 a ++ seq (a + e) b.
Proof.
  replace (a + e + b) with (a + (e + b)) by lia.
  rewrite !seq_app, !filter_app. cbn [Nat.add].
  assert (∀ l : list nat, Forall (λ k, k ∉ seq a e) l →
            filter (λ k, k ∉ seq a e) l = l) as Hkeep.
  { induction 1 as [|x l Hx _ IH]; [done|].
    by rewrite filter_cons_True, IH. }
  assert (∀ l : list nat, Forall (λ k, k ∈ seq a e) l →
            filter (λ k, k ∉ seq a e) l = []) as Hdrop.
  { induction 1 as [|x l Hx _ IH]; [done|].
    by rewrite filter_cons_False by (intros Hn; by apply Hn). }
  rewrite Hkeep, Hdrop, Hkeep; [done|..].
  - apply Forall_forall. intros x Hx Hx'.
    apply elem_of_seq in Hx, Hx'. lia.
  - apply Forall_forall. by intros x Hx.
  - apply Forall_forall. intros x Hx Hx'.
    apply elem_of_seq in Hx, Hx'. lia.
Qed.

Lemma map2index_replicate q v : 0 < q → map2index (replicate q v) = [0].
Proof.
  intros Hq. rewrite <- vblocks_one. by rewrite map2index_numbered by (by constructor).
Qed.

(** ** Embedding into a host of one chain *)

Lemma embed_single dom emb r0 r1 rest n rl_e cl_e :
  shape dom (r0 :: r1 :: rest) [n] → 0 < sum_list rest → shape emb rl_e cl_e →
  Ranch.embed dom emb =
    Ok (build (list.take (r0 + r1) (atoms dom) ++ atoms emb ++
               drop (r0 + r1) (atoms dom))
              ([r0; r1] ++ rl_e ++ rest)
              ([r0 + r1] ++ cl_e ++ [sum_list rest]) None).
Proof.
  intros Hs Hrest He.
  pose proof Hs as (Hpr & Hpc & Hr & Hc & Hsr & Hsc).
  pose proof He as (Hpr' & Hpc' & Hr' & Hc' & Hsr' & Hsc').
  apply Forall_cons in Hpr as [H0 Hpr]. apply Forall_cons in Hpr as [H1 Hpr].
  change (sum_list (r0 :: r1 :: rest)) with (r0 + (r1 + sum_list rest)) in Hsr.
  change (sum_list [n]) with (n + 0) in Hsc.
  rewrite (embed_pieces _ _ _ _ _ _ Hs)
    by (intros ->; cbn in Hrest; lia).
  f_equal.
  rewrite vblocks_one, take_replicate, drop_replicate.
  rewrite !map2index_replicate by lia.
  rewrite (shape_build emb _ _ He) at 1.
  change (mkModel ?a [0; r0] [0] ?s) with (build a [r0; r1] [r0 + r1] s).
  change [0] with (starts 0 [sum_list rest]).
  change (mkModel ?a (starts 0 rest) (starts 0 [sum_list rest]) ?s)
    with (build a rest [sum_list rest] s).
  unfold lenAtoms in *.
  rewrite concat_build by (cbn; rewrite length_take; lia).
  rewrite concat_build.
  - by rewrite <- !app_assoc.
  - rewrite sum_list_with_app, length_app, length_take. cbn. lia.
  - rewrite sum_list_with_app, length_app, length_take. cbn. lia.
Qed.

(** ** The steps of [extract_embedded] *)

Lemma inplace_bind_Ok {A B} (c : inplace A) (f : A → inplace B) m m' a :
  c m = (m', Ok a) → (c ≫= f) m = f a m'.
Proof. intros H. unfold mbind, inplace_bind. by rewrite H. Qed.

Lemma codes_ext ats ats' index :
  map residue_code ats = map residue_code ats' → codes ats index = codes ats' index.
Proof.
  intros H. induction index as [|k index IH]; [done|].
  unfold codes in *. cbn. rewrite IH. f_equal.
  change (residue_code <$> ats !! k) with (fmap (M:=option) residue_code (ats !! k)).
  rewrite <- !list_lookup_fmap.
  change (residue_code <$> ats) with (map residue_code ats).
  change (residue_code <$> ats') with (map residue_code ats').
  by rewrite H.
Qed.

Lemma slice_middle s1 s2 s3 :
  Py.slice (s1 +:+ s2 +:+ s3) (Py.len s1) (Py.len s1 + Py.len s2) = s2.
Proof.
  unfold Py.slice. rewrite !chars_app, !len_chars.
  rewrite drop_app_length.
  replace (length (Py.chars s1) + length (Py.chars s2) - length (Py.chars s1))
    with (length (Py.chars s2)) by lia.
  rewrite take_app_length. apply str_chars.
Qed.

Lemma vblocks_numbered_lt k lens :
  Forall (λ v, v < k + length lens) (vblocks (numbered k lens)).
Proof.
  revert k. induction lens as [|l lens IH]; intros k; [done|].
  cbn [numbered vblocks length]. apply Forall_app. split.
  - apply Forall_replicate. lia.
  - eapply Forall_impl; [apply IH|]. cbn. intros; lia.
Qed.

(** [addChainId] on a model with at most 26 chains: the atoms get new chain
    ids and nothing else changes. *)
Lemma addChainId_shape m rl cl :
  shape m rl cl → length cl ≤ 26 →
  ∃ ats, addChainId m = Ok (mkModel ats (resIndex m) (chainIndex m) (source m)) ∧
    map residue_code ats = map residue_code (atoms m) ∧
    map xyz ats = map xyz (atoms m).
Proof.
  intros Hs Hlen. unfold addChainId.
  rewrite (shape_chainMap _ _ _ Hs).
  pose proof (vblocks_numbered_lt 0 cl) as Hlt.
  pose proof (length_vblocks_numbered 0 cl) as Hl.
  destruct Hs as (_ & _ & _ & _ & _ & Hsc). rewrite Hsc in Hl. unfold lenAtoms in Hl.
  clear Hsc. revert Hl Hlt. generalize (vblocks (numbered 0 cl)) as cm.
  generalize (resIndex m), (chainIndex m), (source m).
  induction (atoms m) as [|x ats IH]; intros ri ci src cm Hl Hlt.
  - destruct cm; [|done]. by exists [].
  - destruct cm as [|c cm]; [done|]. injection Hl as Hl.
    apply Forall_cons in Hlt as [Hc Hlt].
    destruct (IH ri ci src cm Hl Hlt) as (ats' & Hats & Hrc & Hxyz).
    destruct (lookup_lt_is_Some_2 letters c) as [cid Hcid].
    { change (length letters) with 26. cbn in Hc. lia. }
    exists (set_chain_id cid x :: ats'). cbn [zip zip_with mapR].
    rewrite Hcid. cbn [or_raise mbind outcome_bind].
    apply bind_Ok in Hats as (ats'' & -> & Heq). injection Heq as <-.
    cbn. by rewrite Hrc, Hxyz.
Qed.

Lemma imap_preserves {A B} (g : A → B) l : ∀ f : nat → A → A,
  (∀ k x, g (f k x) = g x) → map g (imap f l) = map g l.
Proof.
  induction l as [|x l IH]; intros f Hf; [done|].
  cbn. rewrite Hf. f_equal. apply IH. intros k y. apply Hf.
Qed.

(** [renumberResidues] on a model given by its segment lengths: the atoms
    keep their place, code, chain and coordinates. *)
Lemma renumberResidues_build ats rl cl src :
  ∃ ats',
    renumberResidues (build ats rl cl src) = build ats' rl cl src ∧
    length ats' = length ats ∧
    map residue_code ats' = map residue_code ats ∧
    map chain_id ats' = map chain_id ats ∧
    map xyz ats' = map xyz ats.
Proof.
  eexists. split; [reflexivity|]. split; [apply length_imap|].
  repeat split; apply imap_preserves; intros k y; by destruct (_ !! k).
Qed.

Section RoundTrip.

Variables (dom emb : PDBModel) (r0 r1 n : nat) (rest rl_e cl_e : list nat).
Hypothesis Hdom : shape dom (r0 :: r1 :: rest) [n].
Hypothesis Hrest : rest ≠ [].
Hypothesis Hemb : shape emb rl_e cl_e.
Hypothesis Hres : rl_e ≠ [].

Let a := r0 + r1.
Let full :=
  build (list.take a (atoms dom) ++ atoms emb ++ drop a (atoms dom))
        ([r0; r1] ++ rl_e ++ rest) ([a] ++ cl_e ++ [sum_list rest]) None.

Local Lemma rt_facts :
  0 < r0 ∧ 0 < r1 ∧ Forall (λ l, 0 < l) rest ∧ 0 < sum_list rest ∧
  length (atoms dom) = a + sum_list rest ∧ n = a + sum_list rest ∧
  length (atoms emb) = sum_list rl_e ∧ sum_list cl_e = sum_list rl_e ∧
  Forall (λ l, 0 < l) rl_e ∧ Forall (λ l, 0 < l) cl_e.
Proof.
  destruct Hdom as (Hpr & Hpc & Hr & Hc & Hsr & Hsc).
  destruct Hemb as (Hpr' & Hpc' & Hr' & Hc' & Hsr' & Hsc').
  apply Forall_cons in Hpr as [H0 Hpr]. apply Forall_cons in Hpr as [H1 Hpr].
  change (sum_list (r0 :: r1 :: rest)) with (r0 + (r1 + sum_list rest)) in Hsr.
  change (sum_list [n]) with (n + 0) in Hsc.
  unfold lenAtoms, a in *. repeat split; try done; try lia.
  destruct rest as [|l rest']; [done|].
  apply Forall_cons in Hpr as [Hl _]. cbn. lia.
Qed.

Local Lemma rt_full_shape_r : Forall (λ l, 0 < l) ([r0; r1] ++ rl_e ++ rest).
Proof.
  destruct rt_facts as (? & ? & ? & ? & ? & ? & ? & ? & ? & ?).
  repeat (apply Forall_app; split); try done. by repeat constructor.
Qed.

Local Lemma rt_full_shape_c : Forall (λ l, 0 < l) ([a] ++ cl_e ++ [sum_list rest]).
Proof.
  destruct rt_facts as (? & ? & ? & ? & ? & ? & ? & ? & ? & ?).
  repeat (apply Forall_app; split); try done; repeat constructor; unfold a; lia.
Qed.

Local Lemma rt_full_len :
  sum_list ([r0; r1] ++ rl_e ++ rest)
  = length (list.take a (atoms dom) ++ atoms emb ++ drop a (atoms dom)).
Proof.
  destruct rt_facts as (? & ? & ? & ? & ? & ? & ? & ? & ? & ?).
  rewrite !sum_list_with_app, !length_app, length_take, length_drop.
  cbn. unfold a in *. lia.
Qed.

Local Lemma rt_embed : Ranch.embed dom emb = Ok full.
Proof.
  destruct rt_facts as (? & ? & ? & ? & ? & ? & ? & ? & ? & ?).
  by apply (embed_single dom emb r0 r1 rest n rl_e cl_e).
Qed.

Local Lemma rt_wf_dom : wf dom = true.
Proof. apply wf_shape. eauto. Qed.

Local Lemma rt_wf_emb : wf emb = true.
Proof. apply wf_shape. eauto. Qed.

Local Lemma rt_len_emb : Py.len (sequence emb) = length rl_e.
Proof.
  rewrite (len_sequence _ rt_wf_emb). unfold lenResidues.
  destruct Hemb as (_ & _ & -> & _). apply length_starts.
Qed.

Local Lemma rt_slice :
  Py.slice (sequence full) 2 (2 + Py.len (sequence emb)) = sequence emb.
Proof.
  assert (3 ≤ lenResidues dom) as H2.
  { unfold lenResidues. destruct Hdom as (_ & _ & -> & _).
    rewrite length_starts. destruct rest; [done | cbn; lia]. }
  destruct (embed_sequence dom emb rt_wf_dom rt_wf_emb H2) as (full' & Hf & Hseq).
  rewrite rt_embed in Hf. injection Hf as <-. rewrite Hseq.
  assert (Py.len (Py.slice (sequence dom) 0 2) = 2) as Hl.
  { unfold Py.slice. rewrite len_chars, chars_str, length_take, drop_0.
    rewrite <- len_chars, (len_sequence _ rt_wf_dom). unfold lenResidues.
    destruct Hdom as (_ & _ & -> & _). rewrite length_starts. cbn. lia. }
  pose proof (slice_middle (Py.slice (sequence dom) 0 2) (sequence emb)
                (Py.slice_from (sequence dom) 2)) as Hm.
  by rewrite Hl in Hm.
Qed.

Local Lemma rt_part :
  takeResidues full (seq 2 (length rl_e)) = Ok (build (atoms emb) rl_e cl_e None).
Proof.
  destruct rt_facts as (? & ? & ? & ? & HA & ? & HE & HC & ? & ?).
  unfold takeResidues, res2atomIndices.
  change (resIndex full) with (starts 0 ([r0; r1] ++ rl_e ++ rest)).
  replace (lenAtoms full) with (sum_list ([r0; r1] ++ rl_e ++ rest))
    by apply rt_full_len.
  pose proof (extendIndex_middle [r0; r1] rl_e rest Hres) as Hx.
  change (length [r0; r1]) with 2 in Hx. rewrite Hx. cbn [mbind outcome_bind].
  unfold full.
  rewrite take_build_middle;
    [| apply rt_full_shape_r | apply rt_full_shape_c | apply rt_full_len
     | cbn; unfold a; lia | done | cbn; lia ].
  do 2 f_equal. change (sum_list [r0; r1]) with (r0 + (r1 + 0)).
  rewrite Nat.add_0_r. fold a.
  rewrite drop_app_length' by (rewrite length_take; lia).
  by rewrite take_app_length'.
Qed.

Local Lemma rt_collect :
  Ranch.collect full [(emb, 2)] empty []
  = Ok (build (atoms emb) rl_e cl_e None, [(2, 2 + length rl_e)]).
Proof.
  cbn [Ranch.collect]. rewrite decide_True by apply rt_slice.
  rewrite rt_len_emb.
  replace (2 + length rl_e - 2) with (length rl_e) by lia.
  rewrite rt_part. cbn [mbind outcome_bind]. by rewrite concat_empty.
Qed.


Local Lemma rt_lookup_start : resIndex full !! 2 = Some a.
Proof.
  change (resIndex full) with (starts 0 ([r0; r1] ++ rl_e ++ rest)).
  assert (0 < length rest) by (destruct rest; [done | cbn; lia]).
  rewrite lookup_starts by (rewrite !length_app; cbn [length]; lia).
  change (list.take 2 ([r0; r1] ++ rl_e ++ rest)) with [r0; r1].
  f_equal. change (sum_list [r0; r1]) with (r0 + (r1 + 0)). unfold a. lia.
Qed.

Local Lemma rt_lookup_end :
  resIndex full !! (2 + length rl_e) = Some (a + sum_list rl_e).
Proof.
  change (resIndex full) with (starts 0 ([r0; r1] ++ rl_e ++ rest)).
  assert (0 < length rest) by (destruct rest; [done | cbn; lia]).
  rewrite lookup_starts by (rewrite !length_app; cbn [length]; lia).
  f_equal. rewrite app_assoc.
  rewrite take_app_length' by (rewrite length_app; done).
  rewrite sum_list_with_app.
  change (sum_list_with id [r0; r1]) with (r0 + (r1 + 0)). unfold a. lia.
Qed.

Local Lemma rt_remove :
  remove full (seq a (sum_list rl_e))
  = Ok (build (atoms dom) (r0 :: r1 :: rest) [a; sum_list rest] None).
Proof.
  destruct rt_facts as (? & ? & ? & ? & HA & ? & HE & HC & ? & ?).
  assert (lenAtoms full = a + sum_list rl_e + sum_list rest) as Hlen.
  { unfold lenAtoms, full. cbn [atoms build]. rewrite <- rt_full_len.
    rewrite !sum_list_with_app. cbn. unfold a. lia. }
  unfold remove. rewrite bool_decide_eq_true_2.
  2:{ apply Forall_forall. intros x Hx%elem_of_seq. lia. }
  rewrite Hlen, filter_not_in_seq.
  pose proof (take_build_gap
                (list.take a (atoms dom) ++ atoms emb ++ drop a (atoms dom))
                [r0; r1] rl_e rest [a] cl_e [sum_list rest] None
                rt_full_shape_r rt_full_shape_c rt_full_len) as Hg.
  replace (sum_list [r0; r1]) with a in Hg by (cbn; unfold a; lia).
  fold full in Hg. rewrite Hg; [| cbn; lia | done | cbn; lia].
  unfold build. f_equal. f_equal.
  rewrite take_app_length' by (rewrite length_take; lia).
  rewrite app_assoc, drop_app_length'
    by (rewrite length_app, length_take; lia).
  apply take_drop.
Qed.

Local Lemma rt_cut :
  Ranch.cut (2, 2 + length rl_e) full
  = (build (atoms dom) (r0 :: r1 :: rest) [a; sum_list rest] None, Ok ()).
Proof.
  unfold Ranch.cut.
  rewrite (inplace_bind_Ok _ _ full full a)
    by (unfold reading; cbn [fst]; by rewrite rt_lookup_start).
  rewrite (inplace_bind_Ok _ _ full full (a + sum_list rl_e))
    by (unfold reading; cbn [snd]; by rewrite rt_lookup_end).
  unfold changing.
  replace (a + sum_list rl_e - a) with (sum_list rl_e) by lia.
  by rewrite rt_remove.
Qed.

Local Lemma rt_merge :
  ∃ ats,
    mergeChains (build (atoms dom) (r0 :: r1 :: rest) [a; sum_list rest] None) 0
    = Ok (build ats (r0 :: r1 :: rest) [n] None) ∧
    length ats = length (atoms dom) ∧
    map residue_code ats = map residue_code (atoms dom) ∧
    map xyz ats = map xyz (atoms dom).
Proof.
  destruct rt_facts as (? & ? & ? & ? & HA & ? & HE & HC & ? & ?).
  unfold mergeChains, build, chainIndex, lenAtoms. cbn [_chainIndex atoms starts].
  destruct (atoms dom) as [|x ats] eqn:Hats; [cbn in HA; lia|].
  cbn [lookup list_lookup or_raise mbind outcome_bind delete list_delete].
  eexists. split; [reflexivity|]. split; [apply length_imap|].
  split; apply imap_preserves; intros k y; by case_bool_decide.
Qed.

Local Lemma rt_extract :
  length cl_e ≤ 25 →
  ∃ ats,
    (Ranch.extract_embedded [(emb, 2)] full).2
    = Ok (mkModel ats (resIndex (concat dom emb)) (chainIndex (concat dom emb)) None) ∧
    map residue_code ats = map residue_code (atoms dom ++ atoms emb) ∧
    map xyz ats = map xyz (atoms dom ++ atoms emb).
Proof.
  intros Hlen.
  destruct rt_facts as (? & ? & ? & ? & HA & ? & HE & HC & ? & ?).
  destruct rt_merge as (ats1 & Hmerge & Hl1 & Hrc1 & Hxyz1).
  destruct (renumberResidues_build ats1 (r0 :: r1 :: rest) [n] None)
    as (ats2 & Hren & Hl2 & Hrc2 & _ & Hxyz2).
  rewrite Hl1 in Hl2. rewrite Hrc1 in Hrc2. rewrite Hxyz1 in Hxyz2.
  assert (shape (build (ats2 ++ atoms emb) ((r0 :: r1 :: rest) ++ rl_e)
                       ([n] ++ cl_e) None)
                ((r0 :: r1 :: rest) ++ rl_e) ([n] ++ cl_e)) as Hsh.
  { apply build_shape.
    - apply Forall_app. split; [|done]. by repeat constructor.
    - apply Forall_app. split; [|done]. repeat constructor. lia.
    - rewrite sum_list_with_app, length_app. cbn. unfold a in *. lia.
    - rewrite sum_list_with_app, length_app. cbn. unfold a in *. lia. }
  destruct (addChainId_shape _ _ _ Hsh) as (ats3 & Hadd & Hrc3 & Hxyz3).
  { rewrite length_app. cbn. lia. }
  unfold build in Hrc3, Hxyz3. cbn [atoms] in Hrc3, Hxyz3.
  exists ats3. split; [|split].
  - unfold Ranch.extract_embedded.
    rewrite (inplace_bind_Ok _ _ full full
               (build (atoms emb) rl_e cl_e None, [(2, 2 + length rl_e)]))
      by (unfold reading; by rewrite rt_collect).
    cbn [sorted_desc foldr insert_desc for_each].
    rewrite (inplace_bind_Ok _ _ full
               (build (atoms dom) (r0 :: r1 :: rest) [a; sum_list rest] None) ())
      by (by rewrite (inplace_bind_Ok _ _ _ _ _ rt_cut)).
    erewrite inplace_bind_Ok by reflexivity.
    cbn [lenChains chainIndex _chainIndex build starts length Nat.sub seq for_each].
    rewrite (inplace_bind_Ok _ _ _ (build ats1 (r0 :: r1 :: rest) [n] None) ())
      by (erewrite inplace_bind_Ok; [reflexivity|];
          unfold changing; by rewrite Hmerge).
    rewrite (inplace_bind_Ok _ _ _ (build ats2 (r0 :: r1 :: rest) [n] None) ())
      by (unfold changing; by rewrite Hren).
    unfold reading. cbn [snd].
    rewrite concat_build by (cbn; unfold a in *; lia).
    rewrite Hadd. cbn [fmap outcome_fmap]. unfold set_serial_number.
    f_equal.
    rewrite (shape_build dom _ _ Hdom), (shape_build emb _ _ Hemb).
    rewrite concat_build by (cbn; unfold a, lenAtoms in *; lia).
    done.
  - by rewrite Hrc3, !map_app, Hrc2.
  - by rewrite Hxyz3, !map_app, Hxyz2.
Qed.

End RoundTrip.

(** C1 (amended).  Round trip at the sequence level, for a model to embed
    that has atoms (without a residue to take, the extraction stops with a
    [ValueError]) and at most 25 chains (the chains of the result are named
    with the 26 letters): for a host [dom] of one chain and at least 3
    residues, [extract_embedded(embed(dom, to_embed), {to_embed: 2})]
    returns a model whose sequence is
    [dom.sequence() + to_embed.sequence()]; its residues, chains and
    coordinates are those of [dom.concat(to_embed)]: the host as the first
    chain, the chains of the embedded model after it. *)
Theorem Ranch_embed_extract_round_trip dom to_embed :
  wf dom = true → lenChains dom = 1 → 3 ≤ lenResidues dom →
  wf to_embed = true → 0 < lenAtoms to_embed → lenChains to_embed ≤ 25 →
  ∃ full r,
    Ranch.embed dom to_embed = Ok full ∧
    (Ranch.extract_embedded [(to_embed, 2)] full).2 = Ok r ∧
    sequence r = sequence dom +:+ sequence to_embed ∧
    resIndex r = resIndex (concat dom to_embed) ∧
    chainIndex r = 0 :: map (λ k, k + lenAtoms dom) (chainIndex to_embed) ∧
    map xyz (atoms r) = map xyz (atoms dom) ++ map xyz (atoms to_embed).
Proof.
  intros Hwd Hc1 Hr3 Hwe Hpos Hc25.
  apply wf_shape in Hwd as (rl & cl & Hd).
  apply wf_shape in Hwe as (rl_e & cl_e & He).
  pose proof Hd as (Hpr & Hpc & Hr & Hc & Hsr & Hsc).
  unfold lenChains in Hc1, Hc25. unfold lenResidues in Hr3.
  rewrite Hc, length_starts in Hc1. rewrite Hr, length_starts in Hr3.
  destruct He as (He1 & He2 & He3 & He4 & He5 & He6).
  rewrite He4, length_starts in Hc25.
  assert (shape to_embed rl_e cl_e) as He by done.
  assert (rl_e ≠ []) as Hres by (intros ->; cbn in He5; lia).
  destruct cl as [|n [|]]; try done.
  destruct rl as [|r0 [|r1 rest]]; cbn in Hr3; try lia.
  assert (rest ≠ []) as Hrest by (destruct rest; [cbn in Hr3; lia | done]).
  destruct (rt_extract dom to_embed r0 r1 n rest rl_e cl_e Hd Hrest He Hres Hc25)
    as (ats & Hx & Hrc & Hxyz).
  eexists _, _. split; [by eapply rt_embed|]. split; [exact Hx|].
  cbn [atoms resIndex chainIndex _resIndex _chainIndex].
  split; [|split; [done|split]].
  - rewrite sequence_codes. cbn [atoms resIndex _resIndex].
    rewrite (codes_ext _ _ _ Hrc).
    rewrite <- sequence_concat by (by eapply shape_resIndex_lt).
    done.
  - unfold concat. cbn [_chainIndex]. by rewrite Hc.
  - by rewrite Hxyz, map_app.
Qed.

(** ** Temporary directories *)

Lemma mkdtemp_fresh prefix dir (fs : FS) :
  fs !! (mkdtemp prefix dir fs).1 = None ∧
  (mkdtemp prefix dir fs).2 = <[(mkdtemp prefix dir fs).1 := Dir]> fs.
Proof. split; [apply fresh_string_fresh | done]. Qed.

Lemma tryRemove_tree_under root (fs : FS) p :
  under root p = true → tryRemove_tree root fs !! p = None.
Proof.
  intros Hu. unfold tryRemove_tree. apply map_lookup_filter_None. right.
  intros x _ Hn. cbn in Hn. by rewrite Hu in Hn.
Qed.

Lemma tryRemove_None f (fs : FS) p : fs !! p = None → tryRemove f fs !! p = None.
Proof.
  intros H. unfold tryRemove. destruct (fs !! f) as [[]|]; try done.
  all: destruct (decide (f = p)) as [->|];
    [by rewrite lookup_delete_eq | by rewrite lookup_delete_ne].
Qed.

Lemma Executor_cleanup_None e (fs : FS) p :
  fs !! p = None → Executor.cleanup e fs !! p = None.
Proof.
  intros H. unfold Executor.cleanup, Executor.remove_opt.
  repeat (case_match; try apply tryRemove_None); done.
Qed.

Lemma Executor_cleanup_debug e (fs : FS) :
  Executor.debug e = true → Executor.cleanup e fs = fs.
Proof.
  intros H. unfold Executor.cleanup. rewrite H. cbn.
  by rewrite !andb_false_r.
Qed.

Lemma app_ne_self (a x : string) : x ≠ "" → a +:+ x ≠ a.
Proof.
  intros Hx H. apply Hx. apply (String.app_inj a).
  by rewrite H, str_app_nil_r.
Qed.

Lemma path_join_ne a : path_join a "model.pdb" ≠ a.
Proof.
  unfold path_join. cbn [String.prefix].
  destruct (_ || _); by apply app_ne_self.
Qed.

(** C7.  For Ranch and for Pulchra alike, [cleanup] removes the whole tree
    of the temporary directory of the call when [debug] is false and leaves
    the file system as it is when [debug] is true; the constructor makes
    the temporary directory anew: it did not exist before the call and is
    a directory after it. *)
Theorem cleanup_and_tempdir_spec :
  (∀ (self : Ranch.t) (fs : FS),
     let tempdir := Executor.tempdir (Ranch.exe self) in
     (Executor.debug (Ranch.exe self) = false →
      ∀ p, under tempdir p = true → Ranch.cleanup self fs !! p = None) ∧
     (Executor.debug (Ranch.exe self) = true → Ranch.cleanup self fs = fs)) ∧
  (∀ (self : Pulchra.t) (fs : FS),
     let tempdir := Executor.tempdir (Pulchra.exe self) in
     (Executor.debug (Pulchra.exe self) = false →
      ∀ p, under tempdir p = true → Pulchra.cleanup self fs !! p = None) ∧
     (Executor.debug (Pulchra.exe self) = true → Pulchra.cleanup self fs = fs)) ∧
  (∀ tmp domains chains symmetry symtemplate symunit overall_sym fixed multich
     debug (fs fs' : FS) self,
     Ranch.__init__ tmp domains chains symmetry symtemplate symunit overall_sym
                    fixed multich debug fs = (fs', Ok self) →
     let tempdir := Executor.tempdir (Ranch.exe self) in
     fs !! tempdir = None ∧ fs' !! tempdir = Some Dir ∧
     Executor.debug (Ranch.exe self) = debug) ∧
  (∀ tmp here model debug (fs fs' : FS) self,
     Pulchra.__init__ tmp here model debug fs = (fs', self) →
     let tempdir := Executor.tempdir (Pulchra.exe self) in
     fs !! tempdir = None ∧ fs' !! tempdir = Some Dir ∧
     Executor.debug (Pulchra.exe self) = debug).
Proof.
  split; [|split; [|split]].
  - intros self fs tempdir. unfold Ranch.cleanup. fold tempdir. split.
    + intros -> p Hp. cbn. by apply Executor_cleanup_None, tryRemove_tree_under.
    + intros Hd. rewrite Hd. cbn. by apply Executor_cleanup_debug.
  - intros self fs tempdir. unfold Pulchra.cleanup. fold tempdir. split.
    + intros -> p Hp. cbn. by apply tryRemove_tree_under.
    + by intros ->.
  - intros tmp domains chains symmetry symtemplate symunit overall_sym fixed
      multich debug fs fs' self H.
    unfold Ranch.__init__ in H.
    destruct (mkdtemp_fresh "ranch_" tmp fs) as [Hf1 Hi1].
    destruct (mkdtemp "ranch_" tmp fs) as [tempdir fs1]. cbn in Hf1, Hi1.
    destruct (mkdtemp_fresh "models_" tempdir fs1) as [Hf2 Hi2].
    destruct (mkdtemp "models_" tempdir fs1) as [dir_models fs2]. cbn in Hf2, Hi2.
    injection H as <- H.
    apply bind_Ok in H as (code & _ & H).
    apply bind_Ok in H as (su & _ & H).
    apply bind_Ok in H as (self1 & Hsetup & H). injection H as <-.
    apply setup_config in Hsetup. unfold config in Hsetup. cbn in Hsetup.
    assert (Ranch.exe self1
            = Executor.__init__ "ranch" tempdir (Some tempdir) "" debug) as ->
      by by simplify_eq.
    cbn. split; [done|]. split; [|done]. subst fs2 fs1.
    rewrite lookup_insert_ne, lookup_insert_eq; [done|].
    intros ->. by rewrite lookup_insert_eq in Hf2.
  - intros tmp here model debug fs fs' self H.
    unfold Pulchra.__init__ in H.
    destruct (mkdtemp_fresh "pulchra_" tmp fs) as [Hf1 Hi1].
    destruct (mkdtemp "pulchra_" tmp fs) as [tempdir fs1]. cbn in Hf1, Hi1.
    injection H as <- <-. cbn. split; [done|]. split; [|done]. subst fs1.
    rewrite lookup_insert_ne by apply path_join_ne.
    by rewrite lookup_insert_eq.
Qed.

(** ** [finish] *)

Lemma mapR_Forall2 {A B} (f : A → outcome B) l rs :
  mapR f l = Ok rs ↔ Forall2 (λ x r, f x = Ok r) l rs.
Proof.
  revert rs. induction l as [|x l IH]; intros rs; cbn.
  - split.
    + intros H. injection H as <-. constructor.
    + by intros ->%Forall2_nil_inv_l.
  - split.
    + intros H. apply bind_Ok in H as (y & Hy & H).
      apply bind_Ok in H as (ys & Hys & H). injection H as <-.
      constructor; [done|]. by apply IH.
    + intros (y & ys & Hy & Hys & ->)%Forall2_cons_inv_l.
      apply IH in Hys. by rewrite Hy, Hys.
Qed.

Lemma mapR_exists {A B} (f : A → outcome B) (P : B → Prop) l :
  (∀ x, x ∈ l → ∃ y, f x = Ok y ∧ P y) →
  ∃ ys, mapR f l = Ok ys ∧ Forall P ys ∧ length ys = length l.
Proof.
  induction l as [|x l IH]; intros H.
  - exists []. by repeat split.
  - destruct (H x) as (y & Hy & HP); [by left|].
    destruct IH as (ys & Hys & HPs & Hlen); [intros z Hz; apply H; by right|].
    exists (y :: ys). cbn [mapR]. rewrite Hy, Hys. cbn.
    repeat split; [by constructor | by rewrite Hlen].
Qed.

Lemma mapR_map {A B C} (f : B → outcome C) (g : A → B) l :
  mapR f (map g l) = mapR (λ x, f (g x)) l.
Proof. induction l as [|x l IH]; cbn; [done|]. by rewrite IH. Qed.

Lemma path_join_model a : ∃ y, path_join a "model.pdb" = y +:+ "model.pdb".
Proof.
  unfold path_join. cbn [String.prefix]. destruct (_ || _).
  - by exists a.
  - exists (a +:+ "/"). by rewrite str_app_assoc.
Qed.

Lemma drop_last3_model (y : string) :
  Pulchra.drop_last3 (y +:+ "model.pdb") = y +:+ "model.".
Proof.
  unfold Pulchra.drop_last3, Py.slice.
  rewrite len_chars, chars_app, drop_0, length_app.
  change (length (Py.chars "model.pdb")) with 9.
  replace (length (Py.chars y) + 9 - 3 - 0) with (length (Py.chars y) + 6) by lia.
  rewrite take_app_add. rewrite str_app, str_chars. done.
Qed.

(** *** The listing of a directory *)

Lemma entry_name_Some d p f :
  entry_name d p = Some f ↔
  p = d +:+ "/" +:+ f ∧ f ≠ "" ∧ ("/"%char ∉ Py.chars f).
Proof.
  unfold entry_name. split.
  - destruct (Py.starts _ _) eqn:Hs; [|done].
    apply starts_spec in Hs as [r Hr]. rewrite Hr, drop_app_length.
    case_bool_decide as Hc; [|done]. intros [= <-]. destruct Hc as [Hne Hno].
    rewrite chars_str. split; [|split; [|done]].
    + apply chars_inj. rewrite Hr, !chars_app, chars_str. by rewrite app_assoc.
    + intros E. apply (f_equal Py.chars) in E. by rewrite chars_str in E.
  - intros (-> & Hne & Hno).
    assert (Py.chars (d +:+ "/" +:+ f) = Py.chars (d +:+ "/") ++ Py.chars f) as ->
      by (by rewrite !chars_app, app_assoc).
    assert (Py.starts (Py.chars (d +:+ "/")) (Py.chars (d +:+ "/") ++ Py.chars f) = true)
      as -> by (apply starts_spec; by eexists).
    rewrite drop_app_length, bool_decide_eq_true_2, str_chars; [done|].
    split; [|done]. intros E. apply Hne, chars_inj. by rewrite E.
Qed.

Lemma NoDup_omap_inj {A B} (g : A → option B) (l : list A) :
  NoDup l →
  (∀ x y b, x ∈ l → y ∈ l → g x = Some b → g y = Some b → x = y) →
  NoDup (omap g l).
Proof.
  induction 1 as [|x l Hx Hnd IH]; intros Hinj; [constructor|].
  cbn [omap list_omap]. 
  assert (NoDup (omap g l)) as Hrec.
  { apply IH. intros y z b Hy Hz. apply Hinj; by right. }
  destruct (g x) as [b|] eqn:Hgx; [|done].
  constructor; [|done].
  intros Hin. apply list_elem_of_omap in Hin as (y & Hy & Hgy).
  apply Hx. rewrite (Hinj x y b); [done | by left | by right | done | done].
Qed.

(** [listdir] lists every entry of the directory once. *)
Lemma listdir_spec d (fs : FS) files :
  listdir d fs = Ok files →
  fs !! d = Some Dir ∧ NoDup files ∧ ∀ f, f ∈ files ↔ entry_of d fs f.
Proof.
  unfold listdir. destruct (fs !! d) as [[| |]|] eqn:Hd; try done.
  intros [= <-]. split; [done|]. split.
  - apply NoDup_omap_inj; [apply NoDup_map_to_list|].
    intros [p1 n1] [p2 n2] f H1 H2 E1 E2. cbn [fst] in E1, E2.
    apply entry_name_Some in E1 as (-> & _). apply entry_name_Some in E2 as (-> & _).
    apply elem_of_map_to_list in H1, H2. congruence.
  - intros f. rewrite list_elem_of_omap. unfold entry_of. split.
    + intros ([p n] & Hin & E). cbn [fst] in E.
      apply entry_name_Some in E as (-> & Hne & Hno).
      apply elem_of_map_to_list in Hin. by rewrite Hin.
    + intros (Hne & Hno & [n Hn]). exists (d +:+ "/" +:+ f, n). split.
      * by apply elem_of_map_to_list.
      * by apply entry_name_Some.
Qed.

Lemma listdir_Ok d (fs : FS) : fs !! d = Some Dir → is_Ok (listdir d fs).
Proof. intros H. unfold listdir. rewrite H. by eexists. Qed.

Lemma listdir_Raise d (fs : FS) : fs !! d ≠ Some Dir → listdir d fs = Raise OSError.
Proof. unfold listdir. by destruct (fs !! d) as [[| |]|]. Qed.

(** *** Renumbering *)

Lemma imap_lookup_map {A B C} (f : B → A → A) (g : A → C) (h : B → C) (l : list B) :
  ∀ (ats : list A), length l = length ats → (∀ b a, g (f b a) = h b) →
  map g (imap (λ k a, match l !! k with Some b => f b a | None => a end) ats)
  = map h l.
Proof.
  induction l as [|b l IH]; intros [|a ats] Hlen Hg; try done.
  cbn [imap map]. f_equal; [apply Hg|].
  apply IH; [by injection Hlen | done].
Qed.

Lemma residue_numbers_shape m rl cl k l :
  shape m rl cl → rl !! k = Some l →
  residue_numbers m k
  = list.take l (drop (sum_list (list.take k rl)) (map residue_number (atoms m))).
Proof.
  intros (_ & _ & Hr & _ & Hs & _) Hk.
  pose proof (lookup_lt_Some _ _ _ Hk) as Hlt.
  unfold residue_numbers. rewrite Hr, (lookup_starts 0 rl k Hlt). cbn [Nat.add].
  rewrite skipn_map, firstn_map. do 2 f_equal.
  destruct (decide (S k < length rl)) as [Hlt'|Hge].
  - rewrite (lookup_starts 0 rl (S k) Hlt'). cbn.
    rewrite (sum_list_take_S _ _ _ Hk). lia.
  - rewrite lookup_starts_ge by lia. cbn. rewrite <- Hs.
    rewrite <- (sum_list_take_all rl (S k)) by lia.
    rewrite (sum_list_take_S _ _ _ Hk). lia.
Qed.

(** [renumberResidues] numbers the residues from 1 on and leaves the rest
    of the model as it is. *)
Lemma renumberResidues_renumbered m :
  wf m = true → renumbered m (renumberResidues m).
Proof.
  intros Hwf. apply wf_shape in Hwf as (rl & cl & Hs).
  pose proof Hs as (Hpr & Hpc & Hr & Hc & Hsr & Hsc).
  assert (shape (renumberResidues m) rl cl) as Hs'.
  { repeat split; try done; unfold lenAtoms, renumberResidues; cbn [atoms];
      by rewrite length_imap. }
  unfold renumbered. split; [done|]. split; [done|].
  split; [|split; [|split]];
    try (apply imap_preserves; intros j y; by destruct (_ !! j)).
  intros k Hk. unfold lenResidues in Hk. rewrite Hr, length_starts in Hk.
  destruct (lookup_lt_is_Some_2 rl k Hk) as [l Hl].
  assert (0 < l) as Hpos.
  { rewrite Forall_forall in Hpr. apply Hpr. by eapply list_elem_of_lookup_2. }
  rewrite (residue_numbers_shape _ _ _ _ _ Hs' Hl).
  unfold renumberResidues. cbn [atoms].
  rewrite (imap_lookup_map (λ i, set_residue_number (Z.of_nat i + 1)) residue_number
             (λ i, (Z.of_nat i + 1)%Z)).
  2: { rewrite (shape_resMap _ _ _ Hs), length_vblocks_numbered. done. }
  2: done.
  rewrite (shape_resMap _ _ _ Hs), skipn_map, firstn_map.
  assert (list.take l (drop (sum_list (list.take k rl)) (vblocks (numbered 0 rl)))
          = replicate l k) as ->.
  { pose proof (vblocks_slice 0 (list.take k rl) [l] (drop (S k) rl)) as V.
    change (sum_list [l]) with (l + 0) in V. rewrite Nat.add_0_r in V.
    change ([l] ++ drop (S k) rl) with (l :: drop (S k) rl) in V.
    rewrite <- (drop_S _ _ _ Hl), take_drop in V.
    rewrite V, vblocks_one, length_take, Nat.min_l by lia. done. }
  change (map ?f (replicate l k)) with (f <$> replicate l k).
  rewrite fmap_replicate. split.
  - destruct l; [lia | done].
  - by apply Forall_replicate.
Qed.

(** C6.  [Ranch.finish] lists the models directory (and raises when it is
    not there), reads every entry and sets [result] to the list of the
    models extracted from them, one per entry: with [extract_symmetric] and
    [symseq] when the symtemplate is true (given, and not a model without
    atoms), with [extract_embedded] otherwise; the other attributes stay.
    It returns when every entry can be read and extracted.
    [Pulchra.finish] returns when the file at [rb_path] holds a model, and
    sets [result] to that model with its residues numbered from 1 on;
    [rb_path] is the path of the rebuilt file next to the input file. *)
Theorem finish_spec :
  (∀ (self self' : Ranch.t) (fs : FS) symseq,
     Ranch.symtemplate_truthy (Ranch.symtemplate self) = true →
     Ranch.symseq self = Some symseq →
     let extract full := Ranch.extract_symmetric full symseq (Ranch.embedded self) in
     (Ranch.finish self fs = Ok self' →
      ∃ rs, Ranch.result self' = Some rs ∧ but_result self' = but_result self ∧
            one_per_entry (Ranch.dir_models self) fs extract rs) ∧
     (fs !! Ranch.dir_models self = Some Dir →
      (∀ f, entry_of (Ranch.dir_models self) fs f →
         ∃ full r, read_pdb (Ranch.dir_models self +:+ "/" +:+ f) fs = Ok full ∧
                   extract full = Ok r) →
      is_Ok (Ranch.finish self fs))) ∧
  (∀ (self self' : Ranch.t) (fs : FS),
     Ranch.symtemplate_truthy (Ranch.symtemplate self) = false →
     let extract full := (Ranch.extract_embedded (Ranch.embedded self) full).2 in
     (Ranch.finish self fs = Ok self' →
      ∃ rs, Ranch.result self' = Some rs ∧ but_result self' = but_result self ∧
            one_per_entry (Ranch.dir_models self) fs extract rs) ∧
     (fs !! Ranch.dir_models self = Some Dir →
      (∀ f, entry_of (Ranch.dir_models self) fs f →
         ∃ full r, read_pdb (Ranch.dir_models self +:+ "/" +:+ f) fs = Ok full ∧
                   extract full = Ok r) →
      is_Ok (Ranch.finish self fs))) ∧
  (∀ (self : Ranch.t) (fs : FS),
     fs !! Ranch.dir_models self ≠ Some Dir →
     Ranch.finish self fs = Raise OSError) ∧
  (∀ (self self' : Pulchra.t) (fs : FS),
     (Pulchra.finish self fs = Ok self' →
      ∃ m r, fs !! Pulchra.rb_path self = Some (PdbFile m) ∧
        Pulchra.result self' = Some r ∧
        source r = Some (Pulchra.rb_path self) ∧
        (wf m = true → renumbered m r) ∧
        Pulchra.model self' = Pulchra.model self ∧
        Pulchra.rb_path self' = Pulchra.rb_path self ∧
        Pulchra.configpath self' = Pulchra.configpath self ∧
        Pulchra.exe self' = Pulchra.exe self) ∧
     (∀ m, fs !! Pulchra.rb_path self = Some (PdbFile m) →
        is_Ok (Pulchra.finish self fs))) ∧
  (∀ tmp here model debug (fs : FS),
     let self := (Pulchra.__init__ tmp here model debug fs).2 in
     ∃ y, Executor.args (Pulchra.exe self) = y +:+ "model.pdb" ∧
          Pulchra.rb_path self = y +:+ "model.rebuilt.pdb").
Proof.
  assert (∀ (g : PDBModel → outcome PDBModel) (fs : FS)
            (path : string → string) files rs,
    mapR (λ m, read_pdb m fs ≫= g) (map path files) = Ok rs ↔
    Forall2 (λ f r, ∃ full, read_pdb (path f) fs = Ok full ∧ g full = Ok r)
            files rs) as Hrel.
  { intros g fs path files rs. rewrite mapR_map, mapR_Forall2.
    split; intros H; (eapply Forall2_impl; [exact H|]); cbn; intros f r.
    - intros Hb. apply bind_Ok in Hb as (full & ? & ?). eauto.
    - by intros (full & -> & ?). }
  assert (∀ (g : PDBModel → outcome PDBModel) (fs : FS) d,
    fs !! d = Some Dir →
    (∀ f, entry_of d fs f →
       ∃ full r, read_pdb (d +:+ "/" +:+ f) fs = Ok full ∧ g full = Ok r) →
    ∃ files rs, listdir d fs = Ok files ∧
      mapR (λ m, read_pdb m fs ≫= g) (map (λ f, d +:+ "/" +:+ f) files) = Ok rs)
    as Hall.
  { intros g fs d Hd Hevery. destruct (listdir_Ok d fs Hd) as [files Hfiles].
    pose proof (listdir_spec _ _ _ Hfiles) as (_ & _ & Hin).
    destruct (mapR_exists (λ f, read_pdb (d +:+ "/" +:+ f) fs ≫= g) (λ _, True) files)
      as (rs & Hrs & _).
    { intros f Hf. apply Hin, Hevery in Hf as (full & r & Hfull & Hr).
      exists r. by rewrite Hfull. }
    exists files, rs. split; [done|]. by rewrite mapR_map. }
  split; [|split; [|split; [|split]]].
  - intros self self' fs symseq Ht Hsym extract. split.
    + unfold Ranch.finish. rewrite Ht, Hsym. cbn [or_raise mbind outcome_bind].
      intros H. apply bind_Ok in H as (files & Hfiles & H).
      apply bind_Ok in H as (rs & Hrs & H). injection H as <-.
      exists rs. split; [done|]. split; [done|].
      apply listdir_spec in Hfiles as (_ & Hnd & Hin).
      exists files. split; [done|]. split; [done|]. by apply Hrel in Hrs.
    + intros Hd Hevery.
      destruct (Hall extract fs _ Hd Hevery) as (files & rs & Hfiles & Hrs).
      unfold Ranch.finish. rewrite Ht, Hsym, Hfiles.
      cbn [or_raise mbind outcome_bind]. unfold extract in Hrs.
      rewrite Hrs. by eexists.
  - intros self self' fs Ht extract. split.
    + unfold Ranch.finish. rewrite Ht.
      intros H. apply bind_Ok in H as (files & Hfiles & H).
      apply bind_Ok in H as (rs & Hrs & H). injection H as <-.
      exists rs. split; [done|]. split; [done|].
      apply listdir_spec in Hfiles as (_ & Hnd & Hin).
      exists files. split; [done|]. split; [done|]. by apply Hrel in Hrs.
    + intros Hd Hevery.
      destruct (Hall extract fs _ Hd Hevery) as (files & rs & Hfiles & Hrs).
      unfold Ranch.finish. rewrite Ht, Hfiles.
      cbn [or_raise mbind outcome_bind]. unfold extract in Hrs.
      rewrite Hrs. by eexists.
  - intros self fs Hd. unfold Ranch.finish. by rewrite listdir_Raise.
  - intros self self' fs. unfold Pulchra.finish, read_pdb. split.
    + destruct (fs !! Pulchra.rb_path self) as [[| |m]|] eqn:Hfile; try done.
      cbn [mbind outcome_bind]. intros [= <-]. exists m. eexists.
      split; [done|]. split; [reflexivity|]. split; [done|]. split; [|done].
      intros Hwf.
      set (m' := mkModel (atoms m) (resIndex m) (chainIndex m)
                         (Some (Pulchra.rb_path self))).
      assert (wf m' = true) as Hwf' by done.
      apply (renumberResidues_renumbered m' Hwf').
    + intros m ->. by eexists.
  - intros tmp here model debug fs. unfold Pulchra.__init__.
    destruct (mkdtemp "pulchra_" tmp fs) as [tempdir fs1].
    cbn [snd Pulchra.exe Pulchra.rb_path Executor.args Executor.__init__].
    destruct (path_join_model tempdir) as [y ->].
    exists y. by rewrite drop_last3_model, str_app_assoc.
Qed.

(** Two result files in the models directory give two models, in the order
    of the listing; the rebuilt file gives a model whose atoms carry the
    numbers 1 to 4 of their residues. *)
Example finish_two_results :
  ∃ self', Ranch.finish ex_made ex_results = Ok self' ∧
    (map sequence <$> Ranch.result self' = Some ["GHK"; "ACDE"] ∨
     map sequence <$> Ranch.result self' = Some ["ACDE"; "GHK"]).
Proof. eexists. split; [vm_compute; reflexivity|]. vm_compute. auto. Qed.

(** With a symtemplate, the result file is cut into its units; once
    [cleanup] has run, the models directory is gone and [finish] raises. *)
Example finish_symmetric_result :
  Ranch.symtemplate_truthy (Ranch.symtemplate ex_made_sym) = true ∧
  Ranch.symseq ex_made_sym = Some "GH" ∧
  ∃ self' r, Ranch.finish ex_made_sym ex_results_sym = Ok self' ∧
    Ranch.result self' = Some [r] ∧ sequence r = "GHGH" ∧ lenChains r = 2.
Proof.
  split; [reflexivity|]. split; [reflexivity|].
  eexists _, _. repeat split; vm_compute; reflexivity.
Qed.

Example finish_after_cleanup :
  Ranch.finish ex_made (Ranch.cleanup ex_made ex_results) = Raise OSError.
Proof. vm_compute. reflexivity. Qed.

Example finish_rebuilt_renumbered :
  ∃ self' r, Pulchra.finish ex_pulchra.2 ex_rebuilt = Ok self' ∧
    Pulchra.result self' = Some r ∧
    map residue_number (atoms ex_dom) = [0; 0; 0; 0; 0; 0]%Z ∧
    map residue_number (atoms r) = [1; 1; 2; 3; 3; 4]%Z.
Proof. eexists _, _. repeat split; vm_compute; reflexivity. Qed.

(** ** The argument string *)



(** ** The names of the pdb files *)

Lemma pretty_N_char_digit x : is_digit (pretty_N_char x).
Proof.
  unfold is_digit, pretty_N_char.
  change (Py.chars "0123456789")
    with ["0"; "1"; "2"; "3"; "4"; "5"; "6"; "7"; "8"; "9"]%char.
  repeat case_match; set_solver.
Qed.

Lemma pretty_N_go_digits x : ∀ s,
  Forall is_digit (Py.chars s) → Forall is_digit (Py.chars (pretty_N_go x s)).
Proof.
  induction (N.lt_wf_0 x) as [x _ IH]; intros s Hs.
  assert (x = 0 ∨ 0 < x)%N as [->|Hx] by lia.
  - by rewrite pretty_N_go_0.
  - rewrite pretty_N_go_step by done. apply IH.
    + by apply N.div_lt.
    + constructor; [apply pretty_N_char_digit | done].
Qed.

Lemma pretty_nat_digits (i : nat) : Forall is_digit (Py.chars (pretty i)).
Proof.
  unfold pretty, pretty_nat, pretty, pretty_N. case_decide.
  - repeat constructor.
  - by apply pretty_N_go_digits.
Qed.

Lemma underscore_not_digit : ¬ is_digit "_"%char.
Proof. unfold is_digit. cbn. intros H. by repeat (apply elem_of_cons in H as [H|H]; [done|]); apply elem_of_nil in H. Qed.

Lemma slash_not_digit : ¬ is_digit "/"%char.
Proof.
  unfold is_digit. cbn. intros H.
  by repeat (apply elem_of_cons in H as [H|H]; [done|]); apply elem_of_nil in H.
Qed.

Lemma digits_sep a : ∀ b x y,
  Forall is_digit a → Forall is_digit b →
  a ++ "_"%char :: x = b ++ "_"%char :: y → a = b.
Proof.
  induction a as [|c a IH]; intros b x y Ha Hb H.
  - destruct b as [|d b]; [done|]. cbn in H. injection H as <- _.
    apply Forall_cons in Hb as [Hd _]. by destruct underscore_not_digit.
  - apply Forall_cons in Ha as [Hc Ha]. destruct b as [|d b].
    + cbn in H. injection H as -> _. by destruct underscore_not_digit.
    + apply Forall_cons in Hb as [Hd Hb]. cbn in H. injection H as -> H.
      f_equal. by eapply IH.
Qed.

Lemma pdb_name_inj (t : string) (i k : nat) (s s' : string) :
  t +:+ "/" +:+ pretty i +:+ "_" +:+ s = t +:+ "/" +:+ pretty k +:+ "_" +:+ s' →
  i = k.
Proof.
  intros H. apply (String.app_inj t), (String.app_inj "/") in H.
  apply (f_equal Py.chars) in H. rewrite !chars_app in H. cbn in H.
  apply digits_sep in H; [|apply pretty_nat_digits..].
  apply chars_inj in H. by apply (inj pretty) in H.
Qed.


Lemma foldl_add_pdb names : ∀ self,
  config (foldl Ranch.add_pdb self names)
  = (Ranch.dir_models self, Ranch.f_seq self, Ranch.domains self,
     Ranch.chains self, Ranch.symmetry self, Ranch.symtemplate self,
     Ranch.pdbs_in self ++ names, Ranch.overall_sym self, Ranch.fixed self,
     Ranch.multich self, Ranch.symunit self, Ranch.result self, Ranch.exe self) ∧
  Ranch.sequence (foldl Ranch.add_pdb self names) = Ranch.sequence self.
Proof.
  induction names as [|name names IH]; intros self; cbn [foldl].
  - unfold config. by rewrite app_nil_r.
  - destruct (IH (Ranch.add_pdb self name)) as [-> ->]. cbn.
    by rewrite <- app_assoc.
Qed.

(** *** Writing a file *)

Ltac no_percent := apply (bool_decide_unpack _); by vm_compute.





Lemma write_file_inv p content (fs fs' : FS) :
  write_file p content fs = Ok fs' → fs' = <[p := content]> fs.
Proof. unfold write_file. destruct (_ && _); [by intros [= <-] | done]. Qed.

(** The name of a pdb file: the temporary directory, the number of the
    model, an underscore, and a suffix without [/] when the source path
    has none among its last eight characters. *)
Lemma pdb_name_form t i m (fs : FS) :
  ∃ s, Ranch.pdb_name t i m fs = t +:+ "/" +:+ pretty i +:+ "_" +:+ s ∧
       ((∀ src, source m = Some src → "/"%char ∉ Py.chars (Py.last_n src 8)) →
        "/"%char ∉ Py.chars s).
Proof.
  unfold Ranch.pdb_name, validSource. destruct (source m) as [src|].
  - case_bool_decide.
    + eexists. split; [reflexivity|]. intros Hs. by apply Hs.
    + eexists. split; [reflexivity|]. intros _. no_percent.
  - eexists. split; [reflexivity|]. intros _. no_percent.
Qed.


(** The loop touches no path but the names of pdb files, from [i] on. *)
Lemma write_pdbs_frame doms : ∀ self i (fs : FS) p,
  let t := Executor.tempdir (Ranch.exe self) in
  (∀ k s, i ≤ k → p ≠ t +:+ "/" +:+ pretty k +:+ "_" +:+ s) →
  (Ranch.write_pdbs self i doms fs).1 !! p = fs !! p.
Proof.
  induction doms as [|m doms IH]; intros self i fs p t Hp; [done|].
  cbn [Ranch.write_pdbs].
  destruct (pdb_name_form t i m fs) as (s0 & Hname & _). fold t. rewrite Hname.
  destruct (write_file _ _ fs) as [fs1|e] eqn:Hw; [|done].
  apply write_file_inv in Hw as ->. rewrite IH.
  - apply lookup_insert_ne. intros <-. by eapply (Hp i s0).
  - intros k s Hk. apply Hp. lia.
Qed.

(** When the loop ends well, every model is in a file of its own, under
    the name appended to [pdbs_in]. *)
Lemma write_pdbs_Ok doms : ∀ self i (fs fs' : FS) self',
  let t := Executor.tempdir (Ranch.exe self) in
  Ranch.write_pdbs self i doms fs = (fs', Ok self') →
  ∃ names,
    self' = foldl Ranch.add_pdb self names ∧
    length names = length doms ∧
    ∀ j m, doms !! j = Some m →
      ∃ s, names !! j = Some (t +:+ "/" +:+ pretty (i + j) +:+ "_" +:+ s) ∧
           fs' !! (t +:+ "/" +:+ pretty (i + j) +:+ "_" +:+ s) = Some (PdbFile m).
Proof.
  induction doms as [|m doms IH]; intros self i fs fs' self' t H.
  - cbn in H. injection H as <- <-. exists []. repeat split; done.
  - cbn [Ranch.write_pdbs] in H.
    destruct (pdb_name_form t i m fs) as (s0 & Hname & _).
    fold t in H. rewrite Hname in H.
    destruct (write_file _ _ fs) as [fs1|e] eqn:Hw; [|done].
    apply write_file_inv in Hw as ->.
    pose proof (write_pdbs_frame doms
                  (Ranch.add_pdb self (t +:+ "/" +:+ pretty i +:+ "_" +:+ s0)) (S i)
                  (<[t +:+ "/" +:+ pretty i +:+ "_" +:+ s0 := PdbFile m]> fs)
                  (t +:+ "/" +:+ pretty i +:+ "_" +:+ s0)) as Hframe.
    rewrite H in Hframe. cbn [fst] in Hframe.
    apply IH in H as (names & -> & Hlen & Hfiles).
    eexists (_ :: names). split; [reflexivity|]. split; [by cbn; rewrite Hlen|].
    intros [|j] m' Hm'.
    + cbn in Hm'. injection Hm' as <-. exists s0. rewrite Nat.add_0_r.
      split; [done|]. rewrite Hframe; [apply lookup_insert_eq|].
      intros k s Hk Heq. apply pdb_name_inj in Heq. lia.
    + cbn in Hm'. destruct (Hfiles j m' Hm') as (s & Hn & Hf).
      replace (i + S j) with (S i + j) by lia. by exists s.
Qed.







(** ** The theorems at work *)

Lemma slice_len_le s a b : Py.len (Py.slice s a b) ≤ Py.len s.
Proof.
  unfold Py.slice. rewrite !len_chars, chars_str, length_take, length_drop. lia.
Qed.

Lemma Ranch_embed_extract_round_trip_witness :
  wf ex_dom = true ∧ lenChains ex_dom = 1 ∧ 3 ≤ lenResidues ex_dom ∧
  wf ex_emb = true ∧ 0 < lenAtoms ex_emb ∧ lenChains ex_emb ≤ 25 ∧
  ∃ full r,
    Ranch.embed ex_dom ex_emb = Ok full ∧
    (Ranch.extract_embedded [(ex_emb, 2)] full).2 = Ok r ∧
    sequence r = sequence ex_dom +:+ sequence ex_emb ∧
    resIndex r = resIndex (concat ex_dom ex_emb) ∧
    chainIndex r = 0 :: map (λ k, k + lenAtoms ex_dom) (chainIndex ex_emb) ∧
    map xyz (atoms r) = map xyz (atoms ex_dom) ++ map xyz (atoms ex_emb).
Proof.
  assert (wf ex_dom = true) as H1 by reflexivity.
  assert (lenChains ex_dom = 1) as H2 by reflexivity.
  assert (3 ≤ lenResidues ex_dom) as H3 by (vm_compute; lia).
  assert (wf ex_emb = true) as H4 by reflexivity.
  assert (0 < lenAtoms ex_emb) as H5 by (vm_compute; lia).
  assert (lenChains ex_emb ≤ 25) as H6 by (vm_compute; lia).
  repeat (split; [assumption|]).
  exact (Ranch_embed_extract_round_trip ex_dom ex_emb H1 H2 H3 H4 H5 H6).
Defined.

(** With a model of 26 chains to embed, the host being the 27th chain, the
    letters run out and [extract_embedded] raises instead of returning. *)
Lemma Ranch_embed_extract_round_trip_counterexample :
  wf ex_dom = true ∧ lenChains ex_dom = 1 ∧ 3 ≤ lenResidues ex_dom ∧
  wf ex_emb26 = true ∧
  ∃ full, Ranch.embed ex_dom ex_emb26 = Ok full ∧
          (Ranch.extract_embedded [(ex_emb26, 2)] full).2 = Raise PDBError.
Proof.
  split; [reflexivity|]. split; [reflexivity|]. split; [vm_compute; lia|].
  split; [reflexivity|]. eexists. split; [vm_compute; reflexivity|].
  vm_compute. reflexivity.
Qed.

Lemma Ranch_embed_sequence_witness :
  (∃ full, Ranch.embed ex_dom ex_emb = Ok full ∧
     sequence full = Py.slice (sequence ex_dom) 0 2 +:+ sequence ex_emb +:+
                     Py.slice_from (sequence ex_dom) 2) ∧
  (∃ host to_embed m_emb,
     Ranch.extract_fixed host ex_pair = Ok to_embed ∧
     Ranch.embed host to_embed = Ok m_emb ∧
     Ranch.embedded ex_self_after =
       Ranch.embedded ex_self ++ [(to_embed, Py.len (Ranch.sequence ex_self) + 2)] ∧
     Ranch.sequence ex_self_after = Ranch.sequence ex_self +:+ sequence m_emb).
Proof.
  split.
  - apply (proj1 Ranch_embed_sequence ex_dom ex_emb);
      [reflexivity | reflexivity | vm_compute; lia].
  - apply (proj2 Ranch_embed_sequence ex_self 0 0 ex_pair "no" "no"
             (Ranch.ChainList ["A"]) ex_self_after);
      try reflexivity; try discriminate.
    vm_compute; lia.
Defined.

Lemma Ranch_extract_embedded_TypeError_witness :
  wf ex_dom = true ∧
  Forall (λ item : PDBModel * nat, sequence item.1 ≠ "") [(ex_emb, 1)] ∧
  ((Ranch.extract_embedded [(ex_emb, 1)] ex_dom).2 = Raise TypeError
   ↔ Exists (misplaced ex_dom) [(ex_emb, 1)]) ∧
  ((Ranch.extract_embedded [(ex_emb, 1)] ex_dom).2 = Raise TypeError →
   (Ranch.extract_embedded [(ex_emb, 1)] ex_dom).1 = ex_dom).
Proof.
  assert (Forall (λ item : PDBModel * nat, sequence item.1 ≠ "") [(ex_emb, 1)])
    as Hne by (by apply Forall_singleton).
  split; [reflexivity|]. split; [exact Hne|].
  exact (Ranch_extract_embedded_TypeError [(ex_emb, 1)] ex_dom eq_refl Hne).
Defined.

(** A domain without atoms in the dictionary: the call stops at it with
    [ValueError], also when a later entry does not fit. *)
Example extract_embedded_domain_without_atoms :
  Exists (misplaced ex_dom) [(empty, 0); (ex_emb, 1)] ∧
  Ranch.extract_embedded [(empty, 0); (ex_emb, 1)] ex_dom = (ex_dom, Raise ValueError).
Proof.
  split; [|vm_compute; reflexivity].
  apply Exists_cons_tl, Exists_cons_hd. by vm_compute.
Qed.

Lemma Ranch_setup_break_witness :
  Ranch._setup ex_self =
    (self' ← Ranch.setup_loop ex_self 0 [Ranch.EStr "GG"; Ranch.EModel 0 ex_pair];
     Ok (if Ranch.symtemplate_truthy (Ranch.symtemplate self')
         then Ranch.set_symseq self' (Ranch.sequence self') else self')).
Proof.
  apply (Ranch_setup_break ex_self [Ranch.EStr "GG"] 0 ex_pair ["A"]
           [Ranch.EOther] "no" "no");
    try reflexivity; try discriminate.
  vm_compute; lia.
Defined.

(** The case the tests of the repository run: a chain that is in [full] is
    taken out of it. *)
Example extract_fixed_takes_chain_out :
  ∃ chain_a chain_b,
    takeChains ex_pair [0] = Ok chain_a ∧ takeChains ex_pair [1] = Ok chain_b ∧
    Ranch.extract_fixed chain_a ex_pair = Ok chain_b.
Proof. eexists _, _. repeat split; vm_compute; reflexivity. Qed.


(** ** Setup over linkers and models of one chain *)

Lemma length_models_of elements :
  length (models_of elements) = length (filter Ranch.is_model elements).
Proof.
  induction elements as [|e rest IH]; [done|].
  destruct e as [s|ref m|]; cbn [models_of length].
  - by rewrite filter_cons_False by (cbn; auto).
  - rewrite filter_cons_True by done. cbn [length]. by rewrite IH.
  - by rewrite filter_cons_False by (cbn; auto).
Qed.

Lemma models_of_app l1 l2 : models_of (l1 ++ l2) = models_of l1 ++ models_of l2.
Proof.
  induction l1 as [|[s|ref m|] rest IH]; cbn; [done|done| |done]. by rewrite IH.
Qed.

Lemma linked_sequence_app l1 l2 :
  linked_sequence (l1 ++ l2) = linked_sequence l1 +:+ linked_sequence l2.
Proof.
  induction l1 as [|[s|ref m|] rest IH]; cbn; [done| | |done];
    by rewrite IH, str_app_assoc.
Qed.

Lemma setup_loop_plain pre : ∀ self i rest,
  Forall plain pre →
  (∀ j, j < length (models_of pre) →
     ∃ flag, Ranch.multich self !! (i + j) = Some flag ∧ flag ≠ "yes") →
  ∃ self',
    Ranch.setup_loop self i (pre ++ rest)
    = Ranch.setup_loop self' (i + length (models_of pre)) rest ∧
    config self' = config self ∧
    Ranch.sequence self' = Ranch.sequence self +:+ linked_sequence pre ∧
    Ranch.doms_in self' = Ranch.doms_in self ++ models_of pre ∧
    Ranch.embedded self' = Ranch.embedded self ∧
    Ranch.symseq self' = Ranch.symseq self.
Proof.
  induction pre as [|e pre IH]; intros self i rest Hp Hf.
  - exists self. cbn. rewrite Nat.add_0_r, str_app_nil_r, app_nil_r. done.
  - apply Forall_cons in Hp as [He Hp]. destruct e as [s|ref m|]; [| |done].
    + destruct (IH (Ranch.add_sequence self s) i rest Hp) as (self' & H1 & H2 & H3 & H4 & H5 & H6).
      { intros j Hj. apply Hf. done. }
      exists self'. cbn [app Ranch.setup_loop models_of linked_sequence].
      rewrite H1, H3. cbn. by rewrite str_app_assoc.
    + cbn in He.
      destruct (Hf 0) as (flag & Hflag & Hny); [cbn; lia|].
      rewrite Nat.add_0_r in Hflag.
      destruct (IH (Ranch.add_dom (Ranch.add_sequence self (sequence m)) m) (S i) rest Hp)
        as (self' & H1 & H2 & H3 & H4 & H5 & H6).
      { intros j Hj. destruct (Hf (S j)) as (fl & Hfl & Hn); [cbn; lia|].
        exists fl. split; [|done]. rewrite <- Hfl. f_equal. lia. }
      exists self'. cbn [app Ranch.setup_loop models_of linked_sequence].
      rewrite Hflag. cbn. rewrite decide_False by done.
      rewrite decide_True by done. cbn.
      rewrite H1, H3, H4. cbn [length].
      replace (i + S (length (models_of pre))) with (S i + length (models_of pre)) by lia.
      cbn. rewrite str_app_assoc, <- app_assoc. done.
Qed.

Lemma bind_Ok_id {A} (c : outcome A) : c ≫= (λ x, Ok x) = c.
Proof. by destruct c. Qed.

Lemma map_no (f : Ranch.element → string) l :
  (∀ e, e ∈ l → f e = "no") →
  map f (filter Ranch.is_model l) = replicate (length (models_of l)) "no".
Proof.
  intros Hfe. rewrite length_models_of.
  assert (∀ e, e ∈ filter Ranch.is_model l → f e = "no") as Hfe'.
  { intros e He. apply Hfe. by apply list_elem_of_filter in He as [_ He]. }
  clear Hfe. induction (filter Ranch.is_model l) as [|x xs IH]; cbn; [done|].
  rewrite Hfe' by left. rewrite IH; [done|]. intros e He. apply Hfe'. by right.
Qed.

(** Without a symtemplate the constructor runs [_setup] on an object whose
    flags are the lists given, or one no per model. *)
Lemma init_no_template tmp domains chains symmetry symunit overall_sym code
    fixed multich debug (fs : FS) :
  Ranch.overall_symmetry !! overall_sym = Some code →
  ∃ tempdir dir_models,
    (Ranch.__init__ tmp domains chains symmetry None symunit overall_sym
                    fixed multich debug fs).2
    = Ranch._setup
        (Ranch.mk dir_models (tempdir +:+ "/sequence.seq") domains chains ""
                  symmetry None [] [] [] code
                  (default (replicate (length (models_of domains)) "no")
                           (Ranch.given fixed))
                  (default (replicate (length (models_of domains)) "no")
                           (Ranch.given multich))
                  None None None
                  (Executor.__init__ "ranch" tempdir (Some tempdir) "" debug)).
Proof.
  intros Hc. unfold Ranch.__init__.
  destruct (mkdtemp "ranch_" tmp fs) as [tempdir fs1].
  destruct (mkdtemp "models_" tempdir fs1) as [dir_models fs2].
  exists tempdir, dir_models. cbn [snd]. rewrite Hc.
  cbn [mbind outcome_bind Ranch.symtemplate_truthy].
  rewrite (map_no (λ _, "no")) by done.
  rewrite (map_no (λ e, if Ranch.is_symtemplate None e then "yes" else "no"))
    by (by intros []).
  destruct (Ranch.given fixed), (Ranch.given multich);
    cbn [default from_option mbind outcome_bind or_raise];
  by rewrite bind_Ok_id.
Qed.

Lemma overall_sym_code overall_sym :
  overall_sym ∈ overall_sym_keys → is_Some (Ranch.overall_symmetry !! overall_sym).
Proof.
  intros H. unfold overall_sym_keys in H.
  repeat (apply elem_of_cons in H as [->|H]);
    [rewrite overall_symmetry_lookup; repeat case_decide; done.. |].
  by apply elem_of_nil in H.
Qed.

(** X1.  Called with linkers and models of one chain only, without
    symtemplate and without flag lists, the constructor returns: the
    sequence is the linkers and the sequences of the models joined in
    order, [doms_in] holds the models in order, nothing is embedded, and
    [fixed] and [multich] hold one no per model. *)
Theorem Ranch_init_plain tmp domains chains symmetry symunit overall_sym
    fixed multich debug (fs : FS) :
  Forall plain domains →
  overall_sym ∈ overall_sym_keys →
  Ranch.given fixed = None → Ranch.given multich = None →
  ∃ self,
    (Ranch.__init__ tmp domains chains symmetry None symunit overall_sym
                    fixed multich debug fs).2 = Ok self ∧
    Ranch.sequence self = linked_sequence domains ∧
    Ranch.doms_in self = models_of domains ∧
    Ranch.embedded self = [] ∧
    Ranch.fixed self = replicate (length (models_of domains)) "no" ∧
    Ranch.multich self = replicate (length (models_of domains)) "no" ∧
    Ranch.symseq self = None.
Proof.
  intros Hp Hk Hf Hm.
  destruct (overall_sym_code _ Hk) as [code Hc].
  destruct (init_no_template tmp domains chains symmetry symunit overall_sym code
              fixed multich debug fs Hc) as (tempdir & dir_models & ->).
  rewrite Hf, Hm. cbn [default from_option].
  unfold Ranch._setup. cbn [Ranch.domains].
  match goal with
  | |- context [Ranch.setup_loop ?x 0 domains] =>
      destruct (setup_loop_plain domains x 0 [] Hp) as (self' & H1 & H2 & H3 & H4 & H5 & H6)
  end.
  { intros j Hj. exists "no". split; [|done]. cbn [Ranch.multich].
    by apply lookup_replicate_2. }
  rewrite app_nil_r in H1. rewrite H1.
  cbn [Ranch.setup_loop mbind outcome_bind].
  unfold config in H2. cbn in H2, H3, H4, H5, H6. simplify_eq.
  exists self'. replace (Ranch.symtemplate self') with (@None (nat * PDBModel)).
  cbn. done.
Qed.

Lemma lookup_replicate_no n j : j < n → replicate n "no" !! j = Some "no".
Proof. intros. by apply lookup_replicate_2. Qed.

(** X2.  An argument that is neither a string nor a model ends the
    constructor with [TypeError], when the arguments before it are linkers
    and models of one chain; what comes after it plays no part. *)
Theorem Ranch_init_TypeError tmp pre post chains symmetry symunit overall_sym
    fixed multich debug (fs : FS) :
  Forall plain pre →
  overall_sym ∈ overall_sym_keys →
  Ranch.given fixed = None → Ranch.given multich = None →
  (Ranch.__init__ tmp (pre ++ Ranch.EOther :: post) chains symmetry None symunit
                  overall_sym fixed multich debug fs).2 = Raise TypeError.
Proof.
  intros Hp Hk Hf Hm.
  destruct (overall_sym_code _ Hk) as [code Hc].
  destruct (init_no_template tmp (pre ++ Ranch.EOther :: post) chains symmetry
              symunit overall_sym code fixed multich debug fs Hc)
    as (tempdir & dir_models & ->).
  rewrite Hf, Hm. cbn [default from_option].
  unfold Ranch._setup. cbn [Ranch.domains].
  match goal with
  | |- context [Ranch.setup_loop ?x 0 _] =>
      destruct (setup_loop_plain pre x 0 (Ranch.EOther :: post) Hp)
        as (self' & H1 & _)
  end.
  { intros j Hj. exists "no". split; [|done]. cbn [Ranch.multich].
    apply lookup_replicate_no. rewrite models_of_app, length_app. lia. }
  rewrite H1. done.
Qed.

(** X3.  A model that does not have exactly one chain and has no entry in
    [chains] ends the constructor with [KeyError], when the arguments before
    it are linkers and models of one chain and the flag lists are left
    out. *)
Theorem Ranch_init_KeyError tmp pre ref m post chains symmetry symunit overall_sym
    fixed multich debug (fs : FS) :
  Forall plain pre →
  lenChains m ≠ 1 →
  chains !! ref = None →
  overall_sym ∈ overall_sym_keys →
  Ranch.given fixed = None → Ranch.given multich = None →
  (Ranch.__init__ tmp (pre ++ Ranch.EModel ref m :: post) chains symmetry None
                  symunit overall_sym fixed multich debug fs).2 = Raise KeyError.
Proof.
  intros Hp Hn Hch Hk Hf Hm.
  destruct (overall_sym_code _ Hk) as [code Hc].
  destruct (init_no_template tmp (pre ++ Ranch.EModel ref m :: post) chains symmetry
              symunit overall_sym code fixed multich debug fs Hc)
    as (tempdir & dir_models & ->).
  rewrite Hf, Hm. cbn [default from_option].
  unfold Ranch._setup. cbn [Ranch.domains].
  match goal with
  | |- context [Ranch.setup_loop ?x 0 _] =>
      destruct (setup_loop_plain pre x 0 (Ranch.EModel ref m :: post) Hp)
        as (self' & H1 & H2 & _)
  end.
  { intros j Hj. exists "no". split; [|done]. cbn [Ranch.multich].
    apply lookup_replicate_no. rewrite models_of_app, length_app. lia. }
  rewrite H1. unfold config in H2. cbn in H2.
  injection H2 as E1 E2 E3 E4 E5 E6 E7 E8 E9 E10 E11 E12 E13.
  cbn [Ranch.setup_loop]. rewrite E4, E9, E10.
  rewrite !lookup_replicate_no
    by (rewrite models_of_app, length_app; cbn; lia).
  cbn. rewrite decide_False by done. rewrite decide_False by done. cbn.
  by rewrite Hch.
Qed.

Lemma setup_loop_short elements : ∀ self i,
  Forall plain elements →
  Forall (λ f, f ≠ "yes") (Ranch.multich self) →
  i ≤ length (Ranch.multich self) →
  length (Ranch.multich self) < i + length (models_of elements) →
  Ranch.setup_loop self i elements = Raise IndexError.
Proof.
  induction elements as [|e rest IH]; intros self i Hp Hny Hi Hlen.
  - cbn in Hlen. lia.
  - apply Forall_cons in Hp as [He Hp]. destruct e as [s|ref m|]; [| |done].
    + cbn [Ranch.setup_loop]. by apply IH.
    + cbn in He. cbn [Ranch.setup_loop].
      destruct (Ranch.multich self !! i) as [flag|] eqn:Hl; cbn; [|done].
      assert (flag ≠ "yes") as Hflag.
      { by eapply (proj1 (Forall_forall _ _) Hny), list_elem_of_lookup_2. }
      rewrite decide_False by done. rewrite decide_True by done. cbn.
      apply lookup_lt_Some in Hl.
      apply IH; [done|done|cbn; lia|cbn in *; lia].
Qed.

(** X4.  A [multich] list that is given, holds no yes and is shorter than
    the number of models ends the constructor with [IndexError]; the
    [fixed] list is not looked at for models of one chain. *)
Theorem Ranch_init_IndexError tmp domains chains symmetry symunit overall_sym
    fixed (flags : list string) debug (fs : FS) :
  Forall plain domains →
  overall_sym ∈ overall_sym_keys →
  flags ≠ [] → Forall (λ f, f ≠ "yes") flags →
  length flags < length (models_of domains) →
  (Ranch.__init__ tmp domains chains symmetry None symunit overall_sym
                  fixed (Some flags) debug fs).2 = Raise IndexError.
Proof.
  intros Hp Hk Hne Hny Hlen.
  destruct (overall_sym_code _ Hk) as [code Hc].
  destruct (init_no_template tmp domains chains symmetry
              symunit overall_sym code fixed (Some flags) debug fs Hc)
    as (tempdir & dir_models & ->).
  replace (Ranch.given (Some flags)) with (Some flags) by (by destruct flags).
  cbn [default from_option].
  unfold Ranch._setup. cbn [Ranch.domains].
  rewrite setup_loop_short; [done|done|done|cbn; lia|cbn; lia].
Qed.

(** ** Setup with a symtemplate *)

Lemma multich_default r st pre post :
  Forall (λ e, Ranch.is_symtemplate (Some (r, st)) e = false) pre →
  Forall (λ e, Ranch.is_symtemplate (Some (r, st)) e = false) post →
  map (λ e, if Ranch.is_symtemplate (Some (r, st)) e then "yes" else "no")
      (filter Ranch.is_model (pre ++ Ranch.EModel r st :: post))
  = replicate (length (models_of pre)) "no" ++ "yes" ::
    replicate (length (models_of post)) "no".
Proof.
  intros Hpre Hpost.
  rewrite filter_app, filter_cons_True by done.
  rewrite map_app, map_cons. cbn [Ranch.is_symtemplate].
  rewrite bool_decide_eq_true_2 by done.
  rewrite !map_no; [done| |].
  - intros e He. by rewrite (proj1 (Forall_forall _ _) Hpost e He).
  - intros e He. by rewrite (proj1 (Forall_forall _ _) Hpre e He).
Qed.

(** X5.  With a symtemplate among the arguments and no symunit given, the
    symtemplate adds the sequence of its first chain to the sequence and
    itself to [doms_in], its flag in [multich] is yes and all others are
    no, and [symseq] is the whole sequence. *)
Theorem Ranch_init_symtemplate tmp pre r st post su chains symmetry overall_sym
    fixed multich debug (fs : FS) :
  Forall plain pre → Forall plain post →
  Forall (λ e, Ranch.is_symtemplate (Some (r, st)) e = false) pre →
  Forall (λ e, Ranch.is_symtemplate (Some (r, st)) e = false) post →
  truthy st = true →
  takeChains st [0] = Ok su →
  overall_sym ∈ overall_sym_keys →
  Ranch.given fixed = None → Ranch.given multich = None →
  ∃ self,
    (Ranch.__init__ tmp (pre ++ Ranch.EModel r st :: post) chains symmetry
                    (Some (r, st)) None overall_sym fixed multich debug fs).2
    = Ok self ∧
    Ranch.sequence self
    = linked_sequence pre +:+ sequence su +:+ linked_sequence post ∧
    Ranch.symseq self = Some (Ranch.sequence self) ∧
    Ranch.symunit self = Some su ∧
    Ranch.doms_in self = models_of pre ++ st :: models_of post ∧
    Ranch.multich self
    = replicate (length (models_of pre)) "no" ++ "yes" ::
      replicate (length (models_of post)) "no" ∧
    Ranch.embedded self = [].
Proof.
  intros Hp Hq Hnp Hnq Ht Hsu Hk Hf Hm.
  destruct (overall_sym_code _ Hk) as [code Hc].
  unfold Ranch.__init__.
  destruct (mkdtemp "ranch_" tmp fs) as [tempdir fs1].
  destruct (mkdtemp "models_" tempdir fs1) as [dir_models fs2].
  cbn [snd]. rewrite Hc, Hf, Hm.
  cbn [mbind outcome_bind or_raise Ranch.symtemplate_truthy].
  rewrite Ht. cbn [from_option snd]. rewrite Hsu.
  cbn [fmap outcome_fmap mbind outcome_bind].
  rewrite multich_default by done.
  rewrite bind_Ok_id. unfold Ranch._setup. cbn [Ranch.domains].
  match goal with
  | |- context [Ranch.setup_loop ?x 0 _] =>
      destruct (setup_loop_plain pre x 0 (Ranch.EModel r st :: post) Hp)
        as (s1 & H1 & H2 & H3 & H4 & H5 & H6)
  end.
  { intros j Hj. exists "no". split; [|done]. cbn [Ranch.multich].
    rewrite lookup_app_l by (by rewrite length_replicate).
    by apply lookup_replicate_no. }
  rewrite H1. unfold config in H2. cbn in H2, H3, H4, H5, H6.
  injection H2 as E1 E2 E3 E4 E5 E6 E7 E8 E9 E10 E11 E12 E13.
  cbn [Ranch.setup_loop]. rewrite E10, E11.
  rewrite lookup_app_r by (by rewrite length_replicate).
  rewrite length_replicate, Nat.sub_diag.
  cbn [lookup list_lookup or_raise mbind outcome_bind].
  rewrite decide_True by done. cbn [or_raise mbind outcome_bind].
  destruct (setup_loop_plain post
              (Ranch.add_dom (Ranch.add_sequence s1 (sequence su)) st)
              (S (length (models_of pre))) [] Hq)
    as (s2 & G1 & G2 & G3 & G4 & G5 & G6).
  { intros j Hj. exists "no". split; [|done]. cbn [Ranch.multich Ranch.add_dom Ranch.add_sequence].
    rewrite E10.
    rewrite lookup_app_r by (rewrite length_replicate; lia).
    rewrite length_replicate.
    replace (S (length (models_of pre)) + j - length (models_of pre)) with (S j) by lia.
    cbn. by apply lookup_replicate_no. }
  rewrite app_nil_r in G1.
  change (0 + length (models_of pre)) with (length (models_of pre)).
  rewrite G1. cbn [Ranch.setup_loop mbind outcome_bind].
  unfold config in G2. cbn in G2, G3, G4, G5, G6.
  injection G2 as F1 F2 F3 F4 F5 F6 F7 F8 F9 F10 F11 F12 F13.
  rewrite F6, E6. cbn [Ranch.symtemplate_truthy]. rewrite Ht.
  eexists. split; [done|]. cbn.
  rewrite G3, H3, G4, H4, G5, H5, F10, E10, F11, E11. cbn.
  rewrite !str_app_assoc, <- app_assoc. done.
Qed.


Lemma Ranch_init_plain_witness :
  ∃ self,
    (Ranch.__init__ "/tmp" ex_domains ∅ "p1" None None "mixed" None None false ∅).2
    = Ok self ∧
    Ranch.sequence self = linked_sequence ex_domains ∧
    Ranch.doms_in self = models_of ex_domains ∧
    Ranch.embedded self = [] ∧
    Ranch.fixed self = replicate (length (models_of ex_domains)) "no" ∧
    Ranch.multich self = replicate (length (models_of ex_domains)) "no" ∧
    Ranch.symseq self = None.
Proof.
  apply (Ranch_init_plain "/tmp" ex_domains ∅ "p1" None "mixed" None None false ∅).
  - repeat constructor.
  - by left.
  - reflexivity.
  - reflexivity.
Defined.

Lemma Ranch_init_TypeError_witness :
  (Ranch.__init__ "/tmp" (ex_domains ++ Ranch.EOther :: [Ranch.EStr "GG"]) ∅ "p1"
                  None None "mixed" None None false ∅).2 = Raise TypeError.
Proof.
  apply (Ranch_init_TypeError "/tmp" ex_domains [Ranch.EStr "GG"] ∅ "p1" None
           "mixed" None None false ∅).
  - repeat constructor.
  - by left.
  - reflexivity.
  - reflexivity.
Defined.

Lemma Ranch_init_KeyError_witness :
  (Ranch.__init__ "/tmp" (ex_domains ++ Ranch.EModel 1 ex_pair :: []) ∅ "p1"
                  None None "mixed" None None false ∅).2 = Raise KeyError.
Proof.
  apply (Ranch_init_KeyError "/tmp" ex_domains 1 ex_pair [] ∅ "p1" None
           "mixed" None None false ∅).
  - repeat constructor.
  - vm_compute. lia.
  - reflexivity.
  - by left.
  - reflexivity.
  - reflexivity.
Defined.

Lemma Ranch_init_IndexError_witness :
  (Ranch.__init__ "/tmp" (ex_domains ++ ex_domains) ∅ "p1"
                  None None "mixed" None (Some ["no"]) false ∅).2 = Raise IndexError.
Proof.
  apply (Ranch_init_IndexError "/tmp" (ex_domains ++ ex_domains) ∅ "p1" None
           "mixed" None ["no"] false ∅).
  - repeat constructor.
  - by left.
  - done.
  - repeat constructor. done.
  - vm_compute. lia.
Defined.

Lemma Ranch_init_symtemplate_witness :
  ∃ self,
    (Ranch.__init__ "/tmp" (ex_domains ++ Ranch.EModel 7 ex_emb :: [Ranch.EStr "S"]) ∅
                    "p2" (Some (7, ex_emb)) None "symmetry" None None false ∅).2
    = Ok self ∧
    Ranch.sequence self
    = linked_sequence ex_domains +:+ "GH" +:+ linked_sequence [Ranch.EStr "S"] ∧
    Ranch.symseq self = Some (Ranch.sequence self) ∧
    Ranch.symunit self
    = Some (mkModel [ex_atom "G" "B" 11; ex_atom "G" "B" 12; ex_atom "H" "B" 13]
                    [0; 2] [0] None) ∧
    Ranch.doms_in self = models_of ex_domains ++ ex_emb :: models_of [Ranch.EStr "S"] ∧
    Ranch.multich self
    = replicate (length (models_of ex_domains)) "no" ++ "yes" ::
      replicate (length (models_of [Ranch.EStr "S"])) "no" ∧
    Ranch.embedded self = [].
Proof.
  apply (Ranch_init_symtemplate "/tmp" ex_domains 7 ex_emb [Ranch.EStr "S"]
           (mkModel [ex_atom "G" "B" 11; ex_atom "G" "B" 12; ex_atom "H" "B" 13]
                    [0; 2] [0] None) ∅ "p2" "symmetry" None None false ∅).
  - repeat constructor.
  - repeat constructor.
  - repeat constructor.
  - repeat constructor.
  - reflexivity.
  - reflexivity.
  - right. by left.
  - reflexivity.
  - reflexivity.
Defined.


(** ** The positions recorded by setup fit the sequence *)

Lemma len_app a b : Py.len (a +:+ b) = Py.len a + Py.len b.
Proof. by rewrite !len_chars, chars_app, length_app. Qed.

Lemma len_str l : Py.len (Py.str l) = length l.
Proof. by rewrite len_chars, chars_str. Qed.

Lemma slice_app_stable s t p d :
  Py.slice s p (p + Py.len d) = d → Py.slice (s +:+ t) p (p + Py.len d) = d.
Proof.
  unfold Py.slice. rewrite chars_app.
  replace (p + Py.len d - p) with (Py.len d) by lia.
  intros H. rewrite <- H at 2. f_equal.
  apply (f_equal Py.len) in H. rewrite len_str in H.
  rewrite length_take in H. rewrite length_drop in H.
  destruct (decide (Py.len d = 0)) as [-> | Hpos]; [done|].
  rewrite drop_app_le by lia.
  rewrite take_app_le; [done|]. rewrite length_drop. lia.
Qed.

Lemma fits_app s t item : fits s item → fits (s +:+ t) item.
Proof. apply slice_app_stable. Qed.

Lemma extract_fixed_wf dom full r : Ranch.extract_fixed dom full = Ok r → wf r = true.
Proof.
  unfold Ranch.extract_fixed. intros H.
  apply bind_Ok in H as (doms & _ & H).
  apply bind_Ok in H as (kept & _ & H).
  unfold takeChains in H. apply bind_Ok in H as (i & _ & H).
  by eapply take_wf.
Qed.

Lemma takeChains_wf m i r : takeChains m i = Ok r → wf r = true.
Proof.
  unfold takeChains. intros H. apply bind_Ok in H as (k & _ & H). by eapply take_wf.
Qed.

Lemma embed_Ok_three dom emb full :
  Ranch.embed dom emb = Ok full → 3 ≤ lenResidues dom.
Proof.
  unfold Ranch.embed. intros H.
  apply bind_Ok in H as (first & _ & H).
  apply bind_Ok in H as (last & H & _).
  apply bind_Ok in H as (i & H & _).
  unfold res2atomIndices, extendIndex in H.
  destruct (lenResidues dom - 2) eqn:E; [done | lia].
Qed.

Lemma embed_chain_fits self element cid self' :
  Forall (fits (Ranch.sequence self)) (Ranch.embedded self) →
  Ranch.embed_chain self element cid = Ok self' →
  Forall (fits (Ranch.sequence self')) (Ranch.embedded self').
Proof.
  intros Hfit H. unfold Ranch.embed_chain in H.
  apply bind_Ok in H as (chain_inds & _ & H).
  apply bind_Ok in H as (chain_ind & _ & H).
  apply bind_Ok in H as (m & Hm & H).
  apply bind_Ok in H as (to_embed & He & H).
  apply bind_Ok in H as (m_emb & Hemb & H).
  injection H as <-. cbn.
  apply takeChains_wf in Hm. apply extract_fixed_wf in He.
  pose proof (embed_Ok_three _ _ _ Hemb) as H2.
  destruct (embed_sequence m to_embed Hm He H2) as (full & Hfull & Hseq).
  rewrite Hemb in Hfull. injection Hfull as <-.
  apply Forall_app. split.
  - eapply Forall_impl; [exact Hfit|]. intros item. apply fits_app.
  - apply Forall_singleton. unfold fits. cbn [fst snd].
    rewrite Hseq.
    assert (Py.len (Py.slice (sequence m) 0 2) = 2) as Hl2.
    { pose proof (len_sequence m Hm) as Hl.
      unfold Py.slice. rewrite len_str, length_take, length_drop.
      rewrite <- len_chars. lia. }
    set (a := Py.slice (sequence m) 0 2) in *.
    set (b := Py.slice_from (sequence m) 2).
    replace (Py.len (Ranch.sequence self) + 2)
      with (Py.len (Ranch.sequence self +:+ a)) by (rewrite len_app; lia).
    rewrite <- str_app_assoc. apply slice_middle.
Qed.

Lemma setup_loop_fits elements : ∀ self i self',
  Forall (fits (Ranch.sequence self)) (Ranch.embedded self) →
  Ranch.setup_loop self i elements = Ok self' →
  Forall (fits (Ranch.sequence self')) (Ranch.embedded self').
Proof.
  induction elements as [|e rest IH]; intros self i self' Hfit H; cbn in H.
  - by injection H as <-.
  - assert (∀ s, Forall (fits (Ranch.sequence self +:+ s)) (Ranch.embedded self)) as Happ.
    { intros s. eapply Forall_impl; [exact Hfit|]. intros item. apply fits_app. }
    destruct e as [s | ref m |]; [| |discriminate].
    + eapply IH; [|exact H]. apply Happ.
    + destruct (Ranch.multich self !! i) as [flag|]; cbn in H; [|discriminate].
      destruct (decide (flag = "yes")).
      { destruct (Ranch.symunit self); cbn in H; [|discriminate].
        eapply IH; [|exact H]. apply Happ. }
      destruct (decide (B.lenChains m = 1)); cbn in H.
      { eapply IH; [|exact H]. apply Happ. }
      destruct (Ranch.fixed self !! i) as [f|]; cbn in H; [|discriminate].
      destruct (bool_decide (f = "yes")).
      { eapply IH; [|exact H]. apply Happ. }
      destruct (Ranch.chains self !! ref) as [[cid|cids]|]; cbn in H; [| |discriminate].
      * destruct (Ranch.embed_chain self m cid) as [s1|] eqn:E; cbn in H; [|discriminate].
        eapply IH; [|exact H]. by eapply embed_chain_fits.
      * destruct (head cids); cbn in H; [|discriminate].
        by eapply embed_chain_fits.
Qed.

Lemma extract_embedded_TypeError_collect embedded full :
  (Ranch.extract_embedded embedded full).2 = Raise TypeError →
  Ranch.collect full embedded empty [] = Raise TypeError.
Proof.
  remember (Ranch.extract_embedded embedded full) as res eqn:Hres.
  unfold Ranch.extract_embedded in Hres.
  unfold mbind at 1, inplace_bind at 1, reading at 1 in Hres.
  destruct (Ranch.collect full embedded empty []) as [[r emb_ind]|e].
  - match type of Hres with
    | _ = ?c full => assert ((c full).2 ≠ Raise TypeError) as Hno
    end.
    { apply inplace_bind_no_raise.
      { apply for_each_no_raise, cut_not_TypeError. }
      intros _. apply inplace_bind_no_raise; [intros m; by rewrite reading_snd|].
      intros n. apply inplace_bind_no_raise.
      { apply for_each_no_raise. intros _ m.
        apply changing_no_raise, mergeChains_not_TypeError. }
      intros _. apply inplace_bind_no_raise.
      { intros m. by apply changing_no_raise. }
      intros _ m. rewrite reading_snd.
      pose proof (addChainId_not_TypeError (concat m r)).
      by destruct (addChainId (concat m r)). }
    rewrite <- Hres in Hno. intros H. by destruct Hno.
  - subst res. cbn. intros H. by injection H as ->.
Qed.

(** X6.  Every position the constructor records in [embedded] fits the
    sequence it builds: the letters of [self.sequence] from that position
    on are the sequence of the embedded model.  So [extract_embedded], called
    with this dictionary on a model that has this sequence, does not raise
    [TypeError]. *)
Theorem Ranch_init_embedded_fits tmp domains chains symmetry symtemplate symunit
    overall_sym fixed multich debug (fs : FS) self :
  (Ranch.__init__ tmp domains chains symmetry symtemplate symunit overall_sym
                  fixed multich debug fs).2 = Ok self →
  Forall (fits (Ranch.sequence self)) (Ranch.embedded self) ∧
  ∀ full, wf full = true → sequence full = Ranch.sequence self →
    (Ranch.extract_embedded (Ranch.embedded self) full).2 ≠ Raise TypeError.
Proof.
  intros H.
  assert (Forall (fits (Ranch.sequence self)) (Ranch.embedded self)) as Hfit.
  { unfold Ranch.__init__ in H.
    destruct (mkdtemp "ranch_" tmp fs) as [tempdir fs1].
    destruct (mkdtemp "models_" tempdir fs1) as [dir_models fs2].
    cbn [snd] in H.
    apply bind_Ok in H as (code & _ & H).
    apply bind_Ok in H as (su & _ & H).
    apply bind_Ok in H as (self1 & H & Heq). injection Heq as ->.
    unfold Ranch._setup in H.
    apply bind_Ok in H as (self2 & H & Heq). injection Heq as <-.
    apply setup_loop_fits in H; [|by apply Forall_nil].
    by destruct (Ranch.symtemplate_truthy _). }
  split; [done|].
  intros full Hwf Hseq Hraise.
  apply extract_embedded_TypeError_collect in Hraise.
  apply collect_TypeError_misplaced in Hraise.
  apply Exists_exists in Hraise as (item & Hin & Hmis).
  apply Hmis. rewrite Hseq.
  by apply (proj1 (Forall_forall _ _) Hfit).
Qed.


Lemma Ranch_init_embedded_fits_witness :
  length (Ranch.embedded ex_paired) = 1 ∧
  Forall (fits (Ranch.sequence ex_paired)) (Ranch.embedded ex_paired) ∧
  ∀ full, wf full = true → sequence full = Ranch.sequence ex_paired →
    (Ranch.extract_embedded (Ranch.embedded ex_paired) full).2 ≠ Raise TypeError.
Proof.
  split; [vm_compute; reflexivity|].
  apply (Ranch_init_embedded_fits "/tmp" [Ranch.EStr "GG"; Ranch.EModel 0 ex_pair]
           {[ 0 := Ranch.ChainId "A" ]} "p1" None None "mixed" None None false ∅).
  vm_compute. reflexivity.
Defined.

(** ** The model [embed] builds *)

(** X7.  For a host of one chain and at least three residues, [embed]
    keeps every atom and its order: the atoms of the result are the atoms
    of the first two residues of the host, those of the embedded model, and
    the rest of the host.  The result is well formed, has the residues of
    both, and the host is split in two chains around the embedded ones. *)
Theorem Ranch_embed_structure dom to_embed :
  wf dom = true → lenChains dom = 1 → 3 ≤ lenResidues dom → wf to_embed = true →
  ∃ full a,
    Ranch.embed dom to_embed = Ok full ∧
    resIndex dom !! 2 = Some a ∧
    atoms full = list.take a (atoms dom) ++ atoms to_embed ++ drop a (atoms dom) ∧
    wf full = true ∧
    lenResidues full = lenResidues dom + lenResidues to_embed ∧
    chainIndex full
    = 0 :: map (λ k, k + a) (chainIndex to_embed) ++ [a + lenAtoms to_embed].
Proof.
  intros Hwd Hc1 Hr3 Hwe.
  apply wf_shape in Hwd as (rl & cl & Hd).
  apply wf_shape in Hwe as (rl_e & cl_e & He).
  pose proof Hd as (Hpr & Hpc & Hr & Hc & Hsr & Hsc).
  pose proof He as (He1 & He2 & He3 & He4 & He5 & He6).
  unfold lenChains in Hc1. unfold lenResidues in *.
  rewrite Hc, length_starts in Hc1. rewrite Hr, length_starts in Hr3.
  destruct cl as [|n [|]]; try done.
  destruct rl as [|r0 [|r1 rest]]; cbn in Hr3; try lia.
  assert (0 < sum_list rest) as Hrest.
  { destruct rest as [|r2 rest]; [cbn in Hr3; lia|].
    apply Forall_cons in Hpr as [_ Hpr]. apply Forall_cons in Hpr as [_ Hpr].
    apply Forall_cons in Hpr as [? _]. cbn. lia. }
  apply Forall_cons in Hpr as [Hr0 Hpr]. apply Forall_cons in Hpr as [Hr1 Hpr].
  change (sum_list (r0 :: r1 :: rest)) with (r0 + (r1 + sum_list rest)) in Hsr.
  unfold lenAtoms in *.
  assert (shape (build (list.take (r0 + r1) (atoms dom) ++ atoms to_embed ++
                        drop (r0 + r1) (atoms dom))
                       ([r0; r1] ++ rl_e ++ rest)
                       ([r0 + r1] ++ cl_e ++ [sum_list rest]) None)
                ([r0; r1] ++ rl_e ++ rest) ([r0 + r1] ++ cl_e ++ [sum_list rest]))
    as Hsh.
  { apply build_shape.
    - repeat (apply Forall_cons; split; [done|]). by apply Forall_app.
    - apply Forall_cons. split; [lia|]. apply Forall_app. split; [done|].
      by apply Forall_singleton.
    - rewrite !length_app, length_take, length_drop, !sum_list_with_app.
      change (sum_list [r0; r1]) with (r0 + (r1 + 0)). lia.
    - rewrite !length_app, length_take, length_drop, !sum_list_with_app.
      change (sum_list [r0 + r1]) with (r0 + r1 + 0).
      change (sum_list [sum_list rest]) with (sum_list rest + 0). lia. }
  eexists _, (r0 + r1).
  split; [by eapply embed_single|].
  split.
  { rewrite Hr, lookup_starts by (cbn [length]; lia).
    change (list.take 2 (r0 :: r1 :: rest)) with [r0; r1].
    change (sum_list [r0; r1]) with (r0 + (r1 + 0)). f_equal. lia. }
  split; [done|].
  split; [apply wf_shape; eauto|].
  split.
  - cbn [build resIndex _resIndex]. rewrite !length_starts, !length_app.
    rewrite Hr, He3, !length_starts. cbn. lia.
  - cbn [build chainIndex _chainIndex]. rewrite He4.
    cbn [app starts]. f_equal. rewrite starts_app. cbn [starts].
    rewrite <- (starts_shift 0 (r0 + r1)). cbn [Nat.add].
    do 3 f_equal. lia.
Qed.

(** X8.  [embed] does not return for a host of fewer than two residues:
    the lookup of the residues 0 and 1 raises. *)
Theorem Ranch_embed_short_host dom to_embed :
  lenResidues dom < 2 → ∃ e, Ranch.embed dom to_embed = Raise e.
Proof.
  intros H. unfold Ranch.embed.
  assert (∃ e, res2atomIndices dom [0; 1] = Raise e) as [e ->]; [|by eexists].
  unfold res2atomIndices, extendIndex, segments. cbn [mapR]. unfold segment.
  assert (resIndex dom !! 1 = None) as ->.
  { apply lookup_ge_None. unfold lenResidues in H. lia. }
  destruct (resIndex dom !! 0); cbn; by eexists.
Qed.

(** ** Merging the chains *)

Lemma mergeChains_build ats rl c0 c1 cl src :
  0 < length ats →
  ∃ ats',
    mergeChains (build ats rl (c0 :: c1 :: cl) src) 0
    = Ok (build ats' rl ((c0 + c1) :: cl) src) ∧
    length ats' = length ats ∧
    map residue_code ats' = map residue_code ats ∧
    map xyz ats' = map xyz ats.
Proof.
  intros Hle.
  unfold mergeChains, build, chainIndex, lenAtoms. cbn [_chainIndex atoms starts].
  destruct ats as [|x ats]; [cbn in Hle; lia|].
  cbn [lookup list_lookup or_raise mbind outcome_bind delete list_delete].
  eexists. split; [reflexivity|]. split; [apply length_imap|].
  split; apply imap_preserves; intros k y; by case_bool_decide.
Qed.

Lemma merge_all cl : ∀ ats rl c0 src start,
  0 < length ats →
  ∃ ats',
    for_each (seq start (length cl)) (λ _, changing (λ full, mergeChains full 0))
             (build ats rl (c0 :: cl) src)
    = (build ats' rl [c0 + sum_list cl] src, Ok ()) ∧
    length ats' = length ats ∧
    map residue_code ats' = map residue_code ats ∧
    map xyz ats' = map xyz ats.
Proof.
  induction cl as [|c1 cl IH]; intros ats rl c0 src start Hle.
  - exists ats. cbn. by rewrite Nat.add_0_r.
  - destruct (mergeChains_build ats rl c0 c1 cl src Hle)
      as (ats1 & Hm & Hl1 & Hc1 & Hx1).
    destruct (IH ats1 rl (c0 + c1) src (S start)) as (ats2 & Hf & Hl2 & Hc2 & Hx2);
      [lia |].
    exists ats2. cbn [length seq for_each].
    rewrite (inplace_bind_Ok _ _ _ (build ats1 rl ((c0 + c1) :: cl) src) ())
      by (unfold changing; by rewrite Hm).
    rewrite Hf.
    change (sum_list (c1 :: cl)) with (c1 + sum_list cl).
    rewrite Nat.add_assoc. repeat split; congruence.
Qed.

Lemma addChainId_one ats rl n src :
  length ats = n →
  addChainId (build ats rl [n] src)
  = Ok (build (map (set_chain_id "A") ats) rl [n] src).
Proof.
  intros Hn. unfold addChainId, chainMap, build, index2map, chainIndex, lenAtoms.
  cbn [_chainIndex atoms starts index2map_go head default].
  rewrite app_nil_r, Nat.sub_0_r, Hn.
  rewrite (mapR_Ok _ (λ p, set_chain_id "A" p.1)).
  - cbn [mbind outcome_bind resIndex _resIndex source]. do 2 f_equal.
    subst n. clear. induction ats as [|x ats IH]; cbn; [done|]. by rewrite IH.
  - apply Forall_forall. intros [x c] Hin.
    apply elem_of_zip_r in Hin. apply elem_of_replicate in Hin as [-> _]. done.
Qed.

Lemma extract_embedded_nil_build ats rl c0 cl src :
  0 < length ats → sum_list rl = length ats → c0 + sum_list cl = length ats →
  ∃ ats',
    Ranch.extract_embedded [] (build ats rl (c0 :: cl) src)
    = (build ats' rl [c0 + sum_list cl] src,
       Ok (build (map (set_chain_id "A") ats') rl [c0 + sum_list cl] None)) ∧
    length ats' = length ats ∧
    map residue_code ats' = map residue_code ats ∧
    map xyz ats' = map xyz ats.
Proof.
  intros Hpos Hsr Hsc.
  destruct (merge_all cl ats rl c0 src 0) as (ats1 & Hf & Hl1 & Hrc1 & Hx1); [lia|].
  destruct (renumberResidues_build ats1 rl [c0 + sum_list cl] src)
    as (ats' & Hren & Hl & Hrc & _ & Hx).
  rewrite Hl1 in Hl. rewrite Hrc1 in Hrc. rewrite Hx1 in Hx.
  exists ats'. split; [|done].
  unfold Ranch.extract_embedded.
  erewrite inplace_bind_Ok by reflexivity.
  cbn [sorted_desc foldr for_each].
  erewrite inplace_bind_Ok by reflexivity.
  erewrite inplace_bind_Ok by reflexivity.
  cbn [lenChains chainIndex _chainIndex build length Nat.sub].
  rewrite length_starts. cbn [length Nat.sub]. rewrite Nat.sub_0_r.
  rewrite (inplace_bind_Ok _ _ _ _ _ Hf).
  rewrite (inplace_bind_Ok _ _ _ (build ats' rl [c0 + sum_list cl] src) ())
    by (unfold changing; by rewrite Hren).
  unfold reading.
  change empty with (build [] [] [] None).
  rewrite concat_build
    by (change (sum_list [c0 + sum_list cl]) with (c0 + sum_list cl + 0); lia).
  rewrite !app_nil_r.
  rewrite addChainId_one by lia.
  done.
Qed.

(** X9.  With an empty dictionary [extract_embedded] still merges the
    chains: a model with atoms comes back as one chain named A, with the
    residues and the coordinates it had; the object passed in is left with
    one chain as well. *)
Theorem Ranch_extract_embedded_nothing full :
  wf full = true → 0 < lenAtoms full →
  ∃ r,
    (Ranch.extract_embedded [] full).2 = Ok r ∧
    sequence r = sequence full ∧
    resIndex r = resIndex full ∧
    chainIndex r = [0] ∧
    map xyz (atoms r) = map xyz (atoms full) ∧
    Forall (λ a, chain_id a = "A") (atoms r) ∧
    lenChains (Ranch.extract_embedded [] full).1 = 1.
Proof.
  intros Hwf Hpos.
  apply wf_shape in Hwf as (rl & cl & Hsh).
  pose proof Hsh as (Hpr & Hpc & Hr & Hc & Hsr & Hsc).
  destruct cl as [|c0 cl]; [cbn in Hsc; lia|].
  change (sum_list (c0 :: cl)) with (c0 + sum_list cl) in Hsc.
  unfold lenAtoms in *.
  destruct (extract_embedded_nil_build (atoms full) rl c0 cl (source full))
    as (ats & Hx & Hl & Hrc & Hxyz); [done..|].
  rewrite <- (shape_build full _ _ Hsh) in Hx. rewrite Hx.
  eexists. split; [reflexivity|].
  cbn [fst build atoms resIndex chainIndex _resIndex _chainIndex starts lenChains length].
  repeat split; try done.
  - rewrite !sequence_codes. cbn [atoms resIndex _resIndex]. rewrite Hr.
    apply f_equal, codes_ext. cbn [build atoms].
    rewrite map_map. cbn. by rewrite <- Hrc.
  - cbn [build atoms]. rewrite map_map. cbn. by rewrite <- Hxyz.
  - apply Forall_forall. intros x Hin.
    apply list_elem_of_fmap in Hin as (y & -> & _). done.
Qed.

(** The same at the level of the invariant, for use on the units of a
    symmetric model. *)
Lemma extract_embedded_nil_wf full :
  wf full = true → 0 < lenAtoms full →
  ∃ r,
    (Ranch.extract_embedded [] full).2 = Ok r ∧
    wf r = true ∧ sequence r = sequence full ∧
    lenChains r = 1 ∧ lenResidues r = lenResidues full ∧
    map xyz (atoms r) = map xyz (atoms full).
Proof.
  intros Hwf Hpos.
  apply wf_shape in Hwf as (rl & cl & Hsh).
  pose proof Hsh as (Hpr & Hpc & Hr & Hc & Hsr & Hsc).
  destruct cl as [|c0 cl]; [cbn in Hsc; lia|].
  change (sum_list (c0 :: cl)) with (c0 + sum_list cl) in Hsc.
  unfold lenAtoms in *.
  destruct (extract_embedded_nil_build (atoms full) rl c0 cl (source full))
    as (ats & Hx & Hl & Hrc & Hxyz); [done..|].
  rewrite <- (shape_build full _ _ Hsh) in Hx. rewrite Hx.
  eexists. split; [reflexivity|]. split; [|split; [|split; [|split]]].
  - apply wf_shape. exists rl, [c0 + sum_list cl]. apply build_shape; [done| | |].
    + apply Forall_singleton. lia.
    + rewrite length_map. lia.
    + rewrite length_map.
      change (sum_list [c0 + sum_list cl]) with (c0 + sum_list cl + 0). lia.
  - rewrite !sequence_codes. cbn [build atoms resIndex _resIndex]. rewrite Hr.
    apply f_equal, codes_ext. rewrite map_map. cbn. by rewrite <- Hrc.
  - done.
  - unfold lenResidues. cbn [build resIndex _resIndex]. by rewrite Hr.
  - cbn [build atoms]. rewrite map_map. cbn. by rewrite <- Hxyz.
Qed.

(** ** What [extract_embedded] does to its argument *)

(** X10.  [extract_embedded] works on the object it is given: after the
    call on [embed(dom, to_embed)] with the position 2, for a model
    [to_embed] that has atoms, that object holds the atoms of the host
    only, in one chain, with the sequence and the coordinates of [dom].
    This holds whatever the number of chains of [to_embed] is, also when
    the last step of the call raises. *)
Theorem Ranch_extract_embedded_in_place dom to_embed :
  wf dom = true → lenChains dom = 1 → 3 ≤ lenResidues dom → wf to_embed = true →
  0 < lenAtoms to_embed →
  ∃ full,
    Ranch.embed dom to_embed = Ok full ∧
    let after := (Ranch.extract_embedded [(to_embed, 2)] full).1 in
    lenAtoms full = lenAtoms dom + lenAtoms to_embed ∧
    lenAtoms after = lenAtoms dom ∧
    sequence after = sequence dom ∧
    resIndex after = resIndex dom ∧
    chainIndex after = [0] ∧
    map xyz (atoms after) = map xyz (atoms dom).
Proof.
  intros Hwd Hc1 Hr3 Hwe Hpos.
  apply wf_shape in Hwd as (rl & cl & Hd).
  apply wf_shape in Hwe as (rl_e & cl_e & He).
  pose proof Hd as (Hpr & Hpc & Hr & Hc & Hsr & Hsc).
  unfold lenChains in Hc1. unfold lenResidues in Hr3.
  rewrite Hc, length_starts in Hc1. rewrite Hr, length_starts in Hr3.
  assert (rl_e ≠ []) as Hres.
  { intros ->. destruct He as (_ & _ & _ & _ & He5 & _). cbn in He5. lia. }
  destruct cl as [|n [|]]; try done.
  destruct rl as [|r0 [|r1 rest]]; cbn in Hr3; try lia.
  assert (rest ≠ []) as Hrest by (destruct rest; [cbn in Hr3; lia | done]).
  destruct (rt_facts dom to_embed r0 r1 n rest rl_e cl_e Hd Hrest He)
    as (? & ? & ? & ? & HA & ? & HE & HC & ? & ?).
  destruct (rt_merge dom to_embed r0 r1 n rest rl_e cl_e Hd Hrest He)
    as (ats1 & Hmerge & Hl1 & Hrc1 & Hxyz1).
  destruct (renumberResidues_build ats1 (r0 :: r1 :: rest) [n] None)
    as (ats2 & Hren & Hl2 & Hrc2 & _ & Hxyz2).
  rewrite Hl1 in Hl2. rewrite Hrc1 in Hrc2. rewrite Hxyz1 in Hxyz2.
  eexists. split; [by eapply (embed_single dom to_embed r0 r1 rest n rl_e cl_e)|].
  remember (build (list.take (r0 + r1) (atoms dom) ++ atoms to_embed ++
                   drop (r0 + r1) (atoms dom))
                  ([r0; r1] ++ rl_e ++ rest)
                  ([r0 + r1] ++ cl_e ++ [sum_list rest]) None) as full eqn:Hfull.
  cbn zeta. unfold Ranch.extract_embedded.
  rewrite (inplace_bind_Ok _ _ full full
             (build (atoms to_embed) rl_e cl_e None, [(2, 2 + length rl_e)]))
    by (unfold reading; subst full;
        by rewrite (rt_collect dom to_embed r0 r1 n rest rl_e cl_e Hd Hrest He Hres)).
  cbn [sorted_desc foldr insert_desc for_each].
  rewrite (inplace_bind_Ok _ _ full
             (build (atoms dom) (r0 :: r1 :: rest) [r0 + r1; sum_list rest] None) ())
    by (subst full;
        by rewrite (inplace_bind_Ok _ _ _ _ _
                      (rt_cut dom to_embed r0 r1 n rest rl_e cl_e Hd Hrest He))).
  erewrite inplace_bind_Ok by reflexivity.
  cbn [lenChains chainIndex _chainIndex build starts length Nat.sub seq for_each].
  rewrite (inplace_bind_Ok _ _ _ (build ats1 (r0 :: r1 :: rest) [n] None) ())
    by (erewrite inplace_bind_Ok; [reflexivity|];
        unfold changing; by rewrite Hmerge).
  rewrite (inplace_bind_Ok _ _ _ (build ats2 (r0 :: r1 :: rest) [n] None) ())
    by (unfold changing; by rewrite Hren).
  unfold reading. cbn [fst].
  subst full. unfold lenAtoms.
  cbn [build atoms resIndex chainIndex _resIndex _chainIndex].
  rewrite !length_app, length_take, length_drop.
  repeat split; try done; try lia.
  - rewrite !sequence_codes. cbn [atoms resIndex _resIndex]. rewrite Hr.
    by apply f_equal, codes_ext.
Qed.


Lemma Ranch_embed_structure_witness :
  ∃ full a,
    Ranch.embed ex_dom ex_emb = Ok full ∧
    resIndex ex_dom !! 2 = Some a ∧
    atoms full = list.take a (atoms ex_dom) ++ atoms ex_emb ++ drop a (atoms ex_dom) ∧
    wf full = true ∧
    lenResidues full = lenResidues ex_dom + lenResidues ex_emb ∧
    chainIndex full
    = 0 :: map (λ k, k + a) (chainIndex ex_emb) ++ [a + lenAtoms ex_emb].
Proof.
  apply (Ranch_embed_structure ex_dom ex_emb).
  - reflexivity.
  - reflexivity.
  - vm_compute. lia.
  - reflexivity.
Defined.

Lemma Ranch_embed_short_host_witness :
  ∃ e, Ranch.embed ex_one ex_emb = Raise e.
Proof.
  apply (Ranch_embed_short_host ex_one ex_emb). vm_compute. lia.
Defined.

(** A host of exactly two residues: nothing is left for the piece after the
    embedded model, and the empty list of residues makes [embed] raise. *)
Example embed_host_of_two_residues :
  lenResidues ex_middle = 2 ∧ Ranch.embed ex_middle ex_emb = Raise ValueError.
Proof. split; vm_compute; reflexivity. Qed.

Lemma Ranch_extract_embedded_nothing_witness :
  ∃ r,
    (Ranch.extract_embedded [] ex_emb).2 = Ok r ∧
    sequence r = sequence ex_emb ∧
    resIndex r = resIndex ex_emb ∧
    chainIndex r = [0] ∧
    map xyz (atoms r) = map xyz (atoms ex_emb) ∧
    Forall (λ a, chain_id a = "A") (atoms r) ∧
    lenChains (Ranch.extract_embedded [] ex_emb).1 = 1.
Proof.
  apply (Ranch_extract_embedded_nothing ex_emb).
  - reflexivity.
  - vm_compute. lia.
Defined.

Lemma Ranch_extract_embedded_in_place_witness :
  ∃ full,
    Ranch.embed ex_dom ex_emb26 = Ok full ∧
    let after := (Ranch.extract_embedded [(ex_emb26, 2)] full).1 in
    lenAtoms full = lenAtoms ex_dom + lenAtoms ex_emb26 ∧
    lenAtoms after = lenAtoms ex_dom ∧
    sequence after = sequence ex_dom ∧
    resIndex after = resIndex ex_dom ∧
    chainIndex after = [0] ∧
    map xyz (atoms after) = map xyz (atoms ex_dom).
Proof.
  apply (Ranch_extract_embedded_in_place ex_dom ex_emb26).
  - reflexivity.
  - reflexivity.
  - vm_compute. lia.
  - reflexivity.
  - vm_compute. lia.
Defined.

(** ** The files of a call stay in its temporary directory *)

Lemma fresh_string_prefix {A} (s : string) (m : gmap string A) :
  ∃ d, fresh_string s m = s +:+ d.
Proof.
  unfold fresh_string. destruct (m !! s) as [a|] eqn:Hs; [clear a Hs|].
  2: { exists "". by rewrite str_app_nil_r. }
  generalize 0%N (wf_guard 32 (fresh_string_R_wf s m) 0%N). revert m.
  fix FIX 3. intros m n [?]. simpl. unfold fresh_string_go at 1. simpl.
  destruct (Some_dec (m !! _)) as [[??]|?]; [auto | eauto].
Qed.

Lemma prefix_app (a b : string) : String.prefix a (a +:+ b) = true.
Proof.
  induction a as [|c a IH]; [by destruct b|].
  change (String c a +:+ b) with (String c (a +:+ b)). cbn.
  by destruct (Ascii.ascii_dec c c).
Qed.

Lemma under_below root rest : under root (root +:+ "/" +:+ rest) = true.
Proof.
  unfold under. apply orb_true_iff. right.
  rewrite <- str_app_assoc. apply prefix_app.
Qed.

Lemma under_self root : under root root = true.
Proof. unfold under. by rewrite bool_decide_eq_true_2. Qed.

Lemma mkdtemp_under prefix dir (fs : FS) :
  under dir (mkdtemp prefix dir fs).1 = true.
Proof.
  unfold mkdtemp. cbn [fst].
  destruct (fresh_string_prefix (dir +:+ "/" +:+ prefix) fs) as [d ->].
  rewrite !str_app_assoc. apply under_below.
Qed.

Lemma not_under_ne root p q : under root p = false → under root q = true → q ≠ p.
Proof. intros Hp Hq ->. congruence. Qed.

Lemma tryRemove_tree_frame root (fs : FS) p :
  under root p = false → tryRemove_tree root fs !! p = fs !! p.
Proof.
  intros Hu. unfold tryRemove_tree.
  destruct (fs !! p) as [x|] eqn:E.
  - apply map_lookup_filter_Some. split; [done|]. cbn [fst]. rewrite Hu. by intros [].
  - apply map_lookup_filter_None. by left.
Qed.

Lemma tryRemove_tree_fresh root (fs : FS) :
  (∀ p, under root p = true → fs !! p = None) → tryRemove_tree root fs = fs.
Proof.
  intros H. apply map_eq. intros p.
  destruct (under root p) eqn:E.
  - by rewrite tryRemove_tree_under, H.
  - by apply tryRemove_tree_frame.
Qed.

Lemma Executor_cleanup_init name tempdir cwd args a debug (fs : FS) :
  Executor.cleanup (Executor.set_args (Executor.__init__ name tempdir cwd args debug) a) fs
  = fs.
Proof. unfold Executor.cleanup. cbn. by destruct debug. Qed.

(** What the constructor of Ranch leaves: the two directories, and an
    object that knows them. *)
Lemma Ranch_init_files tmp domains chains symmetry symtemplate symunit overall_sym
    fixed multich debug (fs fs1 : FS) r :
  Ranch.__init__ tmp domains chains symmetry symtemplate symunit overall_sym
                 fixed multich debug fs = (fs1, r) →
  ∃ tempdir dir_models,
    fs !! tempdir = None ∧ fs !! dir_models = None ∧ tempdir ≠ dir_models ∧
    under tempdir dir_models = true ∧
    fs1 = <[dir_models := Dir]> (<[tempdir := Dir]> fs) ∧
    ∀ self, r = Ok self →
      Ranch.exe self = Executor.__init__ "ranch" tempdir (Some tempdir) "" debug ∧
      Ranch.dir_models self = dir_models ∧
      Ranch.f_seq self = tempdir +:+ "/sequence.seq".
Proof.
  intros H. unfold Ranch.__init__ in H.
  destruct (mkdtemp_fresh "ranch_" tmp fs) as [Hf1 Hi1].
  pose proof (mkdtemp_under "models_" (mkdtemp "ranch_" tmp fs).1
                (mkdtemp "ranch_" tmp fs).2) as Hu.
  destruct (mkdtemp "ranch_" tmp fs) as [tempdir fs0]. cbn [fst snd] in Hf1, Hi1, Hu.
  destruct (mkdtemp_fresh "models_" tempdir fs0) as [Hf2 Hi2].
  destruct (mkdtemp "models_" tempdir fs0) as [dir_models fs2].
  cbn [fst snd] in Hf2, Hi2, Hu.
  injection H as <- H. subst fs2 fs0.
  assert (tempdir ≠ dir_models) as Hne.
  { intros ->. by rewrite lookup_insert_eq in Hf2. }
  exists tempdir, dir_models. repeat split; try done.
  - by rewrite lookup_insert_ne in Hf2.
  - subst r. apply bind_Ok in H0 as (code & _ & H).
    apply bind_Ok in H as (su & _ & H).
    apply bind_Ok in H as (self1 & Hsetup & H). injection H as <-.
    apply setup_config in Hsetup. unfold config in Hsetup. cbn in Hsetup.
    by simplify_eq.
  - subst r. apply bind_Ok in H0 as (code & _ & H).
    apply bind_Ok in H as (su & _ & H).
    apply bind_Ok in H as (self1 & Hsetup & H). injection H as <-.
    apply setup_config in Hsetup. unfold config in Hsetup. cbn in Hsetup.
    by simplify_eq.
  - subst r. apply bind_Ok in H0 as (code & _ & H).
    apply bind_Ok in H as (su & _ & H).
    apply bind_Ok in H as (self1 & Hsetup & H). injection H as <-.
    apply setup_config in Hsetup. unfold config in Hsetup. cbn in Hsetup.
    by simplify_eq.
Qed.

Lemma prepare_frame (self : Ranch.t) (fs fs' : FS) r :
  Ranch.prepare self fs = (fs', r) →
  Ranch.f_seq self = Executor.tempdir (Ranch.exe self) +:+ "/sequence.seq" →
  (∀ p, under (Executor.tempdir (Ranch.exe self)) p = false → fs' !! p = fs !! p) ∧
  (∀ self', r = Ok self' →
     ∃ a, Ranch.exe self' = Executor.set_args (Ranch.exe self) a).
Proof.
  intros H Hseq. unfold Ranch.prepare in H.
  assert (∀ p, under (Executor.tempdir (Ranch.exe self)) p = false →
            (Ranch.write_pdbs self 0 (Ranch.doms_in self) fs).1 !! p = fs !! p)
    as Hframe.
  { intros p Hp. apply write_pdbs_frame. intros k s _.
    apply not_eq_sym. eapply not_under_ne; [exact Hp | apply under_below]. }
  destruct (Ranch.write_pdbs self 0 (Ranch.doms_in self) fs)
    as [fs1 [self1|e]] eqn:Hw; cbn [fst] in Hframe.
  - apply write_pdbs_Ok in Hw as (names & -> & _ & _).
    destruct (foldl_add_pdb names self) as [Hcfg _].
    unfold config in Hcfg.
    injection Hcfg as _ Hfs _ _ _ _ _ _ _ _ _ _ Hexe.
    destruct (write_file _ _ fs1) as [fs2|e] eqn:Hw2.
    + apply write_file_inv in Hw2 as ->. injection H as <- <-. split.
      * intros p Hp. rewrite Hfs, Hseq.
        rewrite lookup_insert_ne
          by (eapply not_under_ne; [exact Hp | apply (under_below _ "sequence.seq")]).
        by apply Hframe.
      * intros self' H. unfold Ranch.make_args in H.
        repeat (apply bind_Ok in H as (? & _ & H)).
        injection H as <-. eexists. cbn [Ranch.set_args Ranch.exe]. by rewrite Hexe.
    + injection H as <- <-. by split.
  - injection H as <- <-. by split.
Qed.

(** X11.  When the constructor of Ranch raises, the two temporary
    directories it made before are still in the file system, and nothing
    else has changed. *)
Theorem Ranch_init_raise_leaves_dirs tmp domains chains symmetry symtemplate symunit
    overall_sym fixed multich debug (fs fs1 : FS) e :
  Ranch.__init__ tmp domains chains symmetry symtemplate symunit overall_sym
                 fixed multich debug fs = (fs1, Raise e) →
  ∃ tempdir dir_models,
    fs !! tempdir = None ∧ fs !! dir_models = None ∧ tempdir ≠ dir_models ∧
    fs1 !! tempdir = Some Dir ∧ fs1 !! dir_models = Some Dir ∧
    ∀ p, p ≠ tempdir → p ≠ dir_models → fs1 !! p = fs !! p.
Proof.
  intros H.
  destruct (Ranch_init_files _ _ _ _ _ _ _ _ _ _ _ _ _ H)
    as (tempdir & dir_models & H1 & H2 & Hne & _ & -> & _).
  exists tempdir, dir_models. repeat split; try done.
  - by rewrite lookup_insert_ne, lookup_insert_eq.
  - by rewrite lookup_insert_eq.
  - intros p Hp1 Hp2. by rewrite !lookup_insert_ne.
Qed.

(** X12.  The constructor, [prepare] and [cleanup] of Ranch touch no path
    outside the temporary directory of the call; when [debug] is false and
    nothing lay below that directory before, [cleanup] after [prepare]
    gives back the file system the constructor found. *)
Theorem Ranch_files_confined tmp domains chains symmetry symtemplate symunit
    overall_sym fixed multich debug (fs fs1 fs2 : FS) self self2 :
  Ranch.__init__ tmp domains chains symmetry symtemplate symunit overall_sym
                 fixed multich debug fs = (fs1, Ok self) →
  Ranch.prepare self fs1 = (fs2, Ok self2) →
  let tempdir := Executor.tempdir (Ranch.exe self) in
  (∀ p, under tempdir p = false →
     fs1 !! p = fs !! p ∧ fs2 !! p = fs !! p ∧
     Ranch.cleanup self2 fs2 !! p = fs !! p) ∧
  (debug = false → (∀ p, under tempdir p = true → fs !! p = None) →
   Ranch.cleanup self2 fs2 = fs).
Proof.
  intros Hinit Hprep tempdir.
  destruct (Ranch_init_files _ _ _ _ _ _ _ _ _ _ _ _ _ Hinit)
    as (td & dm & H1 & H2 & Hne & Hu & -> & Hself).
  destruct (Hself self eq_refl) as (Hexe & Hdm & Hseq).
  assert (tempdir = td) as Htd by (unfold tempdir; by rewrite Hexe).
  destruct (prepare_frame _ _ _ _ Hprep) as [Hframe Hexe2].
  { by rewrite Hseq, Hexe. }
  destruct (Hexe2 self2 eq_refl) as [a Ha]. fold tempdir in Hframe.
  assert (∀ p, under tempdir p = false →
            (<[dm:=Dir]> (<[td:=Dir]> fs) : FS) !! p = fs !! p) as Hf1.
  { intros p Hp. rewrite !lookup_insert_ne; [done| |].
    - eapply not_under_ne; [exact Hp|]. rewrite Htd. apply under_self.
    - eapply not_under_ne; [exact Hp|]. by rewrite Htd. }
  assert (∀ p, under tempdir p = false →
            Ranch.cleanup self2 fs2 !! p = fs2 !! p) as Hf3.
  { intros p Hp. unfold Ranch.cleanup. rewrite Ha, Hexe.
    rewrite Executor_cleanup_init. cbn [Executor.set_args Executor.__init__
      Executor.debug Executor.tempdir].
    destruct debug; cbn [negb]; [done|].
    apply tryRemove_tree_frame. by rewrite <- Htd. }
  split.
  - intros p Hp. rewrite Hf3, Hframe, Hf1 by done. done.
  - intros -> Hfresh. apply map_eq. intros p.
    destruct (under tempdir p) eqn:E.
    + rewrite Hfresh by done. unfold Ranch.cleanup. rewrite Ha, Hexe.
      rewrite Executor_cleanup_init. cbn [Executor.set_args Executor.__init__
        Executor.debug Executor.tempdir negb].
      apply tryRemove_tree_under. by rewrite <- Htd.
    + rewrite Hf3, Hframe, Hf1 by done. done.
Qed.

(** ** The paths of Pulchra *)

Lemma fresh_string_cases {A} (s : string) (m : gmap string A) :
  fresh_string s m = s ∨ ∃ n : N, fresh_string s m = s +:+ pretty n.
Proof.
  unfold fresh_string. destruct (m !! s) as [a|] eqn:Hs; [clear a Hs|by left].
  right.
  generalize 0%N (wf_guard 32 (fresh_string_R_wf s m) 0%N). revert m.
  fix FIX 3. intros m n [?]. simpl. unfold fresh_string_go at 1. simpl.
  destruct (Some_dec (m !! _)) as [[??]|?]; [auto | eauto].
Qed.

Lemma pretty_N_go_length x : ∀ s,
  String.length s ≤ String.length (pretty_N_go x s).
Proof.
  induction (N.lt_wf_0 x) as [x _ IH]; intros s.
  assert (x = 0 ∨ 0 < x)%N as [->|Hx] by lia.
  - by rewrite pretty_N_go_0.
  - rewrite pretty_N_go_step by done.
    etransitivity; [|apply IH; by apply N.div_lt]. cbn. lia.
Qed.

Lemma pretty_N_last (n : N) :
  ∃ l c, Py.chars (pretty n) = l ++ [c] ∧ c ≠ "/"%char.
Proof.
  assert (Forall is_digit (Py.chars (pretty n)) ∧ Py.chars (pretty n) ≠ [])
    as [Hd Hne].
  { unfold pretty, pretty_N. case_decide.
    - split; [repeat constructor | done].
    - split; [by apply pretty_N_go_digits|].
      rewrite pretty_N_go_step by lia.
      match goal with
      | |- Py.chars (pretty_N_go ?x ?s) ≠ [] =>
          pose proof (pretty_N_go_length x s) as Hl;
          destruct (pretty_N_go x s); [cbn in Hl; lia | done]
      end. }
  destruct (exists_last Hne) as (l & c & Hl). exists l, c. split; [done|].
  rewrite Hl, Forall_app, Forall_singleton in Hd. destruct Hd as [_ Hd].
  intros ->. by apply slash_not_digit.
Qed.

Lemma mkdtemp_last lp c0 prefix dir (fs : FS) :
  Py.chars prefix = lp ++ [c0] → c0 ≠ "/"%char →
  ∃ l c, Py.chars (mkdtemp prefix dir fs).1 = l ++ [c] ∧ c ≠ "/"%char.
Proof.
  intros Hp Hc0. unfold mkdtemp. cbn [fst].
  destruct (fresh_string_cases (dir +:+ "/" +:+ prefix) fs) as [-> | [n ->]].
  - exists (Py.chars dir ++ Py.chars "/" ++ lp), c0.
    rewrite !chars_app, Hp, <- !app_assoc. done.
  - destruct (pretty_N_last n) as (l & c & Hl & Hc).
    exists (Py.chars (dir +:+ "/" +:+ prefix) ++ l), c.
    rewrite chars_app, Hl, <- !app_assoc. done.
Qed.

Lemma path_join_plain a l c b :
  Py.chars a = l ++ [c] → c ≠ "/"%char → String.prefix "/" b = false →
  path_join a b = a +:+ "/" +:+ b.
Proof.
  intros Ha Hc Hb. unfold path_join. rewrite Hb.
  rewrite bool_decide_eq_false_2.
  2: { intros ->. by destruct l. }
  rewrite bool_decide_eq_false_2; [done|].
  unfold Py.last_n. rewrite len_chars, Ha, length_app. cbn [length].
  replace (length l + 1 - 1) with (length l) by lia.
  rewrite drop_app_length. cbn. intros H. injection H as H. by apply Hc.
Qed.

(** What the constructor of Pulchra leaves: the directory with the model
    in it, and an object that knows the two paths. *)
Lemma Pulchra_init_files tmp here model debug (fs fs1 : FS) self :
  Pulchra.__init__ tmp here model debug fs = (fs1, self) →
  ∃ td,
    fs !! td = None ∧
    fs1 = <[td +:+ "/" +:+ "model.pdb" := PdbFile model]> (<[td := Dir]> fs) ∧
    Pulchra.exe self
    = Executor.__init__ "pulchra" td None (td +:+ "/" +:+ "model.pdb") debug ∧
    Pulchra.rb_path self = td +:+ "/model.rebuilt.pdb".
Proof.
  intros H. unfold Pulchra.__init__ in H.
  destruct (mkdtemp_fresh "pulchra_" tmp fs) as [Hf1 Hi1].
  destruct (mkdtemp_last (Py.chars "pulchra") "_"%char "pulchra_" tmp fs)
    as (l & c & Hl & Hc); [done | done |].
  destruct (mkdtemp "pulchra_" tmp fs) as [td fs0]. cbn [fst snd] in Hf1, Hi1, Hl.
  injection H as <- <-. subst fs0.
  cbn [Pulchra.exe Pulchra.rb_path].
  rewrite (path_join_plain td l c "model.pdb" Hl Hc eq_refl).
  exists td. repeat split; [done|].
  rewrite <- str_app_assoc. rewrite drop_last3_model.
  by rewrite !str_app_assoc.
Qed.

(** X13.  The constructor of Pulchra writes the model to [model.pdb] in the
    temporary directory, where it can be read back, and expects the result
    in [model.rebuilt.pdb] next to it; no path outside the directory is
    touched by the constructor or by [cleanup], and with [debug] false
    [cleanup] gives back the file system the constructor found, when nothing
    lay below the directory before. *)
Theorem Pulchra_files_confined tmp here model debug (fs fs1 : FS) self :
  Pulchra.__init__ tmp here model debug fs = (fs1, self) →
  let tempdir := Executor.tempdir (Pulchra.exe self) in
  let pdb_path := Executor.args (Pulchra.exe self) in
  pdb_path = tempdir +:+ "/model.pdb" ∧
  Pulchra.rb_path self = tempdir +:+ "/model.rebuilt.pdb" ∧
  read_pdb pdb_path fs1
  = Ok (mkModel (atoms model) (resIndex model) (chainIndex model) (Some pdb_path)) ∧
  (∀ p, under tempdir p = false →
     fs1 !! p = fs !! p ∧ Pulchra.cleanup self fs1 !! p = fs !! p) ∧
  (debug = false → (∀ p, under tempdir p = true → fs !! p = None) →
   Pulchra.cleanup self fs1 = fs).
Proof.
  intros H tempdir pdb_path.
  destruct (Pulchra_init_files _ _ _ _ _ _ _ H) as (td & Hfresh & -> & Hexe & Hrb).
  unfold tempdir, pdb_path, Pulchra.cleanup in *. clear tempdir pdb_path.
  rewrite Hexe, Hrb.
  cbn [Executor.__init__ Executor.tempdir Executor.args Executor.debug].
  assert (∀ p, under td p = false →
            (<[td +:+ "/" +:+ "model.pdb" := PdbFile model]> (<[td := Dir]> fs) : FS) !! p
            = fs !! p) as Hframe.
  { intros p Hp. rewrite !lookup_insert_ne; [done| |].
    - eapply not_under_ne; [exact Hp | apply under_self].
    - eapply not_under_ne; [exact Hp | apply under_below]. }
  split; [done|]. split; [done|]. split.
  { unfold read_pdb. by rewrite lookup_insert_eq. }
  split.
  - intros p Hp. split; [by apply Hframe|].
    destruct debug; cbn [negb]; [by apply Hframe|].
    rewrite tryRemove_tree_frame by done. by apply Hframe.
  - intros -> Hnone. cbn [negb]. apply map_eq. intros p.
    destruct (under td p) eqn:E.
    + rewrite Hnone by done. by apply tryRemove_tree_under.
    + rewrite tryRemove_tree_frame by done. by apply Hframe.
Qed.

(** X16.  [Pulchra.finish] returns when the rebuilt file is there, and
    does not return once [cleanup] has run with [debug] false: the rebuilt
    file lies in the directory that [cleanup] removes. *)
Theorem Pulchra_finish_after_cleanup tmp here model (fs fs1 fs2 : FS) self :
  Pulchra.__init__ tmp here model false fs = (fs1, self) →
  (∀ rebuilt, fs2 !! Pulchra.rb_path self = Some (PdbFile rebuilt) →
     is_Ok (Pulchra.finish self fs2)) ∧
  ∃ e, Pulchra.finish self (Pulchra.cleanup self fs2) = Raise e.
Proof.
  intros H.
  destruct (Pulchra_init_files _ _ _ _ _ _ _ H) as (td & Hfresh & -> & Hexe & Hrb).
  split.
  - intros rebuilt Hfile. unfold Pulchra.finish, read_pdb. rewrite Hfile.
    by eexists.
  - unfold Pulchra.finish, Pulchra.cleanup, read_pdb. rewrite Hexe, Hrb.
    cbn [Executor.__init__ Executor.tempdir Executor.debug negb].
    rewrite tryRemove_tree_under by apply (under_below td "model.rebuilt.pdb").
    by eexists.
Qed.


Lemma Ranch_init_raise_leaves_dirs_witness :
  ∃ tempdir dir_models,
    (∅ : FS) !! tempdir = None ∧ (∅ : FS) !! dir_models = None ∧
    tempdir ≠ dir_models ∧
    ex_failed.1 !! tempdir = Some Dir ∧ ex_failed.1 !! dir_models = Some Dir ∧
    ∀ p, p ≠ tempdir → p ≠ dir_models → ex_failed.1 !! p = (∅ : FS) !! p.
Proof.
  apply (Ranch_init_raise_leaves_dirs "/tmp" [] ∅ "p1" None None "none" None None
           false ∅ ex_failed.1 KeyError).
  vm_compute. reflexivity.
Defined.

Lemma Ranch_files_confined_witness :
  let tempdir := Executor.tempdir (Ranch.exe ex_made) in
  (∀ p, under tempdir p = false →
     ex_call.1 !! p = (∅ : FS) !! p ∧ ex_prepared.1 !! p = (∅ : FS) !! p ∧
     Ranch.cleanup ex_ready ex_prepared.1 !! p = (∅ : FS) !! p) ∧
  (false = false → (∀ p, under tempdir p = true → (∅ : FS) !! p = None) →
   Ranch.cleanup ex_ready ex_prepared.1 = ∅).
Proof.
  apply (Ranch_files_confined "/tmp"
           [Ranch.EStr "GG"; Ranch.EModel 0 ex_dom; Ranch.EStr "S"]
           ∅ "p1" None None "mixed" None None false ∅ ex_call.1 ex_prepared.1
           ex_made ex_ready).
  - vm_compute. reflexivity.
  - vm_compute. reflexivity.
Defined.

Lemma Pulchra_files_confined_witness :
  let self := ex_pulchra.2 in
  let tempdir := Executor.tempdir (Pulchra.exe self) in
  let pdb_path := Executor.args (Pulchra.exe self) in
  pdb_path = tempdir +:+ "/model.pdb" ∧
  Pulchra.rb_path self = tempdir +:+ "/model.rebuilt.pdb" ∧
  read_pdb pdb_path ex_pulchra.1
  = Ok (mkModel (atoms ex_dom) (resIndex ex_dom) (chainIndex ex_dom) (Some pdb_path)) ∧
  (∀ p, under tempdir p = false →
     ex_pulchra.1 !! p = (∅ : FS) !! p ∧
     Pulchra.cleanup self ex_pulchra.1 !! p = (∅ : FS) !! p) ∧
  (false = false → (∀ p, under tempdir p = true → (∅ : FS) !! p = None) →
   Pulchra.cleanup self ex_pulchra.1 = ∅).
Proof.
  apply (Pulchra_files_confined "/tmp" "/opt/multiprot" ex_dom false ∅
           ex_pulchra.1 ex_pulchra.2).
  apply surjective_pairing.
Defined.

Lemma Pulchra_finish_after_cleanup_witness :
  (∀ rebuilt,
     (<[Pulchra.rb_path ex_pulchra.2 := PdbFile ex_emb]> ex_pulchra.1 : FS)
       !! Pulchra.rb_path ex_pulchra.2 = Some (PdbFile rebuilt) →
     is_Ok (Pulchra.finish ex_pulchra.2
              (<[Pulchra.rb_path ex_pulchra.2 := PdbFile ex_emb]> ex_pulchra.1))) ∧
  ∃ e, Pulchra.finish ex_pulchra.2
         (Pulchra.cleanup ex_pulchra.2
            (<[Pulchra.rb_path ex_pulchra.2 := PdbFile ex_emb]> ex_pulchra.1))
       = Raise e.
Proof.
  apply (Pulchra_finish_after_cleanup "/tmp" "/opt/multiprot" ex_dom ∅
           ex_pulchra.1 _ ex_pulchra.2).
  apply surjective_pairing.
Defined.

(** ** [TypeError] in [extract_symmetric] *)

Lemma symunit_at_TypeError full symseq embedded istart :
  Ranch.symunit_at full symseq embedded istart = Raise TypeError →
  ∃ unit, takeResidues full (seq istart (Py.len symseq)) = Ok unit ∧
          Exists (misplaced unit) embedded.
Proof.
  unfold Ranch.symunit_at.
  replace (istart + Py.len symseq - istart) with (Py.len symseq) by lia.
  intros H. apply bind_Raise in H as [H | (unit & Hu & H)].
  { by apply takeResidues_not_TypeError in H. }
  exists unit. split; [done|].
  apply extract_embedded_TypeError_collect in H.
  by apply collect_TypeError_misplaced in H.
Qed.

(** X14.  For a [symseq] that is a word without operators of regular
    expressions, [extract_symmetric] raises [TypeError] when [symseq] does
    not occur in the sequence of [full].  When it raises [TypeError],
    either [symseq] does not occur, or an entry of the dictionary does not
    fit one of the units cut out at the matches; with an empty dictionary
    the first is the only case. *)
Theorem Ranch_extract_symmetric_TypeError full symseq embedded :
  re.literal symseq = true →
  (re.search symseq (sequence full) = false →
   Ranch.extract_symmetric full symseq embedded = Raise TypeError) ∧
  (Ranch.extract_symmetric full symseq embedded = Raise TypeError →
   re.search symseq (sequence full) = false ∨
   ∃ istart unit,
     istart ∈ re.finditer symseq (sequence full) ∧
     takeResidues full (seq istart (Py.len symseq)) = Ok unit ∧
     Exists (misplaced unit) embedded) ∧
  (Ranch.extract_symmetric full symseq [] = Raise TypeError ↔
   re.search symseq (sequence full) = false).
Proof.
  intros _.
  assert (∀ emb, Ranch.extract_symmetric full symseq emb = Raise TypeError →
            re.search symseq (sequence full) = false ∨
            ∃ istart unit,
              istart ∈ re.finditer symseq (sequence full) ∧
              takeResidues full (seq istart (Py.len symseq)) = Ok unit ∧
              Exists (misplaced unit) emb) as Hgen.
  { intros emb H. unfold Ranch.extract_symmetric in H.
    destruct (re.search symseq (sequence full)); [right | by left].
    apply bind_Raise in H as [H | (units & _ & H)].
    - apply mapR_Raise in H as (istart & Hin & H).
      apply symunit_at_TypeError in H as (unit & Hu & Hex). eauto.
    - apply bind_Raise in H as [H | (r0 & _ & H)].
      + by destruct (head units).
      + pose proof (addChainId_not_TypeError (foldl concat r0 (tail units))) as Hn.
        by destruct (addChainId _). }
  assert (re.search symseq (sequence full) = false →
          ∀ emb, Ranch.extract_symmetric full symseq emb = Raise TypeError) as Hno.
  { intros H emb. unfold Ranch.extract_symmetric. by rewrite H. }
  split; [by auto|]. split; [by auto|]. split; [|by auto].
  intros H. apply Hgen in H as [H | (istart & unit & _ & _ & Hex)]; [done|].
  by apply Exists_nil in Hex.
Qed.

Lemma Ranch_extract_symmetric_TypeError_witness :
  re.literal "KK" = true ∧
  (re.search "KK" (sequence ex_sym) = false →
   Ranch.extract_symmetric ex_sym "KK" [(ex_emb, 0)] = Raise TypeError) ∧
  (Ranch.extract_symmetric ex_sym "KK" [(ex_emb, 0)] = Raise TypeError →
   re.search "KK" (sequence ex_sym) = false ∨
   ∃ istart unit,
     istart ∈ re.finditer "KK" (sequence ex_sym) ∧
     takeResidues ex_sym (seq istart (Py.len "KK")) = Ok unit ∧
     Exists (misplaced unit) [(ex_emb, 0)]) ∧
  (Ranch.extract_symmetric ex_sym "KK" [] = Raise TypeError ↔
   re.search "KK" (sequence ex_sym) = false).
Proof.
  split; [reflexivity|].
  apply (Ranch_extract_symmetric_TypeError ex_sym "KK" [(ex_emb, 0)]).
  reflexivity.
Defined.

(** ** A symmetric model, unit by unit *)

Lemma finditer_go_skip p x rest : ∀ pos,
  re.finditer_go p (x ++ rest) pos (length x)
  = re.finditer_go p rest (pos + length x) 0.
Proof.
  induction x as [|a x IH]; intros pos.
  - cbn [app length]. by rewrite Nat.add_0_r.
  - cbn [app length re.finditer_go]. rewrite IH. f_equal. lia.
Qed.

Lemma finditer_go_repeat c p' n : ∀ pos,
  re.finditer_go (c :: p') (List.concat (replicate n (c :: p'))) pos 0
  = map (λ k, pos + k * length (c :: p')) (seq 0 n).
Proof.
  induction n as [|n IH]; intros pos; [done|].
  cbn [replicate List.concat].
  remember (List.concat (replicate n (c :: p'))) as rest eqn:Hrest.
  assert (Py.starts (c :: p') (c :: p' ++ rest) = true) as Hs.
  { apply starts_spec. by exists rest. }
  cbn [app re.finditer_go]. rewrite Hs.
  replace (length (c :: p') - 1) with (length p') by (cbn [length]; lia).
  rewrite finditer_go_skip, IH.
  cbn [seq map]. f_equal; [lia|].
  rewrite <- fmap_S_seq, <- list_fmap_compose.
  apply map_ext. intros k. cbn [compose length]. lia.
Qed.

Lemma chars_repeat s n : Py.chars (Py.repeat s n) = List.concat (replicate n (Py.chars s)).
Proof.
  induction n as [|n IH]; [done|]. cbn [Py.repeat replicate List.concat].
  by rewrite chars_app, IH.
Qed.

Lemma finditer_repeat symseq n :
  symseq ≠ "" →
  re.finditer symseq (Py.repeat symseq n)
  = map (λ k, k * Py.len symseq) (seq 0 n).
Proof.
  intros Hne. unfold re.finditer. rewrite chars_repeat, len_chars.
  destruct (Py.chars symseq) as [|c p'] eqn:E.
  { destruct Hne. apply chars_inj. by rewrite E. }
  rewrite finditer_go_repeat. by apply map_ext.
Qed.

Lemma len_repeat s n : Py.len (Py.repeat s n) = n * Py.len s.
Proof.
  induction n as [|n IH]; [done|]. cbn [Py.repeat]. rewrite len_app, IH. lia.
Qed.

Lemma search_repeat symseq n : 0 < n → re.search symseq (Py.repeat symseq n) = true.
Proof.
  intros Hn. destruct n as [|n]; [lia|]. unfold re.search.
  apply contains_spec. exists "", (Py.repeat symseq n). done.
Qed.

(** The residues [a, a + k) of a model: a model of [k] residues whose
    sequence is the slice of the sequence. *)
Lemma takeResidues_range_spec m a k :
  wf m = true → a + k ≤ lenResidues m → 0 < k →
  ∃ u, takeResidues m (seq a k) = Ok u ∧
    wf u = true ∧ 0 < lenAtoms u ∧ lenResidues u = k ∧
    sequence u = Py.slice (sequence m) a (a + k).
Proof.
  intros Hwf Hle Hk. pose proof Hwf as Hwf'.
  apply wf_shape in Hwf as (rl & cl & Hs).
  pose proof Hs as (Hpr & Hpc & Hr & Hc & Hsr & Hsc).
  unfold lenResidues in Hle. rewrite Hr, length_starts in Hle.
  set (l1 := list.take a rl). set (l2 := list.take k (drop a rl)).
  set (l3 := drop k (drop a rl)).
  assert (rl = l1 ++ l2 ++ l3) as Hrl.
  { unfold l1, l2, l3. by rewrite !take_drop. }
  assert (length l1 = a) as Hl1 by (unfold l1; rewrite length_take; lia).
  assert (length l2 = k) as Hl2
    by (unfold l2; rewrite length_take, length_drop; lia).
  assert (Forall (λ l, 0 < l) l2) as Hp2.
  { rewrite Hrl in Hpr. by apply Forall_app in Hpr as [_ [? _]%Forall_app]. }
  assert (0 < sum_list l2) as Hs2.
  { destruct l2 as [|x l2']; [cbn in Hl2; lia|].
    apply Forall_cons in Hp2 as [? _].
    change (sum_list (x :: l2')) with (x + sum_list l2'). lia. }
  assert (sum_list l1 + sum_list l2 ≤ lenAtoms m) as Hfit.
  { rewrite <- Hsr. apply sum_list_take_drop_le. }
  unfold takeResidues, res2atomIndices.
  rewrite Hr, <- Hsr, extendIndex_seq by done. cbn [mbind outcome_bind].
  fold l1 l2.
  erewrite take_range; [|done|done].
  eexists. split; [reflexivity|].
  assert (map2index (list.take (sum_list l2)
                       (drop (sum_list l1) (vblocks (numbered 0 rl))))
          = starts 0 l2) as Hri.
  { rewrite Hrl, vblocks_slice. by apply map2index_numbered. }
  split; [|split; [|split]].
  - eapply take_wf. erewrite take_range; [reflexivity|done|done].
  - unfold lenAtoms. cbn [atoms]. rewrite length_take, length_drop.
    unfold lenAtoms in Hfit. lia.
  - unfold lenResidues, resIndex. cbn [_resIndex]. by rewrite Hri, length_starts.
  - rewrite !sequence_codes. unfold resIndex at 1. cbn [atoms _resIndex].
    rewrite Hri, Hr, Hrl, slice_str.
    rewrite codes_take by (apply (starts_lt 0); done).
    rewrite codes_drop.
    rewrite !starts_app, !codes_app. f_equal.
    assert (Forall (λ k, k < length (atoms m)) (starts 0 (l1 ++ l2 ++ l3))) as Hlt.
    { rewrite <- Hrl. unfold lenAtoms in Hsr. rewrite <- Hsr.
      apply (starts_lt 0). done. }
    rewrite !starts_app, !Forall_app in Hlt. destruct Hlt as (Ha & Hb & _).
    rewrite drop_app_length'
      by (rewrite length_codes, length_starts; done).
    replace (a + k - a) with k by lia.
    rewrite take_app_length'; [done|].
    rewrite length_codes, length_starts; done.
Qed.

Lemma repeat_add s j k : Py.repeat s (j + k) = Py.repeat s j +:+ Py.repeat s k.
Proof.
  induction j as [|j IH]; [done|]. cbn [Nat.add Py.repeat].
  by rewrite IH, str_app_assoc.
Qed.

Lemma slice_repeat s n k :
  k < n → Py.slice (Py.repeat s n) (k * Py.len s) (k * Py.len s + Py.len s) = s.
Proof.
  intros Hk. replace n with (k + (1 + (n - k - 1))) by lia.
  rewrite !repeat_add. cbn [Py.repeat]. rewrite str_app_nil_r.
  rewrite <- (len_repeat s k). apply slice_middle.
Qed.

Lemma concat_wf a b :
  wf a = true → wf b = true →
  wf (concat a b) = true ∧
  sequence (concat a b) = sequence a +:+ sequence b ∧
  lenChains (concat a b) = lenChains a + lenChains b ∧
  lenResidues (concat a b) = lenResidues a + lenResidues b.
Proof.
  intros Ha Hb.
  apply wf_shape in Ha as (rl1 & cl1 & Hs1).
  apply wf_shape in Hb as (rl2 & cl2 & Hs2).
  pose proof Hs1 as (Hpr1 & Hpc1 & Hr1 & Hc1 & Hsr1 & Hsc1).
  pose proof Hs2 as (Hpr2 & Hpc2 & Hr2 & Hc2 & Hsr2 & Hsc2).
  split; [|split; [|split]].
  - rewrite (shape_build a _ _ Hs1), (shape_build b _ _ Hs2).
    rewrite concat_build by done.
    apply wf_shape. eexists _, _. apply build_shape.
    + by apply Forall_app.
    + by apply Forall_app.
    + rewrite sum_list_with_app, length_app. unfold lenAtoms in *. lia.
    + rewrite sum_list_with_app, length_app. unfold lenAtoms in *. lia.
  - apply sequence_concat. by eapply shape_resIndex_lt.
  - unfold lenChains, concat, chainIndex. cbn [_chainIndex].
    by rewrite length_app, length_map.
  - unfold lenResidues, concat, resIndex. cbn [_resIndex].
    by rewrite length_app, length_map.
Qed.

Lemma foldl_concat_units s L rs : ∀ r0 j,
  wf r0 = true → sequence r0 = Py.repeat s j →
  lenChains r0 = j → lenResidues r0 = j * L →
  Forall (λ r, wf r = true ∧ sequence r = s ∧ lenChains r = 1 ∧ lenResidues r = L) rs →
  wf (foldl concat r0 rs) = true ∧
  sequence (foldl concat r0 rs) = Py.repeat s (j + length rs) ∧
  lenChains (foldl concat r0 rs) = j + length rs ∧
  lenResidues (foldl concat r0 rs) = (j + length rs) * L.
Proof.
  induction rs as [|r rs IH]; intros r0 j Hw Hs Hc Hr Hall.
  - cbn. by rewrite Nat.add_0_r.
  - apply Forall_cons in Hall as [(Hwr & Hsr & Hcr & Hrr) Hall].
    destruct (concat_wf r0 r Hw Hwr) as (Hw' & Hs' & Hc' & Hr').
    cbn [foldl length].
    replace (j + S (length rs)) with (S j + length rs) by lia.
    apply IH; [done| | | |done].
    + rewrite Hs', Hs, Hsr. replace (S j) with (j + 1) by lia.
      rewrite repeat_add. cbn [Py.repeat]. by rewrite str_app_nil_r.
    + lia.
    + rewrite Hr', Hr, Hrr. lia.
Qed.

Lemma addChainId_wf m :
  wf m = true → lenChains m ≤ 26 →
  ∃ r, addChainId m = Ok r ∧ sequence r = sequence m ∧
       lenChains r = lenChains m ∧ lenResidues r = lenResidues m.
Proof.
  intros Hwf Hle. apply wf_shape in Hwf as (rl & cl & Hs).
  pose proof Hs as (_ & _ & _ & Hc & _ & _).
  destruct (addChainId_shape m rl cl Hs) as (ats & Hadd & Hrc & _).
  { unfold lenChains in Hle. by rewrite Hc, length_starts in Hle. }
  eexists. split; [exact Hadd|]. split; [|done].
  rewrite !sequence_codes. cbn [atoms resIndex _resIndex].
  by apply f_equal, codes_ext.
Qed.

(** X15.  For a model whose sequence is [symseq] repeated [n] times, with
    [n] from 1 to 26, and an empty dictionary, [extract_symmetric] returns
    a model of [n] chains, one per unit, with the sequence and the number of
    residues of [full]. *)
Theorem Ranch_extract_symmetric_units full symseq n :
  wf full = true → symseq ≠ "" →
  sequence full = Py.repeat symseq n →
  1 ≤ n ≤ 26 →
  ∃ r,
    Ranch.extract_symmetric full symseq [] = Ok r ∧
    sequence r = sequence full ∧
    lenChains r = n ∧
    lenResidues r = lenResidues full.
Proof.
  intros Hwf Hne Hseq Hn.
  set (L := Py.len symseq).
  assert (0 < L) as HL.
  { unfold L. destruct symseq; [done | cbn; lia]. }
  assert (lenResidues full = n * L) as Hres.
  { by rewrite <- (len_sequence full Hwf), Hseq, len_repeat. }
  unfold Ranch.extract_symmetric.
  rewrite Hseq, search_repeat, finditer_repeat by (done || lia). fold L.
  destruct (mapR_exists (Ranch.symunit_at full symseq [])
              (λ r, wf r = true ∧ sequence r = symseq ∧
                    lenChains r = 1 ∧ lenResidues r = L)
              (map (λ k, k * L) (seq 0 n))) as (units & Hunits & Hall & Hlen).
  { intros istart Hin. apply list_elem_of_fmap in Hin as (k & -> & Hk).
    apply elem_of_seq in Hk. unfold Ranch.symunit_at. fold L.
    replace (k * L + L - k * L) with L by lia.
    destruct (takeResidues_range_spec full (k * L) L Hwf) as (u & Hu & Hwu & Hpu & Hru & Hsu);
      [rewrite Hres; nia | done |].
    rewrite Hu. cbn [mbind outcome_bind].
    destruct (extract_embedded_nil_wf u Hwu Hpu) as (r & Hr & Hwr & Hsr & Hcr & Hrr & _).
    exists r. split; [done|]. split; [done|]. split; [|split; [done|lia]].
    rewrite Hsr, Hsu, Hseq. unfold L. apply slice_repeat. lia. }
  rewrite Hunits. cbn [mbind outcome_bind].
  rewrite length_map, length_seq in Hlen.
  destruct units as [|r0 rs]; [cbn in Hlen; lia|].
  cbn [head or_raise mbind outcome_bind tail]. cbn [length] in Hlen.
  apply Forall_cons in Hall as [(Hw0 & Hs0 & Hc0 & Hr0) Hall].
  destruct (foldl_concat_units symseq L rs r0 1) as (Hwf' & Hs' & Hc' & Hr');
    [done | by rewrite Hs0; cbn; rewrite str_app_nil_r | done | lia | done |].
  destruct (addChainId_wf (foldl concat r0 rs) Hwf') as (r & Hadd & Hsr & Hcr & Hrr);
    [lia|].
  rewrite Hadd. cbn [fmap outcome_fmap]. unfold set_serial_number.
  exists r. split; [done|].
  rewrite Hsr, Hs', Hcr, Hc', Hrr, Hr', Hres.
  replace (1 + length rs) with n by lia. done.
Qed.


Lemma Ranch_extract_symmetric_units_witness :
  ∃ r,
    Ranch.extract_symmetric ex_sym "GH" [] = Ok r ∧
    sequence r = sequence ex_sym ∧
    lenChains r = 2 ∧
    lenResidues r = lenResidues ex_sym.
Proof.
  apply (Ranch_extract_symmetric_units ex_sym "GH" 2).
  - reflexivity.
  - done.
  - reflexivity.
  - lia.
Defined.

(** ** [extract_fixed] finds a chain of the model itself *)

Lemma np_all_eq_refl a : np_all_eq a a = true.
Proof. unfold np_all_eq. rewrite decide_True by done. by apply bool_decide_eq_true. Qed.

(** Blocks that compare equal share a row, when neither is empty. *)
Lemma np_all_eq_common (a b : list (Z * Z * Z)) :
  a ≠ [] → b ≠ [] → np_all_eq a b = true → ∃ x, x ∈ a ∧ x ∈ b.
Proof.
  intros Ha Hb. unfold np_all_eq. destruct (decide (length a = length b)).
  - intros H%bool_decide_eq_true. subst b.
    destruct a as [|x a]; [done|]. exists x. split; left.
  - destruct a as [|x [|x' a]]; [done| |].
    + destruct b as [|y b]; [done|]. cbn [forallb].
      intros [H%bool_decide_eq_true _]%andb_true_iff. subst y.
      exists x. split; left.
    + destruct b as [|y [|y' b]]; [done| |done]. cbn [forallb].
      intros [H%bool_decide_eq_true _]%andb_true_iff. subst y.
      exists x. split; left.
Qed.

(** Two ranges of a list without duplicates that do not overlap share
    no element. *)
Lemma ranges_disjoint {A} (L : list A) p l q l' x :
  NoDup L → p + l ≤ q ∨ q + l' ≤ p →
  x ∈ list.take l (drop p L) → x ∈ list.take l' (drop q L) → False.
Proof.
  intros Hnd Hpq [i Hi]%list_elem_of_lookup_1 [j Hj]%list_elem_of_lookup_1.
  apply lookup_take_Some in Hi as [Hi Hil].
  apply lookup_take_Some in Hj as [Hj Hjl].
  rewrite lookup_drop in Hi, Hj.
  pose proof (NoDup_lookup L _ _ x Hnd Hi Hj). lia.
Qed.

Lemma sum_list_take_mono (lens : list nat) a b :
  a ≤ b → sum_list (list.take a lens) ≤ sum_list (list.take b lens).
Proof.
  intros Hab. replace b with (a + (b - a)) by lia.
  rewrite <- take_take_drop, sum_list_with_app. unfold sum_list. lia.
Qed.

Lemma list_remove_middle x l1 l2 :
  x ∉ l1 → list_remove x (l1 ++ x :: l2) = Ok (l1 ++ l2).
Proof.
  induction l1 as [|y l1 IH]; intros Hn; cbn [app list_remove].
  - by rewrite decide_True.
  - rewrite not_elem_of_cons in Hn. destruct Hn as [Hne Hn].
    rewrite decide_False by done. by rewrite IH.
Qed.

Lemma extendIndex_nonempty i index n :
  i ≠ [] → extendIndex i index n = segments i index n.
Proof. by destruct i. Qed.

Lemma segments_app i1 i2 index n :
  segments (i1 ++ i2) index n
  = (a ← segments i1 index n; b ← segments i2 index n; Ok (a ++ b)).
Proof.
  unfold segments. rewrite mapR_app.
  destruct (mapR (segment index n) i1) as [x|]; cbn; [|done].
  destruct (mapR (segment index n) i2) as [y|]; cbn; [|done].
  by rewrite concat_app.
Qed.

Lemma slice_contains s a p :
  Py.slice s a (a + Py.len p) = p → Py.contains p s = true.
Proof.
  intros H. apply contains_spec.
  exists (Py.str (list.take a (Py.chars s))),
         (Py.str (drop (Py.len p) (drop a (Py.chars s)))).
  apply (f_equal Py.chars) in H. unfold Py.slice in H.
  replace (a + Py.len p - a) with (Py.len p) in H by lia.
  rewrite chars_str in H.
  apply chars_inj. rewrite !chars_app, !chars_str, <- H, !take_drop. done.
Qed.

(** The positions [N.nonzero] gives. *)
Lemma nonzero_go_app m1 m2 : ∀ pos,
  nonzero_go pos (m1 ++ m2) = nonzero_go pos m1 ++ nonzero_go (pos + length m1) m2.
Proof.
  induction m1 as [|b m1 IH]; intros pos; cbn [app nonzero_go length].
  - by rewrite Nat.add_0_r.
  - rewrite IH, <- app_assoc. do 3 f_equal. lia.
Qed.

Lemma nonzero_go_false m : ∀ pos, Forall (λ b, b = false) m → nonzero_go pos m = [].
Proof.
  induction m as [|b m IH]; intros pos Hall; [done|].
  apply Forall_cons in Hall as [-> Hall]. cbn. by apply IH.
Qed.

Lemma nonzero_go_lt m : ∀ pos, Forall (λ i, i < pos + length m) (nonzero_go pos m).
Proof.
  induction m as [|b m IH]; intros pos; cbn [nonzero_go length]; [done|].
  apply Forall_app. split.
  - destruct b; [|done]. apply Forall_singleton. lia.
  - eapply Forall_impl; [apply IH|]. intros i Hi. cbn in Hi. lia.
Qed.

Lemma increasing_from_lt index : ∀ lo n,
  increasing_from lo index n = true → Forall (λ i, i < n) index.
Proof.
  induction index as [|a index IH]; intros lo n H; [done|].
  cbn [increasing_from] in H. apply andb_true_iff in H as [Ha H].
  apply bool_decide_eq_true in Ha. constructor; [lia | by eapply IH].
Qed.

(** [atom2chainIndices] starts with the chain of the first atom. *)
Lemma atom2chainIndices_head m p more k :
  chainMap m !! p = Some k →
  Forall (λ i, i < length (chainMap m)) more →
  ∃ cs, atom2chainIndices m (p :: more) = Ok (k :: cs).
Proof.
  intros Hp Hmore.
  destruct (np_take_Ok (chainMap m) more Hmore) as [vals Hvals].
  pose proof (wf_index_map2index (k :: vals)) as Hwf.
  cbn [map2index wf_index] in Hwf. apply andb_true_iff in Hwf as [_ Hwf].
  apply increasing_from_lt in Hwf. apply Forall_cons in Hwf as [_ Hwf].
  destruct (np_take_Ok (k :: vals) _ Hwf) as [cs Hcs].
  exists cs. unfold atom2chainIndices.
  change (p :: more) with ([p] ++ more). rewrite np_take_app, Hvals.
  assert (np_take (chainMap m) [p] = Ok [k]) as ->
    by (unfold np_take; cbn [mapR]; by rewrite Hp).
  cbn [or_raise mbind outcome_bind app map2index].
  change (0 :: map2index_go 0 (k :: vals))
    with ([0] ++ map2index_go 0 (k :: vals)).
  rewrite np_take_app, Hcs. done.
Qed.

Section FindChain.

Variables (ats : list Atom) (l1 l2 l3 c1 c3 : list nat) (src : option string).

Let c := sum_list l2.
Let rl := l1 ++ l2 ++ l3.
Let cl := c1 ++ [c] ++ c3.
Let full := build ats rl cl src.
Let dom := build (list.take c (drop (sum_list l1) ats)) l2 [c] src.

Hypothesis Hpr : Forall (λ l, 0 < l) rl.
Hypothesis Hpc : Forall (λ l, 0 < l) cl.
Hypothesis Hs : sum_list rl = length ats.
Hypothesis H1 : sum_list c1 = sum_list l1.
Hypothesis H3 : sum_list c3 = sum_list l3.
Hypothesis Hl2 : l2 ≠ [].
Hypothesis Hnd : NoDup (map xyz ats).
Hypothesis Hc13 : c1 ++ c3 ≠ [].

Local Lemma fc_sums :
  sum_list l1 + c + sum_list l3 = length ats ∧ sum_list cl = length ats ∧
  sum_list [c] = sum_list l2 ∧ 0 < c.
Proof.
  unfold cl, rl in *. rewrite !sum_list_with_app in *.
  change (sum_list [c]) with (c + 0). fold (sum_list l1) (sum_list l2) (sum_list l3)
    (sum_list c1) (sum_list c3) in *. fold c in Hs |- *.
  repeat split; try lia.
  apply Forall_app in Hpc as [_ Hc]. apply Forall_cons in Hc as [Hc _]. done.
Qed.

Local Lemma fc_shape : shape full rl cl.
Proof. destruct fc_sums as (? & ? & ? & ?). by apply build_shape. Qed.

Local Lemma fc_wf : wf full = true.
Proof. apply wf_shape. eexists _, _. apply fc_shape. Qed.

Local Lemma fc_shape_dom : shape dom l2 [c].
Proof.
  destruct fc_sums as (? & ? & ? & ?). apply build_shape.
  - unfold rl in Hpr. by apply Forall_app in Hpr as [_ [? _]%Forall_app].
  - by apply Forall_singleton.
  - rewrite length_take, length_drop. fold c. lia.
  - rewrite length_take, length_drop. change (sum_list [c]) with (c + 0). lia.
Qed.

Local Lemma fc_wf_dom : wf dom = true.
Proof. apply wf_shape. eexists _, _. apply fc_shape_dom. Qed.

(** The chain is the chain number [length c1] of [full]. *)
Local Lemma fc_takeChains : takeChains full [length c1] = Ok dom.
Proof.
  destruct fc_sums as (Hlen & Hcl & Hc & Hpos).
  unfold takeChains, chain2atomIndices.
  change (chainIndex full) with (starts 0 (c1 ++ [c] ++ c3)).
  replace (lenAtoms full) with (sum_list (c1 ++ [c] ++ c3)) by done.
  pose proof (extendIndex_middle c1 [c] c3 ltac:(done)) as Hx.
  change (seq (length c1) (length [c])) with [length c1] in Hx. rewrite Hx.
  cbn [mbind outcome_bind]. rewrite H1, Hc.
  apply take_build_middle; done.
Qed.

Local Lemma fc_takeChains_dom : takeChains dom [0] = Ok dom.
Proof. apply (takeChains_all dom fc_wf_dom). unfold lenChains. cbn. lia. Qed.

(** The chains of [full] but the one taken. *)
Local Lemma fc_others :
  takeChains full (seq 0 (length c1) ++ seq (S (length c1)) (length c3))
  = Ok (build (list.take (sum_list l1) ats ++ drop (sum_list l1 + c) ats)
              (l1 ++ l3) (c1 ++ c3) src).
Proof.
  destruct fc_sums as (Hlen & Hcl & Hc & Hpos).
  unfold takeChains, chain2atomIndices.
  change (chainIndex full) with (starts 0 cl).
  replace (lenAtoms full) with (sum_list cl) by done.
  rewrite extendIndex_nonempty.
  2: { intros E. apply (f_equal length) in E.
       rewrite length_app, !length_seq in E. cbn [length] in E.
       apply Hc13. apply length_zero_iff_nil. rewrite length_app. lia. }
  rewrite segments_app.
  rewrite !segments_seq
    by (unfold cl; rewrite !length_app; cbn [length]; lia).
  cbn [mbind outcome_bind].
  replace (list.take 0 cl) with (@nil nat) by done.
  replace (list.take (length c1) (drop 0 cl)) with c1
    by (unfold cl; by rewrite drop_0, take_app_length).
  replace (list.take (S (length c1)) cl) with (c1 ++ [c]).
  2: { unfold cl. rewrite (app_assoc c1 [c] c3).
       replace (S (length c1)) with (length (c1 ++ [c]))
         by (rewrite length_app; cbn; lia).
       by rewrite take_app_length. }
  replace (list.take (length c3) (drop (S (length c1)) cl)) with c3.
  2: { unfold cl. rewrite (app_assoc c1 [c] c3).
       replace (S (length c1)) with (length (c1 ++ [c]))
         by (rewrite length_app; cbn; lia).
       by rewrite drop_app_length, firstn_all. }
  rewrite sum_list_with_app. change (sum_list []) with 0.
  fold (sum_list c1). change (sum_list_with id [c]) with (c + 0).
  rewrite Nat.add_0_r, H1, H3.
  replace c with (sum_list l2) by done.
  apply take_build_gap; done.
Qed.

(** The first residue of the chain. *)
Let x0 := default 0 (head l2).

Local Lemma fc_first :
  l2 !! 0 = Some x0 ∧ 0 < x0 ∧ x0 ≤ c ∧ rl !! length l1 = Some x0.
Proof.
  pose proof fc_shape_dom as (Hp & _).
  unfold x0, c, rl. destruct l2 as [|x l2']; [done|].
  apply Forall_cons in Hp as [Hx _]. cbn [head default].
  change (sum_list (x :: l2')) with (x + sum_list l2').
  split; [done|]. split; [done|]. split; [unfold id; lia|].
  rewrite lookup_app_r by done. by rewrite Nat.sub_diag.
Qed.

Local Lemma fc_first_res_dom : res2atomIndices dom [0] = Ok (seq 0 x0).
Proof.
  destruct fc_first as (Hx & _).
  by rewrite (res2atomIndices_one dom l2 [c] 0 x0 fc_shape_dom Hx).
Qed.

Local Lemma fc_xyz_dom :
  xyz_slice dom 0 (0 + x0 - 1)
  = list.take x0 (drop (sum_list l1) (map xyz ats)).
Proof.
  destruct fc_first as (_ & Hpos & Hle & _).
  unfold xyz_slice, dom, build. cbn [atoms].
  replace (S (0 + x0 - 1) - 0) with x0 by lia.
  rewrite drop_0, take_take, Nat.min_l by done.
  by rewrite skipn_map, firstn_map.
Qed.

Local Lemma fc_xyz_full idx l :
  rl !! idx = Some l →
  residue_xyz full idx
  = list.take l (drop (sum_list (list.take idx rl)) (map xyz ats)).
Proof.
  intros Hl. rewrite (residue_xyz_shape full rl cl idx l fc_shape Hl).
  by rewrite skipn_map, firstn_map.
Qed.

(** The first residue of the chain compares equal to the residue [idx] of
    [full] at the residue it comes from, and nowhere else. *)
Local Lemma fc_match idx l :
  rl !! idx = Some l →
  np_all_eq (xyz_slice dom 0 (0 + x0 - 1)) (residue_xyz full idx)
  = bool_decide (idx = length l1).
Proof.
  intros Hl. destruct fc_first as (_ & Hpos & Hle & Hx).
  destruct fc_sums as (Hlen & _).
  rewrite fc_xyz_dom, (fc_xyz_full idx l Hl).
  assert (sum_list (list.take (length l1) rl) = sum_list l1) as Hsum.
  { unfold rl. by rewrite take_app_length. }
  assert (0 < l) as Hlpos.
  { rewrite Forall_forall in Hpr. apply Hpr. by eapply list_elem_of_lookup_2. }
  case_bool_decide as Hidx.
  - subst idx. rewrite Hx in Hl. injection Hl as <-. rewrite Hsum.
    apply np_all_eq_refl.
  - apply not_true_is_false. intros Heq.
    pose proof (sum_list_take_S rl idx l Hl) as Hnext.
    pose proof (sum_list_take_S rl (length l1) x0 Hx) as Hnext0.
    pose proof (sum_list_take_drop_le rl idx 1) as Hin.
    rewrite (drop_S _ _ _ Hl) in Hin.
    change (sum_list (list.take 1 (l :: drop (S idx) rl))) with (l + 0) in Hin.
    apply np_all_eq_common in Heq as (x & Hxa & Hxb).
    + eapply (ranges_disjoint (map xyz ats)); [exact Hnd | | exact Hxa | exact Hxb].
      destruct (decide (idx < length l1)).
      * right. pose proof (sum_list_take_mono rl (S idx) (length l1)). lia.
      * left. pose proof (sum_list_take_mono rl (S (length l1)) idx). lia.
    + intros E. apply (f_equal length) in E.
      rewrite length_take, length_drop, length_map in E. cbn [length] in E. lia.
    + intros E. apply (f_equal length) in E.
      rewrite length_take, length_drop, length_map in E. cbn [length] in E. lia.
Qed.

(** The atoms of that residue lie in the chain number [length c1]. *)
Local Lemma fc_chain_of :
  atom2chainIndices full (seq (sum_list l1) x0) = Ok [length c1].
Proof.
  destruct fc_first as (_ & Hpos & Hle & _).
  destruct fc_sums as (Hlen & Hcl & _).
  unfold atom2chainIndices.
  rewrite (shape_chainMap full rl cl fc_shape).
  rewrite np_take_seq.
  2: { rewrite length_vblocks_numbered, Hcl. lia. }
  cbn [mbind outcome_bind].
  assert (list.take x0 (drop (sum_list l1) (vblocks (numbered 0 cl)))
          = replicate x0 (length c1)) as ->.
  { unfold cl. rewrite numbered_app, vblocks_app, <- H1.
    rewrite <- (length_vblocks_numbered 0 c1) at 1.
    rewrite drop_app_length. cbn [app numbered vblocks Nat.add].
    rewrite take_app_le by (rewrite length_replicate; lia).
    by rewrite take_replicate, Nat.min_l. }
  rewrite map2index_replicate by done.
  destruct x0; [lia|]. done.
Qed.

Local Lemma fc_try_matches matches chains :
  (∀ idx, idx ∈ matches → idx < length rl) →
  Ranch.try_matches dom full 0 (0 + x0 - 1) matches chains
  = if bool_decide (length l1 ∈ matches)
    then list_remove (length c1) chains else Ok chains.
Proof.
  induction matches as [|idx matches IH]; intros Hall.
  { rewrite bool_decide_eq_false_2; [done|]. by intros ?%elem_of_nil. }
  assert (idx < length rl) as Hlt by (apply Hall; left).
  destruct (lookup_lt_is_Some_2 rl idx Hlt) as [l Hl].
  assert (0 < l) as Hpos.
  { rewrite Forall_forall in Hpr. apply Hpr. by eapply list_elem_of_lookup_2. }
  cbn [Ranch.try_matches].
  rewrite (res2atomIndices_one _ _ _ _ _ fc_shape Hl). cbn [mbind outcome_bind].
  rewrite head_seq, last_seq by done. cbn [or_raise mbind outcome_bind].
  rewrite (xyz_slice_residue _ _ _ _ _ fc_shape Hl Hpos), (fc_match idx l Hl).
  destruct (decide (idx = length l1)) as [Hidx | Hidx].
  - rewrite (bool_decide_eq_true_2 _ Hidx).
    rewrite Hidx in Hl |- *. destruct fc_first as (_ & _ & _ & Hx).
    rewrite Hx in Hl. injection Hl as <-.
    replace (sum_list (list.take (length l1) rl)) with (sum_list l1)
      by (unfold rl; by rewrite take_app_length).
    rewrite fc_chain_of. cbn [mbind outcome_bind head or_raise].
    rewrite bool_decide_eq_true_2 by left. done.
  - rewrite (bool_decide_eq_false_2 _ Hidx).
    rewrite IH by (intros i Hi; apply Hall; by right).
    apply (f_equal (λ b : bool, if b then _ else _)).
    apply bool_decide_ext. rewrite elem_of_cons.
    split; [by right | by intros [E|E]].
Qed.

Local Lemma fc_locate chains :
  Ranch.locate full dom chains
  = if bool_decide (length l1 ∈ re.finditer (Py.slice (sequence dom) 0 10)
                                            (sequence full))
    then list_remove (length c1) chains else Ok chains.
Proof.
  destruct fc_first as (_ & Hpos & _).
  unfold Ranch.locate.
  assert (Py.slice (sequence dom) 0 10 ≠ "") as Hne.
  { apply slice_nonempty. rewrite (len_sequence dom fc_wf_dom).
    unfold lenResidues, resIndex, dom, build. cbn [_resIndex].
    rewrite length_starts. destruct l2; [done | cbn; lia]. }
  destruct (re.search _ _) eqn:Hsearch.
  - rewrite fc_first_res_dom. cbn [mbind outcome_bind].
    rewrite head_seq, last_seq by done. cbn [or_raise mbind outcome_bind].
    apply fc_try_matches. intros idx Hin.
    apply finditer_sound in Hin as [_ Hin].
    specialize (Hin Hne). rewrite (len_sequence full fc_wf) in Hin.
    unfold lenResidues, resIndex, full, build in Hin. cbn [_resIndex] in Hin.
    by rewrite length_starts in Hin.
  - rewrite bool_decide_eq_false_2; [done|]. intros Hin.
    apply finditer_sound in Hin as [Hocc _].
    apply slice_contains in Hocc. unfold re.search in Hsearch. congruence.
Qed.

(** [extract_fixed] on the chain and the model it comes from. *)
Local Lemma fc_extract_fixed :
  Ranch.extract_fixed dom full
  = if bool_decide (length l1 ∈ re.finditer (Py.slice (sequence dom) 0 10)
                                            (sequence full))
    then takeChains full (seq 0 (length c1) ++ seq (S (length c1)) (length c3))
    else Ok full.
Proof.
  unfold Ranch.extract_fixed.
  replace (lenChains dom) with 1 by done.
  cbn [seq mapR]. rewrite fc_takeChains_dom.
  cbn [mbind outcome_bind Ranch.locate_all]. rewrite fc_locate.
  assert (lenChains full = length c1 + S (length c3)) as Hn.
  { unfold lenChains, chainIndex, full, build, cl. cbn [_chainIndex].
    rewrite length_starts, !length_app. cbn [length]. lia. }
  case_bool_decide.
  - rewrite Hn, seq_app. cbn [seq Nat.add].
    rewrite list_remove_middle.
    2: { intros Hin%elem_of_seq. lia. }
    cbn [mbind outcome_bind]. do 3 f_equal; lia.
  - cbn [mbind outcome_bind]. apply (takeChains_all full fc_wf). lia.
Qed.

(** *** The chain named in the [chains] dictionary *)

Variable cid : string.
Hypothesis Hbefore :
  Forall (λ a, chain_id a ≠ cid) (list.take (sum_list l1) ats).
Hypothesis Hchain :
  Forall (λ a, chain_id a = cid) (list.take c (drop (sum_list l1) ats)).

Local Lemma fc_mask :
  ∃ more, nonzero (maskFrom_chain_id full cid) = sum_list l1 :: more ∧
          Forall (λ i, i < length ats) more.
Proof.
  destruct fc_sums as (Hlen & _ & _ & Hpos).
  unfold nonzero, maskFrom_chain_id, full, build. cbn [atoms].
  assert (map (λ a, bool_decide (chain_id a = cid)) ats
          = map (λ a, bool_decide (chain_id a = cid)) (list.take (sum_list l1) ats) ++
            map (λ a, bool_decide (chain_id a = cid)) (drop (sum_list l1) ats)) as ->
    by (by rewrite <- map_app, take_drop).
  rewrite nonzero_go_app, length_map, length_take.
  rewrite nonzero_go_false.
  2: { apply Forall_forall. intros b Hb.
       apply list_elem_of_fmap in Hb as (a & -> & Ha).
       rewrite Forall_forall in Hbefore. apply bool_decide_eq_false_2.
       by apply Hbefore. }
  replace (0 + sum_list l1 `min` length ats) with (sum_list l1) by lia.
  destruct (drop (sum_list l1) ats) as [|a0 tail] eqn:Hd.
  { apply (f_equal length) in Hd. rewrite length_drop in Hd. cbn in Hd. lia. }
  assert (chain_id a0 = cid) as Ha0.
  { rewrite Forall_forall in Hchain. apply Hchain.
    destruct c; [lia|]. left. }
  cbn [map nonzero_go app]. rewrite bool_decide_eq_true_2 by done.
  eexists. split; [reflexivity|].
  eapply Forall_impl; [apply nonzero_go_lt|]. intros i Hi. cbn in Hi.
  rewrite length_map in Hi.
  apply (f_equal length) in Hd. rewrite length_drop in Hd. cbn [length] in Hd. lia.
Qed.

Local Lemma fc_chain_ind :
  ∃ cs, atom2chainIndices full (nonzero (maskFrom_chain_id full cid))
        = Ok (length c1 :: cs).
Proof.
  destruct fc_mask as (more & -> & Hmore).
  destruct fc_sums as (Hlen & Hcl & _ & Hpos).
  apply atom2chainIndices_head.
  - rewrite (shape_chainMap full rl cl fc_shape).
    unfold cl. rewrite numbered_app, vblocks_app, <- H1.
    rewrite <- (length_vblocks_numbered 0 c1) at 1.
    rewrite lookup_app_r, Nat.sub_diag by done.
    cbn [app numbered vblocks Nat.add].
    rewrite lookup_app_l by (rewrite length_replicate; lia).
    by apply lookup_replicate_2.
  - rewrite (shape_chainMap full rl cl fc_shape), length_vblocks_numbered, Hcl.
    done.
Qed.

(** Steps 8 and 9 of the diagram on [full]: the chain is the host, the
    other chains are embedded into it. *)
Local Lemma fc_embed_chain (self : Ranch.t) :
  length l1 ∈ re.finditer (Py.slice (sequence dom) 0 10) (sequence full) →
  3 ≤ length l2 →
  ∃ others m_emb,
    takeChains full (seq 0 (length c1) ++ seq (S (length c1)) (length c3))
    = Ok others ∧
    Ranch.embed dom others = Ok m_emb ∧
    sequence m_emb = Py.slice (sequence dom) 0 2 +:+ sequence others +:+
                     Py.slice_from (sequence dom) 2 ∧
    Ranch.embed_chain self full cid
    = Ok (Ranch.add_dom
            (Ranch.add_sequence
               (Ranch.add_embedded self others (Py.len (Ranch.sequence self) + 2))
               (sequence m_emb))
            m_emb).
Proof.
  intros Hfound Hlen2.
  destruct fc_chain_ind as (cs & Hcs).
  pose proof fc_others as Hothers.
  assert (wf (build (list.take (sum_list l1) ats ++ drop (sum_list l1 + c) ats)
                    (l1 ++ l3) (c1 ++ c3) src) = true) as Hwo.
  { unfold takeChains in Hothers. apply bind_Ok in Hothers as (i & _ & Ht).
    by eapply take_wf. }
  destruct (embed_sequence dom _ fc_wf_dom Hwo) as (m_emb & Hemb & Hseq).
  { unfold lenResidues, resIndex, dom, build. cbn [_resIndex].
    by rewrite length_starts. }
  eexists _, m_emb. split; [exact Hothers|]. split; [exact Hemb|].
  split; [exact Hseq|].
  unfold Ranch.embed_chain. rewrite Hcs.
  cbn [mbind outcome_bind head or_raise].
  rewrite fc_takeChains. cbn [mbind outcome_bind].
  rewrite fc_extract_fixed, bool_decide_eq_true_2 by done.
  rewrite Hothers. cbn [mbind outcome_bind].
  rewrite Hemb. done.
Qed.

End FindChain.

(** X17.  [extract_fixed] on a chain of the model itself, for a model of
    at least two chains, made of whole residues per chain and with no two
    atoms in one place: when the first residue of the chain is among the
    matches the search yields, the result is the model without that chain,
    all other chains in their order; when it is not, the result is the
    whole model. *)
Theorem Ranch_extract_fixed_chain ats l1 l2 l3 c1 c3 src :
  let full := build ats (l1 ++ l2 ++ l3) (c1 ++ [sum_list l2] ++ c3) src in
  let k := length c1 in
  Forall (λ l, 0 < l) (l1 ++ l2 ++ l3) →
  Forall (λ l, 0 < l) (c1 ++ [sum_list l2] ++ c3) →
  sum_list (l1 ++ l2 ++ l3) = length ats →
  sum_list c1 = sum_list l1 → sum_list c3 = sum_list l3 →
  l2 ≠ [] → c1 ++ c3 ≠ [] →
  NoDup (map xyz ats) →
  ∃ dom others,
    takeChains full [k] = Ok dom ∧
    takeChains full (seq 0 k ++ seq (S k) (length c3)) = Ok others ∧
    atoms others
    = list.take (sum_list l1) ats ++ drop (sum_list l1 + sum_list l2) ats ∧
    let found :=
      length l1 ∈ re.finditer (Py.slice (sequence dom) 0 10) (sequence full) in
    (found → Ranch.extract_fixed dom full = Ok others) ∧
    (¬ found → Ranch.extract_fixed dom full = Ok full).
Proof.
  intros full k Hpr Hpc Hs H1 H3 Hl2 Hc13 Hnd.
  eexists _, _.
  split; [by apply fc_takeChains|].
  split; [by apply fc_others|].
  split; [done|].
  cbn zeta. unfold full.
  rewrite fc_extract_fixed by done.
  split; intros Hin.
  - rewrite bool_decide_eq_true_2 by done. by apply fc_others.
  - by rewrite bool_decide_eq_false_2.
Qed.


Lemma Ranch_extract_fixed_chain_witness :
  let full := build ex_trimer_atoms ([1; 1] ++ [1; 1] ++ [1; 1])
                    ([2] ++ [sum_list [1; 1]] ++ [2]) None in
  ∃ dom others,
    takeChains full [1] = Ok dom ∧
    takeChains full (seq 0 1 ++ seq 2 1) = Ok others ∧
    atoms others
    = list.take (sum_list [1; 1]) ex_trimer_atoms ++
      drop (sum_list [1; 1] + sum_list [1; 1]) ex_trimer_atoms ∧
    let found :=
      2 ∈ re.finditer (Py.slice (sequence dom) 0 10) (sequence full) in
    (found → Ranch.extract_fixed dom full = Ok others) ∧
    (¬ found → Ranch.extract_fixed dom full = Ok full).
Proof.
  apply (Ranch_extract_fixed_chain ex_trimer_atoms [1; 1] [1; 1] [1; 1] [2] [2] None).
  - repeat constructor.
  - repeat constructor.
  - reflexivity.
  - reflexivity.
  - reflexivity.
  - done.
  - done.
  - apply (bool_decide_unpack _). by vm_compute.
Defined.

(** The middle chain is found among three chains of the same sequence:
    the first match of the sequence lies in another place, the second is
    the chain. *)
Example extract_fixed_middle_of_three :
  let full := build ex_trimer_atoms [1; 1; 1; 1; 1; 1] [2; 2; 2] None in
  ∃ dom, takeChains full [1] = Ok dom ∧
         Ranch.extract_fixed dom full = takeChains full [0; 2].
Proof. eexists. split; vm_compute; reflexivity. Qed.

(** X18.  The constructor on a paired model whose [chains] entry is one
    chain id: the chain with that id, of at least three residues, is the
    host, the other chains are embedded after its first two residues; the sequence of this embedding
    is added to the sequence, the embedding to [doms_in], and the other
    chains are recorded in [embedded] at the length of the sequence before
    plus 2.  The arguments before and after are linkers and models of one
    chain. *)
Theorem Ranch_init_paired tmp pre ref post chains symmetry symunit overall_sym
    fixed multich debug (fs : FS) ats l1 l2 l3 c1 c3 src cid dom :
  let element := build ats (l1 ++ l2 ++ l3) (c1 ++ [sum_list l2] ++ c3) src in
  let k := length c1 in
  Forall (λ l, 0 < l) (l1 ++ l2 ++ l3) →
  Forall (λ l, 0 < l) (c1 ++ [sum_list l2] ++ c3) →
  sum_list (l1 ++ l2 ++ l3) = length ats →
  sum_list c1 = sum_list l1 → sum_list c3 = sum_list l3 →
  NoDup (map xyz ats) →
  3 ≤ length l2 → c1 ++ c3 ≠ [] →
  Forall (λ a, chain_id a ≠ cid) (list.take (sum_list l1) ats) →
  Forall (λ a, chain_id a = cid) (list.take (sum_list l2) (drop (sum_list l1) ats)) →
  chains !! ref = Some (Ranch.ChainId cid) →
  Forall plain pre → Forall plain post →
  overall_sym ∈ overall_sym_keys →
  Ranch.given fixed = None → Ranch.given multich = None →
  takeChains element [k] = Ok dom →
  length l1 ∈ re.finditer (Py.slice (sequence dom) 0 10) (sequence element) →
  ∃ self others m_emb,
    (Ranch.__init__ tmp (pre ++ Ranch.EModel ref element :: post) chains symmetry
                    None symunit overall_sym fixed multich debug fs).2 = Ok self ∧
    takeChains element (seq 0 k ++ seq (S k) (length c3)) = Ok others ∧
    Ranch.embed dom others = Ok m_emb ∧
    Ranch.sequence self
    = linked_sequence pre +:+
      (Py.slice (sequence dom) 0 2 +:+ sequence others +:+
       Py.slice_from (sequence dom) 2) +:+
      linked_sequence post ∧
    Ranch.embedded self = [(others, Py.len (linked_sequence pre) + 2)] ∧
    Ranch.doms_in self = models_of pre ++ m_emb :: models_of post.
Proof.
  intros element k Hpr Hpc Hs H1 H3 Hnd Hlen2 Hmore Hbefore Hchain Hentry
    Hpre Hpost Hk Hf Hm Hdom Hfound.
  assert (l2 ≠ []) as Hl2 by (destruct l2; [cbn in Hlen2; lia | done]).
  pose proof (fc_takeChains ats l1 l2 l3 c1 c3 src Hpr Hpc Hs H1 H3) as Hdom'.
  fold element k in Hdom'. rewrite Hdom in Hdom'. injection Hdom' as ->.
  destruct (overall_sym_code _ Hk) as [code Hc].
  destruct (init_no_template tmp (pre ++ Ranch.EModel ref element :: post) chains
              symmetry symunit overall_sym code fixed multich debug fs Hc)
    as (tempdir & dir_models & ->).
  rewrite Hf, Hm. cbn [default from_option].
  unfold Ranch._setup. cbn [Ranch.domains].
  set (n := length (models_of (pre ++ Ranch.EModel ref element :: post))).
  assert (n = length (models_of pre) + S (length (models_of post))) as Hn.
  { unfold n. by rewrite models_of_app, length_app. }
  match goal with
  | |- context [Ranch.setup_loop ?x 0 _] =>
      destruct (setup_loop_plain pre x 0 (Ranch.EModel ref element :: post) Hpre)
        as (s1 & G1 & G2 & G3 & G4 & G5 & G6)
  end.
  { intros j Hj. exists "no". split; [|done]. cbn [Ranch.multich].
    apply lookup_replicate_no. lia. }
  rewrite G1. unfold config in G2. cbn in G2, G3, G4, G5, G6.
  injection G2 as E1 E2 E3 E4 E5 E6 E7 E8 E9 E10 E11 E12 E13.
  cbn [Ranch.setup_loop Nat.add]. rewrite E4, E9, E10.
  rewrite !lookup_replicate_no by lia.
  cbn [or_raise mbind outcome_bind].
  rewrite decide_False by done.
  rewrite decide_False.
  2: { unfold lenChains, chainIndex, element, build. cbn [_chainIndex].
       rewrite length_starts, !length_app. cbn [length].
       destruct c1, c3; cbn [length]; try lia. done. }
  cbn [mbind outcome_bind]. rewrite bool_decide_eq_false_2 by done.
  rewrite Hentry. cbn [or_raise mbind outcome_bind].
  destruct (fc_embed_chain ats l1 l2 l3 c1 c3 src Hpr Hpc Hs H1 H3 Hl2 Hnd Hmore cid
              Hbefore Hchain s1 Hfound Hlen2)
    as (others & m_emb & Hothers & Hemb & Hseq & Hchain_ok).
  fold element in Hchain_ok. rewrite Hchain_ok. cbn [mbind outcome_bind].
  match goal with
  | |- context [Ranch.setup_loop ?x ?i post] =>
      destruct (setup_loop_plain post x i [] Hpost)
        as (s2 & F1 & F2 & F3 & F4 & F5 & F6)
  end.
  { intros j Hj. exists "no". split; [|done].
    cbn [Ranch.multich Ranch.add_dom Ranch.add_sequence Ranch.add_embedded].
    rewrite E10. apply lookup_replicate_no. lia. }
  rewrite app_nil_r in F1. rewrite F1. cbn [Ranch.setup_loop mbind outcome_bind].
  unfold config in F2. cbn in F2, F3, F4, F5, F6.
  injection F2 as D1 D2 D3 D4 D5 D6 D7 D8 D9 D10 D11 D12 D13.
  rewrite D6, E6. cbn [Ranch.symtemplate_truthy].
  exists s2, others, m_emb.
  split; [done|]. split; [exact Hothers|]. split; [exact Hemb|].
  rewrite F3, F4, F5, G3, G4, G5, Hseq. cbn [app].
  split; [by rewrite !str_app_assoc|]. split; [done|].
  by rewrite <- app_assoc.
Qed.


Lemma Ranch_init_paired_witness :
  ∃ self others m_emb,
    (Ranch.__init__ "/tmp" ([Ranch.EStr "GG"] ++ Ranch.EModel 0 ex_complex ::
                            [Ranch.EStr "S"])
                    {[ 0 := Ranch.ChainId "B" ]} "p1" None None "mixed" None None
                    false ∅).2 = Ok self ∧
    takeChains ex_complex (seq 0 1 ++ seq 2 1) = Ok others ∧
    Ranch.embed ex_host others = Ok m_emb ∧
    Ranch.sequence self
    = linked_sequence [Ranch.EStr "GG"] +:+
      (Py.slice (sequence ex_host) 0 2 +:+ sequence others +:+
       Py.slice_from (sequence ex_host) 2) +:+
      linked_sequence [Ranch.EStr "S"] ∧
    Ranch.embedded self = [(others, Py.len (linked_sequence [Ranch.EStr "GG"]) + 2)] ∧
    Ranch.doms_in self
    = models_of [Ranch.EStr "GG"] ++ m_emb :: models_of [Ranch.EStr "S"].
Proof.
  apply (Ranch_init_paired "/tmp" [Ranch.EStr "GG"] 0 [Ranch.EStr "S"]
           {[ 0 := Ranch.ChainId "B" ]} "p1" None "mixed" None None false ∅
           ex_complex_atoms [1; 1] [1; 1; 1] [1; 1] [2] [2] None "B" ex_host).
  - repeat constructor.
  - repeat constructor.
  - reflexivity.
  - reflexivity.
  - reflexivity.
  - apply (bool_decide_unpack _). by vm_compute.
  - cbn. lia.
  - done.
  - repeat constructor; done.
  - repeat constructor.
  - reflexivity.
  - repeat constructor.
  - repeat constructor.
  - by left.
  - reflexivity.
  - reflexivity.
  - reflexivity.
  - apply (bool_decide_unpack _). by vm_compute.
Defined.

(** The sequence the constructor builds there: the linker, the first two
    residues of the host, the two other chains, the rest of the host, and
    the last linker; a host of two residues makes the constructor raise. *)
Example init_paired_sequence :
  (Ranch.sequence <$>
     (Ranch.__init__ "/tmp" [Ranch.EStr "GG"; Ranch.EModel 0 ex_complex; Ranch.EStr "S"]
                     {[ 0 := Ranch.ChainId "B" ]} "p1" None None "mixed" None None
                     false ∅).2) = Ok "GGGHGHGHKS" ∧
  (Ranch.__init__ "/tmp" [Ranch.EStr "GG"; Ranch.EModel 0 ex_trimer; Ranch.EStr "S"]
                  {[ 0 := Ranch.ChainId "B" ]} "p1" None None "mixed" None None
                  false ∅).2 = Raise ValueError.
Proof. split; vm_compute; reflexivity. Qed.

(** A chain the search passes over: the match found at the start of the
    sequence reaches into the chain, the next search starts after it, and
    [extract_fixed] returns the whole model. *)
Example extract_fixed_passes_over :
  let full :=
    build [ex_atom "A" "A" 1; ex_atom "B" "A" 2; ex_atom "A" "B" 3;
           ex_atom "B" "B" 4; ex_atom "A" "B" 5; ex_atom "B" "B" 6]
          [1; 1; 1; 1; 1; 1] [2; 4] None in
  ∃ dom, takeChains full [1] = Ok dom ∧
         re.finditer (Py.slice (sequence dom) 0 10) (sequence full) = [0] ∧
         Ranch.extract_fixed dom full = Ok full.
Proof. eexists. repeat split; vm_compute; reflexivity. Qed.

(** ** A model marked as fixed *)

(** X19.  A model whose flag in [fixed] is yes is taken as it is, however
    many chains it has: its sequence and the model itself are added,
    nothing is embedded and [chains] is not looked at. *)
Theorem Ranch_init_fixed tmp pre ref m post chains symmetry symunit overall_sym
    (flags : list string) multich debug (fs : FS) :
  Forall plain pre → Forall plain post →
  flags !! length (models_of pre) = Some "yes" →
  overall_sym ∈ overall_sym_keys →
  Ranch.given multich = None →
  ∃ self,
    (Ranch.__init__ tmp (pre ++ Ranch.EModel ref m :: post) chains symmetry None
                    symunit overall_sym (Some flags) multich debug fs).2 = Ok self ∧
    Ranch.sequence self
    = linked_sequence pre +:+ sequence m +:+ linked_sequence post ∧
    Ranch.doms_in self = models_of pre ++ m :: models_of post ∧
    Ranch.embedded self = [].
Proof.
  intros Hpre Hpost Hyes Hk Hm.
  destruct (overall_sym_code _ Hk) as [code Hc].
  destruct (init_no_template tmp (pre ++ Ranch.EModel ref m :: post) chains
              symmetry symunit overall_sym code (Some flags) multich debug fs Hc)
    as (tempdir & dir_models & ->).
  assert (Ranch.given (Some flags) = Some flags) as ->.
  { destruct flags; [by rewrite lookup_nil in Hyes | done]. }
  rewrite Hm. cbn [default from_option].
  unfold Ranch._setup. cbn [Ranch.domains].
  set (n := length (models_of (pre ++ Ranch.EModel ref m :: post))).
  assert (n = length (models_of pre) + S (length (models_of post))) as Hn.
  { unfold n. by rewrite models_of_app, length_app. }
  match goal with
  | |- context [Ranch.setup_loop ?x 0 _] =>
      destruct (setup_loop_plain pre x 0 (Ranch.EModel ref m :: post) Hpre)
        as (s1 & G1 & G2 & G3 & G4 & G5 & G6)
  end.
  { intros j Hj. exists "no". split; [|done]. cbn [Ranch.multich].
    apply lookup_replicate_no. lia. }
  rewrite G1. unfold config in G2. cbn in G2, G3, G4, G5, G6.
  injection G2 as E1 E2 E3 E4 E5 E6 E7 E8 E9 E10 E11 E12 E13.
  cbn [Ranch.setup_loop Nat.add]. rewrite E9, E10, Hyes.
  rewrite lookup_replicate_no by lia.
  cbn [or_raise mbind outcome_bind].
  rewrite decide_False by done.
  assert ((if decide (lenChains m = 1) then Ok true
           else Ok (bool_decide ("yes" = "yes"))) = @Ok bool true) as ->
    by (by destruct (decide _)).
  cbn [mbind outcome_bind].
  match goal with
       | |- context [Ranch.setup_loop ?x ?i post] =>
           destruct (setup_loop_plain post x i [] Hpost)
             as (s2 & F1 & F2 & F3 & F4 & F5 & F6);
           [intros j Hj; exists "no"; split; [|done];
            cbn [Ranch.multich Ranch.add_dom Ranch.add_sequence];
            rewrite E10; apply lookup_replicate_no; lia|]
       end.
  rewrite app_nil_r in F1. rewrite F1.
  cbn [Ranch.setup_loop mbind outcome_bind].
  unfold config in F2. cbn in F2, F3, F4, F5, F6.
  injection F2 as D1 D2 D3 D4 D5 D6 D7 D8 D9 D10 D11 D12 D13.
  rewrite D6, E6. cbn [Ranch.symtemplate_truthy].
  exists s2. split; [done|].
  rewrite F3, F4, F5, G3, G4, G5. cbn [app].
  split; [by rewrite !str_app_assoc|]. split; [|done].
  by rewrite <- app_assoc.
Qed.

Lemma Ranch_init_fixed_witness :
  ∃ self,
    (Ranch.__init__ "/tmp" ([Ranch.EStr "GG"] ++ Ranch.EModel 0 ex_pair ::
                            [Ranch.EStr "S"])
                    ∅ "p1" None None "mixed" (Some ["yes"]) None false ∅).2
    = Ok self ∧
    Ranch.sequence self
    = linked_sequence [Ranch.EStr "GG"] +:+ sequence ex_pair +:+
      linked_sequence [Ranch.EStr "S"] ∧
    Ranch.doms_in self
    = models_of [Ranch.EStr "GG"] ++ ex_pair :: models_of [Ranch.EStr "S"] ∧
    Ranch.embedded self = [].
Proof.
  apply (Ranch_init_fixed "/tmp" [Ranch.EStr "GG"] 0 ex_pair [Ranch.EStr "S"] ∅
           "p1" None "mixed" ["yes"] None false ∅).
  - repeat constructor.
  - repeat constructor.
  - reflexivity.
  - by left.
  - reflexivity.
Defined.

(** ** An embedded domain at the end of the model *)

(** X20.  [extract_embedded] raises [IndexError] for an entry, of a domain
    with at least one residue, that fits at the very end of [full]: the
    atom index of the residue after the entry is looked up, and there is no
    such residue.  [full] is as it was. *)
Theorem Ranch_extract_embedded_at_end full dom i_start :
  wf full = true → sequence dom ≠ "" →
  Py.slice (sequence full) i_start (i_start + Py.len (sequence dom)) = sequence dom →
  i_start + Py.len (sequence dom) = lenResidues full →
  Ranch.extract_embedded [(dom, i_start)] full = (full, Raise IndexError).
Proof.
  intros Hwf Hne Hfit Hend.
  destruct (fitting_in_range full dom i_start Hwf Hne Hfit) as [part Hpart].
  unfold Ranch.extract_embedded.
  rewrite (inplace_bind_Ok _ _ full full
             (concat empty part, [(i_start, i_start + Py.len (sequence dom))])).
  2: { unfold reading. cbn [Ranch.collect].
       rewrite decide_True by done. rewrite Hpart. done. }
  cbn [sorted_desc foldr insert_desc for_each].
  unfold Ranch.cut. cbn [fst snd].
  assert (resIndex full !! (i_start + Py.len (sequence dom)) = None) as Hnone.
  { apply lookup_ge_None. unfold lenResidues in Hend. lia. }
  unfold mbind at 1, inplace_bind at 1.
  unfold mbind at 1, inplace_bind at 1.
  unfold mbind at 1, inplace_bind at 1.
  unfold reading at 1.
  destruct (resIndex full !! i_start) as [a|]; cbn [or_raise]; [|done].
  unfold mbind at 1, inplace_bind at 1, reading at 1.
  by rewrite Hnone.
Qed.

Lemma Ranch_extract_embedded_at_end_witness :
  Ranch.extract_embedded [(ex_emb, 4)] (concat ex_dom ex_emb)
  = (concat ex_dom ex_emb, Raise IndexError).
Proof.
  apply (Ranch_extract_embedded_at_end (concat ex_dom ex_emb) ex_emb 4).
  - reflexivity.
  - done.
  - reflexivity.
  - reflexivity.
Defined.




(** ** [extract_fixed], chain by chain *)

Lemma first_such {A} (P : A → Prop) `{∀ x, Decision (P x)} (l : list A) :
  Forall (λ x, ¬ P x) l ∨
  ∃ before x after, l = before ++ x :: after ∧ Forall (λ y, ¬ P y) before ∧ P x.
Proof.
  induction l as [|x l IH]; [by left|].
  destruct (decide (P x)) as [Hx|Hx].
  - right. exists [], x, l. split; [done|]. split; [constructor | done].
  - destruct IH as [IH | (before & y & after & -> & Hb & Hy)].
    + left. by constructor.
    + right. exists (x :: before), y, after.
      split; [done|]. split; [by constructor | done].
Qed.

Lemma first_such_unique {A} (P : A → Prop) (b1 : list A) : ∀ b2 x1 x2 a1 a2,
  b1 ++ x1 :: a1 = b2 ++ x2 :: a2 →
  Forall (λ y, ¬ P y) b1 → P x1 → Forall (λ y, ¬ P y) b2 → P x2 → x1 = x2.
Proof.
  induction b1 as [|y b1 IH]; intros [|z b2] x1 x2 a1 a2 E H1 Hx1 H2 Hx2; cbn in E.
  - by injection E.
  - injection E as -> _. by apply Forall_cons in H2 as [? _].
  - injection E as -> _. by apply Forall_cons in H1 as [? _].
  - injection E as -> E. apply Forall_cons in H1 as [_ H1].
    apply Forall_cons in H2 as [_ H2]. by eapply IH.
Qed.

Lemma sum_list_take_lt (lens : list nat) k l :
  lens !! k = Some l → sum_list (list.take k lens) + l ≤ sum_list lens.
Proof.
  intros Hl. pose proof (sum_list_take_drop_le lens k 1) as Hle.
  rewrite (drop_S _ _ _ Hl) in Hle. cbn in Hle. lia.
Qed.

Lemma chain_of_residue_lt full index c :
  wf full = true → chain_of_residue full index = Some c → c < lenChains full.
Proof.
  intros Hwf H. apply wf_shape in Hwf as (rl & cl & Hs).
  pose proof Hs as (_ & _ & _ & Hc & _).
  unfold chain_of_residue in H.
  destruct (resIndex full !! index) as [a|]; [|done]. cbn in H.
  rewrite (shape_chainMap _ _ _ Hs) in H.
  pose proof (vblocks_numbered_lt 0 cl) as Hall. rewrite Forall_forall in Hall.
  unfold lenChains. rewrite Hc, length_starts.
  apply (Hall c). by eapply list_elem_of_lookup_2.
Qed.

Lemma chain_of_residue_Some full index :
  wf full = true → index < lenResidues full →
  ∃ c, chain_of_residue full index = Some c.
Proof.
  intros Hwf Hlt. apply wf_shape in Hwf as (rl & cl & Hs).
  pose proof Hs as (Hpr & Hpc & Hr & Hc & Hsr & Hsc).
  unfold lenResidues in Hlt. rewrite Hr, length_starts in Hlt.
  destruct (lookup_lt_is_Some_2 rl index Hlt) as [l Hl].
  assert (0 < l) as Hpos.
  { rewrite Forall_forall in Hpr. apply Hpr. by eapply list_elem_of_lookup_2. }
  pose proof (sum_list_take_lt rl index l Hl) as Hle.
  unfold chain_of_residue. rewrite Hr, (lookup_starts 0 rl index Hlt).
  cbn [mbind option_bind Nat.add]. rewrite (shape_chainMap _ _ _ Hs).
  apply lookup_lt_is_Some_2. rewrite length_vblocks_numbered. lia.
Qed.

Lemma atom2chainIndices_residue full rl cl index l c :
  shape full rl cl → rl !! index = Some l → 0 < l →
  chain_of_residue full index = Some c →
  ∃ cs, atom2chainIndices full (seq (sum_list (list.take index rl)) l) = Ok (c :: cs).
Proof.
  intros Hs Hl Hpos Hc.
  pose proof Hs as (_ & _ & Hr & _ & Hsr & Hsc).
  pose proof (lookup_lt_Some _ _ _ Hl) as Hlt.
  pose proof (sum_list_take_lt rl index l Hl) as Hle.
  unfold chain_of_residue in Hc. rewrite Hr, (lookup_starts 0 rl index Hlt) in Hc.
  cbn [mbind option_bind Nat.add] in Hc.
  destruct l as [|l']; [lia|]. cbn [seq].
  apply atom2chainIndices_head; [done|].
  apply Forall_forall. intros x Hx%elem_of_seq.
  rewrite (shape_chainMap _ _ _ Hs), length_vblocks_numbered. lia.
Qed.

Lemma try_matches_first m full rl cl lowm highm before index after chains c :
  shape full rl cl →
  Forall (λ j, j < length rl) (before ++ [index]) →
  Forall (λ j, np_all_eq (xyz_slice m lowm highm) (residue_xyz full j) = false) before →
  np_all_eq (xyz_slice m lowm highm) (residue_xyz full index) = true →
  chain_of_residue full index = Some c →
  Ranch.try_matches m full lowm highm (before ++ index :: after) chains
  = list_remove c chains.
Proof.
  intros Hs Hlt Hno Hyes Hc.
  pose proof Hs as (Hpr & _).
  induction before as [|j before IH]; cbn [app] in *.
  - rewrite Forall_singleton in Hlt.
    destruct (lookup_lt_is_Some_2 rl index Hlt) as [l Hl].
    assert (0 < l) as Hpos.
    { rewrite Forall_forall in Hpr. apply Hpr. by eapply list_elem_of_lookup_2. }
    cbn [Ranch.try_matches].
    rewrite (res2atomIndices_one _ _ _ _ _ Hs Hl). cbn [mbind outcome_bind].
    rewrite head_seq, last_seq by done. cbn [or_raise mbind outcome_bind].
    rewrite (xyz_slice_residue _ _ _ _ _ Hs Hl Hpos), Hyes.
    destruct (atom2chainIndices_residue _ _ _ _ _ _ Hs Hl Hpos Hc) as [cs ->].
    done.
  - apply Forall_cons in Hlt as [Hj Hlt]. apply Forall_cons in Hno as [Hnj Hno].
    destruct (lookup_lt_is_Some_2 rl j Hj) as [l Hl].
    assert (0 < l) as Hpos.
    { rewrite Forall_forall in Hpr. apply Hpr. by eapply list_elem_of_lookup_2. }
    cbn [Ranch.try_matches].
    rewrite (res2atomIndices_one _ _ _ _ _ Hs Hl). cbn [mbind outcome_bind].
    rewrite head_seq, last_seq by done. cbn [or_raise mbind outcome_bind].
    rewrite (xyz_slice_residue _ _ _ _ _ Hs Hl Hpos), Hnj.
    by apply IH.
Qed.

Lemma finditer_in_range full m index :
  wf full = true → wf m = true → 0 < lenAtoms m →
  index ∈ re.finditer (Py.slice (sequence m) 0 10) (sequence full) →
  index < lenResidues full ∧ re.search (Py.slice (sequence m) 0 10) (sequence full) = true.
Proof.
  intros Hwf Hwm Hlen Hin.
  apply finditer_sound in Hin as [Hocc Hin]. split.
  - rewrite <- (len_sequence full Hwf). apply Hin, slice_nonempty.
    rewrite (len_sequence m Hwm).
    apply wf_shape in Hwm as (rl & cl & Hs).
    destruct Hs as (_ & _ & Hr & _ & Hsr & _).
    unfold lenResidues. rewrite Hr, length_starts.
    destruct rl; [cbn in Hsr; lia | cbn; lia].
  - by apply slice_contains in Hocc.
Qed.

(** The first residue of a chain, as [locate] takes it. *)
Lemma first_residue m :
  wf m = true → 0 < lenAtoms m →
  ∃ r0, 0 < r0 ∧ res2atomIndices m [0] = Ok (seq 0 r0) ∧
        xyz_slice m 0 (0 + r0 - 1) = residue_xyz m 0.
Proof.
  intros Hwm Hlen. apply wf_shape in Hwm as (rl & cl & Hs).
  pose proof Hs as (Hpr & Hpc & Hr & Hc & Hsr & Hsc).
  destruct rl as [|r0 rl]; [cbn in Hsr; lia|].
  apply Forall_cons in Hpr as [Hr0 Hpr]. exists r0. split; [done|]. split.
  - by rewrite (res2atomIndices_one m _ cl 0 r0 Hs eq_refl).
  - apply (xyz_slice_residue m _ cl 0 r0 Hs eq_refl Hr0).
Qed.

Lemma locate_found full m chains index c :
  wf full = true → wf m = true → 0 < lenAtoms m →
  located full m index → chain_of_residue full index = Some c →
  Ranch.locate full m chains = list_remove c chains.
Proof.
  intros Hwf Hwm Hlen (before & after & Hfi & Hb & Hacc) Hc.
  assert (∀ j, j ∈ before ++ [index] →
            j < lenResidues full ∧
            re.search (Py.slice (sequence m) 0 10) (sequence full) = true) as Hin.
  { intros j Hj. apply finditer_in_range; [done..|]. rewrite Hfi.
    apply elem_of_app in Hj as [Hj | Hj%list_elem_of_singleton].
    - apply elem_of_app. by left.
    - subst j. apply elem_of_app. right. left. }
  destruct (first_residue m Hwm Hlen) as (r0 & Hr0 & Hfirst & Hxyz).
  unfold Ranch.locate.
  rewrite (proj2 (Hin index ltac:(apply elem_of_app; right; left))).
  rewrite Hfirst. cbn [mbind outcome_bind].
  rewrite head_seq, last_seq by done. cbn [or_raise mbind outcome_bind].
  rewrite Hfi. apply wf_shape in Hwf as (rl & cl & Hs).
  pose proof Hs as (_ & _ & Hr & _).
  unfold lenResidues in Hin. rewrite Hr, length_starts in Hin.
  apply (try_matches_first m full rl cl); [done | | | | done].
  - apply Forall_forall. intros j Hj. by apply Hin.
  - rewrite Hxyz. eapply Forall_impl; [exact Hb|]. cbn.
    intros j Hj. by apply not_true_is_false.
  - by rewrite Hxyz.
Qed.

Lemma locate_not_found full m chains :
  wf full = true → wf m = true → 0 < lenAtoms m →
  (∀ index, ¬ located full m index) →
  Ranch.locate full m chains = Ok chains.
Proof.
  intros Hwf Hwm Hlen Hno.
  destruct (first_residue m Hwm Hlen) as (r0 & Hr0 & Hfirst & Hxyz).
  unfold Ranch.locate. destruct (re.search _ _); [|done].
  rewrite Hfirst. cbn [mbind outcome_bind].
  rewrite head_seq, last_seq by done. cbn [or_raise mbind outcome_bind].
  apply try_matches_none; [done|]. intros index Hin.
  split; [by apply (finditer_in_range full m)|].
  rewrite Hxyz. apply not_true_is_false. intros Hacc.
  destruct (first_such (accepted full m)
              (re.finditer (Py.slice (sequence m) 0 10) (sequence full)))
    as [Hall | (before & x & after & Hfi & Hb & Hx)].
  - rewrite Forall_forall in Hall. by apply (Hall index).
  - apply (Hno x). by exists before, after.
Qed.

Lemma located_unique full m x1 x2 :
  located full m x1 → located full m x2 → x1 = x2.
Proof.
  intros (b1 & a1 & E1 & H1 & Hx1) (b2 & a2 & E2 & H2 & Hx2).
  rewrite E1 in E2. by eapply (first_such_unique (accepted full m)).
Qed.

Lemma located_in_unique full m c1 c2 :
  located_in full m c1 → located_in full m c2 → c1 = c2.
Proof.
  intros (x1 & H1 & Hc1) (x2 & H2 & Hc2).
  rewrite (located_unique _ _ _ _ H1 H2) in Hc1. congruence.
Qed.

(** A chain is located in one chain of [full], or nowhere. *)
Lemma located_in_cases full m :
  wf full = true → wf m = true → 0 < lenAtoms m →
  (∃ index c, located full m index ∧ chain_of_residue full index = Some c) ∨
  (∀ index, ¬ located full m index).
Proof.
  intros Hwf Hwm Hlen.
  destruct (first_such (accepted full m)
              (re.finditer (Py.slice (sequence m) 0 10) (sequence full)))
    as [Hall | (before & x & after & Hfi & Hb & Hx)].
  - right. intros index (before & after & Hfi & _ & Hacc).
    rewrite Forall_forall in Hall. apply (Hall index); [|done].
    rewrite Hfi. apply elem_of_app. right. left.
  - left. destruct (chain_of_residue_Some full x Hwf) as [c Hc].
    { apply (finditer_in_range full m); [done..|]. rewrite Hfi.
      apply elem_of_app. right. left. }
    exists x, c. split; [by exists before, after | done].
Qed.

(** *** Taking chains off the list *)

Lemma list_remove_elem x l : ∀ l',
  NoDup l → list_remove x l = Ok l' → ∀ y, y ∈ l' ↔ y ∈ l ∧ y ≠ x.
Proof.
  induction l as [|z l IH]; intros l' Hnd H y; cbn in H; [done|].
  apply NoDup_cons in Hnd as [Hz Hnd].
  destruct (decide (z = x)) as [->|Hne].
  - injection H as <-. rewrite elem_of_cons. split.
    + intros Hy. split; [by right|]. by intros ->.
    + by intros [[-> | Hy] Hn].
  - destruct (list_remove x l) as [l''|] eqn:E; cbn in H; [|done].
    injection H as <-. rewrite !elem_of_cons, (IH l'' Hnd eq_refl).
    split.
    + intros [-> | [Hy Hn]]; [by split; [left|] | by split; [right|]].
    + intros [[-> | Hy] Hn]; [by left | by right].
Qed.

Lemma list_remove_is_Ok x l : x ∈ l → is_Ok (list_remove x l).
Proof.
  induction l as [|z l IH]; intros Hin; [by apply elem_of_nil in Hin|].
  cbn. destruct (decide (z = x)); [by eexists|].
  apply elem_of_cons in Hin as [-> | Hin]; [done|].
  destruct (IH Hin) as [l' ->]. by eexists.
Qed.

Lemma locate_all_spec full doms : ∀ chains chains',
  wf full = true → Forall (λ m, wf m = true ∧ 0 < lenAtoms m) doms →
  NoDup chains →
  Ranch.locate_all full doms chains = Ok chains' →
  ∀ c, c ∈ chains' ↔ c ∈ chains ∧ ¬ ∃ m, m ∈ doms ∧ located_in full m c.
Proof.
  induction doms as [|m doms IH]; intros chains chains' Hwf Hall Hnd H c.
  - cbn in H. injection H as <-. split.
    + intros Hc. split; [done|]. intros (m & Hm & _). by apply elem_of_nil in Hm.
    + by intros [? _].
  - apply Forall_cons in Hall as [[Hwm Hlen] Hall].
    cbn [Ranch.locate_all] in H. apply bind_Ok in H as (chains1 & H1 & H).
    assert (NoDup chains1) as Hnd1.
    { eapply sublist_NoDup; [exact Hnd | by eapply locate_sublist]. }
    rewrite (IH chains1 chains' Hwf Hall Hnd1 H c).
    destruct (located_in_cases full m Hwf Hwm Hlen) as [(x & cx & Hx & Hcx) | Hno].
    + rewrite (locate_found full m chains x cx) in H1 by done.
      rewrite (list_remove_elem _ _ _ Hnd H1). split.
      * intros [[Hc Hne] Hn]. split; [done|]. intros (m' & Hm' & Hloc).
        apply elem_of_cons in Hm' as [-> | Hm']; [|apply Hn; eauto].
        apply Hne. apply (located_in_unique full m); [done|]. by exists x.
      * intros [Hc Hn]. split; [split; [done|] |].
        -- intros ->. apply Hn. exists m. split; [left|]. by exists x.
        -- intros (m' & Hm' & Hloc). apply Hn. exists m'. split; [by right | done].
    + rewrite (locate_not_found full m chains) in H1 by done. injection H1 as <-.
      split.
      * intros [Hc Hn]. split; [done|]. intros (m' & Hm' & Hloc).
        apply elem_of_cons in Hm' as [-> | Hm']; [|apply Hn; eauto].
        destruct Hloc as (x & Hx & _). by apply (Hno x).
      * intros [Hc Hn]. split; [done|]. intros (m' & Hm' & Hloc).
        apply Hn. exists m'. split; [by right | done].
Qed.

Lemma locate_all_is_Ok full doms : ∀ chains,
  wf full = true → Forall (λ m, wf m = true ∧ 0 < lenAtoms m) doms →
  NoDup chains →
  (∀ m c, m ∈ doms → located_in full m c → c ∈ chains) →
  (∀ k1 k2 m1 m2 c, doms !! k1 = Some m1 → doms !! k2 = Some m2 →
     located_in full m1 c → located_in full m2 c → k1 = k2) →
  is_Ok (Ranch.locate_all full doms chains).
Proof.
  induction doms as [|m doms IH]; intros chains Hwf Hall Hnd Hin Hdist.
  - by eexists.
  - apply Forall_cons in Hall as [[Hwm Hlen] Hall].
    cbn [Ranch.locate_all].
    destruct (located_in_cases full m Hwf Hwm Hlen) as [(x & cx & Hx & Hcx) | Hno].
    + rewrite (locate_found full m chains x cx) by done.
      assert (located_in full m cx) as Hloc by (by exists x).
      destruct (list_remove_is_Ok cx chains) as [chains1 H1].
      { apply (Hin m); [left | done]. }
      rewrite H1. cbn [mbind outcome_bind].
      apply IH; [done | done | | |].
      * eapply sublist_NoDup; [exact Hnd | by eapply list_remove_sublist].
      * intros m' c Hm' Hloc'. apply (list_remove_elem _ _ _ Hnd H1). split.
        -- apply (Hin m'); [by right | done].
        -- intros ->. apply list_elem_of_lookup_1 in Hm' as [k Hk].
           by specialize (Hdist 0 (S k) m m' cx eq_refl Hk Hloc Hloc').
      * intros k1 k2 m1 m2 c H1' H2' L1 L2.
        by specialize (Hdist (S k1) (S k2) m1 m2 c H1' H2' L1 L2) as [= ->].
    + rewrite (locate_not_found full m chains) by done. cbn [mbind outcome_bind].
      apply IH; [done | done | done | |].
      * intros m' c Hm' Hloc'. apply (Hin m'); [by right | done].
      * intros k1 k2 m1 m2 c H1' H2' L1 L2.
        by specialize (Hdist (S k1) (S k2) m1 m2 c H1' H2' L1 L2) as [= ->].
Qed.

(** *** The chains of [dom], and the chains that are left *)

Lemma takeChains_one_lt dom i m : takeChains dom [i] = Ok m → i < lenChains dom.
Proof.
  unfold takeChains, chain2atomIndices, extendIndex, segments. cbn [mapR].
  unfold segment. intros H.
  destruct (chainIndex dom !! i) eqn:E; [|done].
  by apply lookup_lt_Some in E.
Qed.

Lemma chains_of_dom_lookup dom doms :
  mapR (λ i, takeChains dom [i]) (seq 0 (lenChains dom)) = Ok doms →
  ∀ i m, doms !! i = Some m ↔ takeChains dom [i] = Ok m.
Proof.
  intros H%mapR_Forall2 i m. split.
  - intros Hm. destruct (Forall2_lookup_r _ _ _ _ _ H Hm) as (k & Hk & Hok).
    apply lookup_seq in Hk as [-> _]. done.
  - intros Hm. pose proof (takeChains_one_lt _ _ _ Hm) as Hlt.
    destruct (Forall2_lookup_l _ _ _ i i H) as (m' & Hm' & Hok).
    { by apply lookup_seq. }
    cbv beta in Hok. rewrite Hm in Hok. by injection Hok as <-.
Qed.

Lemma takeChains_is_Ok m kept :
  wf m = true → kept ≠ [] → Forall (λ c, c < lenChains m) kept →
  is_Ok (takeChains m kept).
Proof.
  intros Hwf Hne Hall. apply wf_shape in Hwf as (rl & cl & Hs).
  pose proof Hs as (Hpr & Hpc & Hr & Hc & Hsr & Hsc).
  unfold lenChains in Hall. rewrite Hc, length_starts in Hall.
  unfold takeChains, chain2atomIndices.
  rewrite extendIndex_nonempty by done. unfold segments.
  rewrite Hc, <- Hsc.
  destruct (mapR_exists (segment (starts 0 cl) (sum_list cl))
              (Forall (λ k, k < sum_list cl)) kept) as (parts & -> & Hparts & _).
  { intros c Hin. rewrite Forall_forall in Hall.
    destruct (lookup_lt_is_Some_2 cl c (Hall c Hin)) as [l Hl].
    rewrite (segment_starts _ _ _ Hl). eexists. split; [done|].
    apply Forall_forall. intros x Hx%elem_of_seq.
    pose proof (sum_list_take_lt cl c l Hl). lia. }
  cbn [mbind outcome_bind].
  assert (Forall (λ k, k < sum_list cl) (List.concat parts)) as Hidx.
  { clear -Hparts. induction Hparts as [|p parts Hp _ IH]; [done|].
    cbn. by apply Forall_app. }
  rewrite Hsc in Hidx. unfold take.
  destruct (np_take_Ok (atoms m) (List.concat parts)) as [a ->]; [done|].
  destruct (np_take_Ok (resMap m) (List.concat parts)) as [b ->].
  { by rewrite (shape_resMap _ _ _ Hs), length_vblocks_numbered, Hsr. }
  destruct (np_take_Ok (chainMap m) (List.concat parts)) as [c ->].
  { by rewrite (shape_chainMap _ _ _ Hs), length_vblocks_numbered, Hsc. }
  by eexists.
Qed.

Lemma located_found_at full m index : located full m index → found_at full m index.
Proof.
  intros (before & after & Hfi & _ & Hacc). split; [|done].
  assert (index ∈ re.finditer (Py.slice (sequence m) 0 10) (sequence full)) as Hin
    by (rewrite Hfi; apply elem_of_app; right; left).
  by apply finditer_sound in Hin as [Hocc _].
Qed.

(** C5.  [extract_fixed] looks for every chain of [dom] in [full]: among
    the places where the first ten letters of the chain stand in the
    sequence of [full], as the search yields them, it takes the first one
    whose residue has the coordinates of the first residue of the chain,
    and the chain of [full] this residue lies in is matched.  The model
    returned is [full] restricted to its chains that are not matched, in
    their order.  It is returned when no two chains of [dom] are matched
    to the same chain of [full] and some chain of [full] is left; when no
    chain of [dom] is found anywhere, it is [full] with all its chains. *)
Theorem Ranch_extract_fixed_spec dom full :
  wf dom = true → wf full = true → 0 < lenChains full →
  (∀ r, Ranch.extract_fixed dom full = Ok r →
     ∃ kept, takeChains full kept = Ok r ∧
       sublist kept (seq 0 (lenChains full)) ∧
       ∀ c, c < lenChains full → (c ∈ kept ↔ ¬ matched dom full c)) ∧
  ((∀ i j mi mj c, takeChains dom [i] = Ok mi → takeChains dom [j] = Ok mj →
      located_in full mi c → located_in full mj c → i = j) →
   (∃ c, c < lenChains full ∧ ¬ matched dom full c) →
   is_Ok (Ranch.extract_fixed dom full)) ∧
  ((∀ i m index, takeChains dom [i] = Ok m → ¬ found_at full m index) →
   Ranch.extract_fixed dom full = Ok full).
Proof.
  intros Hwd Hwf Hpos.
  destruct (chains_of_dom dom Hwd) as (doms & Hdoms & Hall).
  pose proof (chains_of_dom_lookup dom doms Hdoms) as Hlook.
  assert (Forall (λ m, wf m = true ∧ 0 < lenAtoms m) doms) as Hall'.
  { eapply Forall_impl; [exact Hall|]. cbn. by intros m (_ & ? & ?). }
  assert (∀ c, (∃ m, m ∈ doms ∧ located_in full m c) ↔ matched dom full c) as Hm.
  { intros c. split.
    - intros (m & [i Hi]%list_elem_of_lookup_1 & Hloc).
      exists i, m. split; [by apply Hlook | done].
    - intros (i & m & Hi & Hloc). exists m. split; [|done].
      apply Hlook in Hi. by eapply list_elem_of_lookup_2. }
  assert (∀ kept, Ranch.locate_all full doms (seq 0 (lenChains full)) = Ok kept →
            sublist kept (seq 0 (lenChains full)) ∧
            ∀ c, c < lenChains full → (c ∈ kept ↔ ¬ matched dom full c)) as Hkept.
  { intros kept Hk. split; [by eapply locate_all_sublist|].
    intros c Hc.
    rewrite (locate_all_spec full doms _ kept Hwf Hall' (NoDup_seq _ _) Hk c).
    rewrite Hm, elem_of_seq. split; [by intros [_ ?] | intros ?; split; [lia | done]]. }
  unfold Ranch.extract_fixed. rewrite Hdoms. cbn [mbind outcome_bind].
  split; [|split].
  - intros r H. apply bind_Ok in H as (kept & Hk & H).
    exists kept. split; [done|]. by apply Hkept.
  - intros Hdist (c & Hc & Hleft).
    destruct (locate_all_is_Ok full doms (seq 0 (lenChains full)) Hwf Hall'
                (NoDup_seq _ _)) as [kept Hk].
    { intros m c' _ (x & _ & Hx). apply elem_of_seq.
      pose proof (chain_of_residue_lt full x c' Hwf Hx). lia. }
    { intros k1 k2 m1 m2 c' H1 H2 L1 L2.
      apply Hlook in H1, H2. by eapply Hdist. }
    rewrite Hk. cbn [mbind outcome_bind].
    destruct (Hkept kept Hk) as [Hsub Hin].
    apply takeChains_is_Ok; [done | |].
    + intros ->. apply (Hin c Hc) in Hleft. by apply elem_of_nil in Hleft.
    + apply Forall_forall. intros c' Hc'.
      pose proof (elem_of_sublist _ _ _ Hc' Hsub) as Hc''.
      apply elem_of_seq in Hc''. lia.
  - intros Hno.
    rewrite locate_all_none; [by apply takeChains_all | done |].
    eapply Forall_impl; [exact Hall|]. cbn.
    intros m ([i Hi] & Hwm & Hl). repeat split; [done..|].
    intros index. by eapply Hno.
Qed.

(** The middle chain of three chains with the same sequence: the first
    place where its letters stand lies in the first chain, which has other
    coordinates; the second place is the chain itself, and this chain goes. *)
Lemma Ranch_extract_fixed_spec_witness :
  re.finditer (Py.slice (sequence ex_middle) 0 10) (sequence ex_trimer) = [0; 2; 4] ∧
  located ex_trimer ex_middle 2 ∧ matched ex_middle ex_trimer 1 ∧
  Ranch.extract_fixed ex_middle ex_trimer = takeChains ex_trimer [0; 2] ∧
  (∀ r, Ranch.extract_fixed ex_middle ex_trimer = Ok r →
     ∃ kept, takeChains ex_trimer kept = Ok r ∧
       sublist kept (seq 0 (lenChains ex_trimer)) ∧
       ∀ c, c < lenChains ex_trimer → (c ∈ kept ↔ ¬ matched ex_middle ex_trimer c)) ∧
  ((∀ i j mi mj c,
      takeChains ex_middle [i] = Ok mi → takeChains ex_middle [j] = Ok mj →
      located_in ex_trimer mi c → located_in ex_trimer mj c → i = j) →
   (∃ c, c < lenChains ex_trimer ∧ ¬ matched ex_middle ex_trimer c) →
   is_Ok (Ranch.extract_fixed ex_middle ex_trimer)) ∧
  ((∀ i m index, takeChains ex_middle [i] = Ok m → ¬ found_at ex_trimer m index) →
   Ranch.extract_fixed ex_middle ex_trimer = Ok ex_trimer).
Proof.
  assert (located ex_trimer ex_middle 2) as Hloc.
  { exists [0], [4]. split; [by vm_compute|]. split; [|by vm_compute].
    apply Forall_singleton. by vm_compute. }
  split; [by vm_compute|]. split; [done|]. split.
  { exists 0, ex_middle. split; [by vm_compute|]. exists 2. split; [done|].
    by vm_compute. }
  split; [by vm_compute|].
  apply (Ranch_extract_fixed_spec ex_middle ex_trimer).
  - reflexivity.
  - reflexivity.
  - vm_compute. lia.
Defined.
